(** * Album store of the photo-blog admin panel (admin/server.js)

    A shallow embedding of the album/image metadata lifecycle implemented by
    [admin/server.js]: the front-matter scanner and album assembly of
    [getAlbums], the post writer [generatePostMarkdown], and the route
    handlers that create, update, reorder and delete album data.

    Conventions of the embedding:
    - JavaScript strings are [string]s whose characters are code units
      below 256;
    - a directory is the list of its regular files in the order
      [fs.readdirSync] reports them; a file written under a new name is
      reported last;
    - a JSON file is kept as the value [JSON.parse] yields for its text
      ([None] when the text does not parse), and [JSON.stringify] followed
      by [JSON.parse] is the identity on the values written;
    - the numbers [parseInt] returns and the layout fields hold are
      doubles with an integer value: they are integers, with the rounding
      of doubles and their printing written out;
    - the printing and parsing of the other numbers (aspect ratios, image
      dimensions), the date and URL parsers, the slugify package, the image
      processor (sharp) and the object store (Backblaze B2) are parameters,
      gathered in [Platform]. *)

From Stdlib Require Import ZArith String Ascii List Bool Lia Floats.
From Stdlib Require Import Permutation Sorted.
From Stdlib Require Import Numbers.DecimalString Numbers.DecimalPos.
Import ListNotations.

Set Warnings "-register-all".

Open Scope string_scope.
Open Scope list_scope.
Open Scope Z_scope.

Infix "+++" := String.append (right associativity, at level 60).

(** ** JavaScript string primitives *)

Module JsString.

(** Characters. *)
Definition LF : ascii := ascii_of_nat 10.
Definition CR : ascii := ascii_of_nat 13.
Definition DQ : ascii := ascii_of_nat 34.
Definition SQ : ascii := ascii_of_nat 39.
Definition BSL : ascii := ascii_of_nat 92.

Definition nl : string := String LF "".
Definition crnl : string := String CR (String LF "").

Definition code (c : ascii) : nat := nat_of_ascii c.

(** [\s] of a regular expression, which is also what [trim] and [parseInt]
    skip: tab, line feed, vertical tab, form feed, carriage return, space,
    no-break space. *)
Definition is_space (c : ascii) : bool :=
  let n := code c in
  ((9 <=? n) && (n <=? 13) || (n =? 32) || (n =? 160))%nat.

(** Line terminators, which [.] does not match. *)
Definition is_line_terminator (c : ascii) : bool :=
  let n := code c in ((n =? 10) || (n =? 13))%nat.

Definition is_digit (c : ascii) : bool :=
  let n := code c in ((48 <=? n) && (n <=? 57))%nat.

(** [\w]: letters, digits and underscore. *)
Definition is_word (c : ascii) : bool :=
  let n := code c in
  ((65 <=? n) && (n <=? 90) || (97 <=? n) && (n <=? 122)
   || is_digit c || (n =? 95))%nat.

(** [s.startsWith(p)] and [s.endsWith(p)]. *)
Definition startsWith (p s : string) : bool := String.prefix p s.

Fixpoint endsWith (p s : string) : bool :=
  (s =? p)%string
  || match s with
     | EmptyString => false
     | String _ s' => endsWith p s'
     end.

(** [s.slice(1, -1)]: the string without its first and last character. *)
Fixpoint drop_last (s : string) : string :=
  match s with
  | EmptyString => ""
  | String _ EmptyString => ""
  | String c s' => String c (drop_last s')
  end.

Definition slice_1_m1 (s : string) : string :=
  match s with
  | EmptyString => ""
  | String _ s' => drop_last s'
  end.

(** [s.trim()]. *)
Fixpoint trimStart (s : string) : string :=
  match s with
  | EmptyString => ""
  | String c s' => if is_space c then trimStart s' else s
  end.

Fixpoint trimEnd (s : string) : string :=
  match s with
  | EmptyString => ""
  | String c s' =>
      let r := trimEnd s' in
      if is_space c && (r =? "")%string then "" else String c r
  end.

Definition trim (s : string) : string := trimEnd (trimStart s).

(** [s.split(c)] for a one-character separator; the empty string splits
    into one empty piece. *)
Fixpoint split (sep : ascii) (s : string) : list string :=
  match s with
  | EmptyString => [""]
  | String c s' =>
      if Ascii.eqb c sep then "" :: split sep s'
      else match split sep s' with
           | piece :: rest => String c piece :: rest
           | [] => [String c ""]
           end
  end.

(** [l.join(sep)]. *)
Fixpoint join (sep : string) (l : list string) : string :=
  match l with
  | [] => ""
  | [x] => x
  | x :: rest => x +++ sep +++ join sep rest
  end.

(** [s.split(/\r?\n/)]: pieces end at each line feed, and a carriage return
    just before that line feed belongs to the separator. *)
Fixpoint drop_last_cr (s : string) : string :=
  match s with
  | EmptyString => ""
  | String c EmptyString => if Ascii.eqb c CR then "" else s
  | String c s' => String c (drop_last_cr s')
  end.

Fixpoint strip_cr_but_last (l : list string) : list string :=
  match l with
  | [] => []
  | [x] => [x]
  | x :: rest => drop_last_cr x :: strip_cr_but_last rest
  end.

Definition split_lines (s : string) : list string :=
  strip_cr_but_last (split LF s).

(** The global replacement applied by the post writer: a backslash is put
    before every double quote. *)
Fixpoint escape_quotes (s : string) : string :=
  match s with
  | EmptyString => ""
  | String c s' =>
      if Ascii.eqb c DQ then String BSL (String DQ (escape_quotes s'))
      else String c (escape_quotes s')
  end.

(** [s.replace(pat, rep)] with a string pattern: the first occurrence
    only. *)
Fixpoint drop (n : nat) (s : string) : string :=
  match n, s with
  | O, _ => s
  | S n', String _ s' => drop n' s'
  | S _, EmptyString => ""
  end.

Fixpoint replace_first (pat rep s : string) : string :=
  if String.prefix pat s then rep +++ drop (String.length pat) s
  else match s with
       | EmptyString => ""
       | String c s' => String c (replace_first pat rep s')
       end.

(** Decimal printing of an integer: how a number that is an array length
    or an index below it is printed, and a double up to 2^53 (see
    [print_number]). *)
Definition of_Z (z : Z) : string := NilZero.string_of_int (Z.to_int z).

(** [String(i).padStart(3, '0')]. *)
Definition padStart3 (s : string) : string :=
  match String.length s with
  | O => "000"
  | 1%nat => "00" +++ s
  | 2%nat => "0" +++ s
  | _ => s
  end.

(** *** Numbers

    The numbers [parseInt] returns are doubles with an integer value, the
    two infinities and [NaN]. A double with an integer value is written as
    that integer, infinity as [INFINITY] (2^1024, the least power of two
    that is no double) and its opposite, and [NaN] as [None]. Negative zero
    is written 0: none of the operations applied to these numbers here
    (comparison, [||], indexing, [!==], printing) tells the two zeros
    apart. *)
Definition INFINITY : Z := 2 ^ 1024.

(** The double nearest to an integer, ties going to the even significand;
    from 2^1024 - 2^970 on the integers round to infinity. *)
Definition to_double (z : Z) : Z :=
  let a := Z.abs z in
  if a <? 2 ^ 53 then z
  else
    let shift := Z.log2 a - 52 in
    let q := Z.shiftr a shift in
    let r := a - Z.shiftl q shift in
    let half := Z.shiftl 1 (shift - 1) in
    let q' :=
      if (half <? r) || ((r =? half) && Z.odd q) then q + 1 else q in
    Z.sgn z * Z.min (Z.shiftl q' shift) INFINITY.

(** [Number::toString] of a double above 2^53. The digits are those of the
    shortest decimal numeral that denotes a number rounding to the double
    (the nearest one to it when several are as short): the greatest power
    of ten with a multiple in the rounding interval is searched from [j]
    downwards. The bounds of the interval are doubled, so that they are
    integers; they belong to it when the significand is even. *)
Fixpoint shortest_from (j : nat) (a lo2 hi2 : Z) (closed : bool) : Z * Z :=
  let p := 10 ^ Z.of_nat j in
  let inside v :=
    if closed then (lo2 <=? 2 * v) && (2 * v <=? hi2)
    else (lo2 <? 2 * v) && (2 * v <? hi2) in
  let v1 := a / p * p in
  let v2 := v1 + p in
  let pick :=
    match inside v1, inside v2 with
    | true, true =>
        if a - v1 <? v2 - a then Some v1
        else if v2 - a <? a - v1 then Some v2
        else if Z.even (v1 / p) then Some v1 else Some v2
    | true, false => Some v1
    | false, true => Some v2
    | false, false => None
    end in
  match pick with
  | Some v => (v, p)
  | None =>
      match j with
      | O => (a, 1)
      | S j' => shortest_from j' a lo2 hi2 closed
      end
  end.

(** The digits [s] with a point after the first one, and the exponent. *)
Definition exponent_form (s e : Z) : string :=
  match of_Z s with
  | EmptyString => ""
  | String c EmptyString => String c ("e+" +++ of_Z e)
  | String c rest => String c ("." +++ rest +++ "e+" +++ of_Z e)
  end.

Definition print_double (a : Z) : string :=
  let e := Z.log2 a - 52 in
  let m := Z.shiftr a e in
  let up := 2 ^ e in
  let down := if m =? 2 ^ 52 then 2 ^ (e - 1) else 2 ^ e in
  let '(v, p) :=
    shortest_from (String.length (of_Z a)) a (2 * a - down) (2 * a + up)
      (Z.even m) in
  let n := Z.of_nat (String.length (of_Z v)) in
  if n <=? 21 then of_Z v else exponent_form (v / p) (n - 1).

(** What a template literal prints for a number: an integer up to 2^53 in
    plain decimal, a larger double by its shortest digits (in exponent form
    from 10^21 on), infinity by its name. *)
Definition print_number (z : Z) : string :=
  let a := Z.abs z in
  let sign := if z <? 0 then "-" else "" in
  if INFINITY <=? a then sign +++ "Infinity"
  else if a <=? 2 ^ 53 then of_Z z
  else sign +++ print_double a.

(** [parseInt(s)]: leading white space is skipped, then an optional sign,
    then a [0x]/[0X] prefix selects radix 16; the longest run of digits is
    read, and the number returned is the double nearest to the integer
    read. [None] stands for [NaN] (no digit). *)
Definition digit_value (radix : Z) (c : ascii) : option Z :=
  let n := Z.of_nat (code c) in
  let v :=
    if (48 <=? n) && (n <=? 57) then Some (n - 48)
    else if (97 <=? n) && (n <=? 122) then Some (n - 87)
    else if (65 <=? n) && (n <=? 90) then Some (n - 55)
    else None in
  match v with
  | Some d => if d <? radix then Some d else None
  | None => None
  end.

Fixpoint read_digits (radix : Z) (acc : option Z) (s : string) : option Z :=
  match s with
  | EmptyString => acc
  | String c s' =>
      match digit_value radix c with
      | Some d =>
          read_digits radix
            (Some (match acc with Some a => a * radix + d | None => d end)) s'
      | None => acc
      end
  end.

Definition parseInt (input : string) : option Z :=
  let s := trimStart input in
  let '(sign, s) :=
    match s with
    | String "-" s' => (-1, s')
    | String "+" s' => (1, s')
    | _ => (1, s)
    end in
  let '(radix, s) :=
    if String.prefix "0x" s || String.prefix "0X" s then (16, drop 2 s)
    else (10, s) in
  option_map (fun mathInt => to_double (sign * mathInt))
             (read_digits radix None s).

End JsString.

Import JsString.

(** ** Values *)

(** A front-matter value, and a field of a form body: a string, or an
    array of strings. *)
Inductive jsval :=
| VStr (s : string)
| VArr (l : list string).

(** [ToString]: an array prints its elements separated by commas. *)
Definition to_string (v : jsval) : string :=
  match v with
  | VStr s => s
  | VArr l => join "," l
  end.

(** Truthiness: the empty string is the only falsy value here. *)
Definition truthy (v : jsval) : bool :=
  match v with
  | VStr s => negb (s =? "")%string
  | VArr _ => true
  end.

(** [x || d] where [x] may be [undefined]. *)
Definition or_val (x : option jsval) (d : jsval) : jsval :=
  match x with
  | Some v => if truthy v then v else d
  | None => d
  end.

(** [parseInt(x)] of a value that may be [undefined] (which prints as
    the word undefined and has no digit). *)
Definition parseInt_val (x : option jsval) : option Z :=
  match x with
  | Some v => parseInt (to_string v)
  | None => None
  end.

(** [n || d] for a number: [NaN] and zero are falsy. *)
Definition or_num (n : option Z) (d : Z) : Z :=
  match n with
  | Some z => if z =? 0 then d else z
  | None => d
  end.

(** Parsed JSON. *)
Inductive json :=
| JNull
| JBool (b : bool)
| JNum (x : float)
| JStr (s : string)
| JArr (l : list json)
| JObj (fields : list (string * json)).

Definition num_truthy (x : float) : bool :=
  negb (PrimFloat.eqb x 0%float || PrimFloat.is_nan x).

Definition json_truthy (v : json) : bool :=
  match v with
  | JNull => false
  | JBool b => b
  | JNum x => num_truthy x
  | JStr s => negb (s =? "")%string
  | JArr _ | JObj _ => true
  end.

(** The last binding of a key is the one [JSON.parse] keeps. *)
Fixpoint obj_get (k : string) (fields : list (string * json)) : option json :=
  match fields with
  | [] => None
  | (k', v) :: rest =>
      match obj_get k rest with
      | Some w => Some w
      | None => if (k' =? k)%string then Some v else None
      end
  end.

(** [a || b] on values that may be [undefined]. *)
Definition or_json (x : option json) (d : option json) : option json :=
  match x with
  | Some v => if json_truthy v then x else d
  | None => d
  end.

Definition or_json_default (x : option json) (d : json) : json :=
  match x with
  | Some v => if json_truthy v then v else d
  | None => d
  end.

(** ** The platform *)

Definition Buffer := list Byte.byte.

Record File := { buffer : Buffer; mimetype : string }.

Record Metadata := { meta_width : float; meta_height : float }.

(** Calls made to the object store, oldest first. *)
Inductive B2Call :=
| Upload (fileName : string) (data : Buffer) (contentType : string)
| Delete (fileName : string).

Definition Remote := list B2Call.

Record Platform := {
  (* .b2-config.json *)
  use_cdn : bool;
  cdn_domain : string;
  bucket_name : string;
  (* new Date().toISOString().split('T')[0] *)
  today : string;
  (* slugify(name, { lower: true, strict: true, remove: ... }) *)
  slugify : string -> string;
  (* new Date(s).getTime(); None is an invalid date *)
  Date_parse : string -> option Z;
  (* Number::toString, parseFloat on a string, Math.round *)
  Number_toString : float -> string;
  parseFloat_string : string -> float;
  Math_round : float -> float;
  (* new URL(s).pathname; None when the constructor throws *)
  URL_pathname : string -> option string;
  (* sharp: None when the promise rejects *)
  sharp_metadata : Buffer -> option Metadata;
  sharp_jpeg : Buffer -> option Buffer;
  sharp_thumbnail : Buffer -> option Buffer;
  (* uploadToB2 and deleteFromB2 after the calls made so far: false when
     the promise rejects *)
  b2_upload : Remote -> string -> Buffer -> string -> bool;
  b2_delete : Remote -> string -> bool
}.

(** [ToString] of a JSON value. *)
Fixpoint json_to_string (P : Platform) (v : json) : string :=
  match v with
  | JNull => "null"
  | JBool true => "true"
  | JBool false => "false"
  | JNum x => Number_toString P x
  | JStr s => s
  | JArr l =>
      join ","
        (map (fun e => match e with
                       | JNull => ""
                       | _ => json_to_string P e
                       end) l)
  | JObj _ => "[object Object]"
  end.

(** [parseFloat(v)]: a number prints and reads back as itself, except that
    negative zero reads back as zero. *)
Definition parseFloat (P : Platform) (v : json) : float :=
  match v with
  | JNum x => if PrimFloat.eqb x 0%float then 0%float else x
  | _ => parseFloat_string P (json_to_string P v)
  end.

(** ** Files *)

Definition Dir (A : Type) := list (string * A).

Fixpoint dir_read {A} (name : string) (d : Dir A) : option A :=
  match d with
  | [] => None
  | (n, c) :: rest => if (n =? name)%string then Some c else dir_read name rest
  end.

Definition dir_exists {A} (name : string) (d : Dir A) : bool :=
  match dir_read name d with Some _ => true | None => false end.

Definition readdir {A} (d : Dir A) : list string := map fst d.

Fixpoint dir_remove {A} (name : string) (d : Dir A) : Dir A :=
  match d with
  | [] => []
  | (n, c) :: rest =>
      if (n =? name)%string then dir_remove name rest
      else (n, c) :: dir_remove name rest
  end.

(** [fs.writeFileSync]: an existing file keeps its place. *)
Fixpoint dir_write {A} (name : string) (content : A) (d : Dir A) : Dir A :=
  match d with
  | [] => [(name, content)]
  | (n, c) :: rest =>
      if (n =? name)%string then (n, content) :: rest
      else (n, c) :: dir_write name content rest
  end.

(** [fs.renameSync] of an existing file; a file already at the new name is
    replaced. *)
Definition dir_rename {A} (old new : string) (d : Dir A) : Dir A :=
  match dir_read old d with
  | Some c =>
      if (old =? new)%string then d
      else dir_remove new (dir_remove old d) ++ [(new, c)]
  | None => d
  end.

(** [_posts] holds the Markdown files; [_data/virtual-photography] holds the
    JSON files, [None] for a text [JSON.parse] rejects. *)
Record Store := {
  posts : Dir string;
  data : Dir (option json)
}.

Definition ALBUM_ORDER : string := "_album-order.json".

(** ** Front matter *)

(** [postContent.match(/^---\r?\n([\s\S]*?)\r?\n---/)]: the text between
    the opening line and the first line break followed by three dashes. *)
Fixpoint until_close (s : string) : option string :=
  if String.prefix (nl +++ "---") s || String.prefix (crnl +++ "---") s
  then Some ""
  else match s with
       | EmptyString => None
       | String c s' => option_map (String c) (until_close s')
       end.

Definition front_matter_block (content : string) : option string :=
  if String.prefix ("---" +++ crnl) content then until_close (drop 5 content)
  else if String.prefix ("---" +++ nl) content then until_close (drop 4 content)
  else None.

(** The pattern applied to each line, a lazy run of [\w] and [-], a
    colon, [\s] repeated, then any characters but line terminators up to the
    end: the key is what precedes the first colon, made of word characters and dashes only; the value is the rest
    without its leading white space, which must hold no line terminator. *)
Fixpoint split_key (line : string) : option (string * string) :=
  match line with
  | EmptyString => None
  | String c rest =>
      if Ascii.eqb c ":" then Some ("", rest)
      else if is_word c || Ascii.eqb c "-" then
        match split_key rest with
        | Some (k, r) => Some (String c k, r)
        | None => None
        end
      else None
  end.

Fixpoint has_line_terminator (s : string) : bool :=
  match s with
  | EmptyString => false
  | String c s' => is_line_terminator c || has_line_terminator s'
  end.

Definition match_line (line : string) : option (string * string) :=
  match split_key line with
  | Some (k, rest) =>
      let v := trimStart rest in
      if has_line_terminator v then None else Some (k, v)
  | None => None
  end.

(** The value of a line: trimmed, one pair of enclosing quotes removed,
    then a bracketed value split at commas. *)
Definition unquote (value : string) : string :=
  if (startsWith (String DQ "") value && endsWith (String DQ "") value)
     || (startsWith (String SQ "") value && endsWith (String SQ "") value)
  then slice_1_m1 value else value.

Definition parse_value (raw : string) : jsval :=
  let value := unquote (trim raw) in
  if startsWith "[" value && endsWith "]" value
  then VArr (map trim (split "," (slice_1_m1 value)))
  else VStr value.

(** The [frontMatter] object: the latest assignment to a key comes first.
    Assigning to [__proto__] creates no property the album reads. *)
Definition FrontMatter := list (string * jsval).

Definition fm_line (fm : FrontMatter) (line : string) : FrontMatter :=
  match match_line line with
  | Some (k, raw) =>
      if (k =? "__proto__")%string then fm else (k, parse_value raw) :: fm
  | None => fm
  end.

Definition parse_front_matter (block : string) : FrontMatter :=
  fold_left fm_line (split_lines block) [].

Fixpoint fm_get (k : string) (fm : FrontMatter) : option jsval :=
  match fm with
  | [] => None
  | (k', v) :: rest => if (k' =? k)%string then Some v else fm_get k rest
  end.

(** ** Images *)

Record Image := {
  url : json;
  thumb : json;
  aspectRatio : float;
  width : json;
  height : json
}.

(** Reading a property of an array element: [None] when the element is
    [null] (a TypeError), [Some None] for [undefined]. *)
Definition prop (img : json) (k : string) : option (option json) :=
  match img with
  | JNull => None
  | JObj fields => Some (obj_get k fields)
  | _ => Some None
  end.

(** The callback of [rawImages.map] in [getAlbums]. *)
Definition normalize_image (P : Platform) (img : json) : option Image :=
  match img with
  | JNull => None
  | _ =>
      let get k := match prop img k with Some v => v | None => None end in
      Some {|
        url := or_json_default
                 (or_json (get "url") (get "imageFull-link")) (JStr "");
        thumb := or_json_default
                   (or_json (get "thumb") (get "thumbnail-link")) (JStr "");
        aspectRatio :=
          parseFloat P
            (or_json_default
               (or_json (get "aspectRatio") (get "aspect-ratio"))
               (JNum 1.5%float));
        width := or_json_default (get "width") (JNum 0%float);
        height := or_json_default (get "height") (JNum 0%float)
      |}
  end.

Fixpoint normalize_all (P : Platform) (l : list json) : option (list Image) :=
  match l with
  | [] => Some []
  | img :: rest =>
      match normalize_image P img, normalize_all P rest with
      | Some i, Some r => Some (i :: r)
      | _, _ => None
      end
  end.

(** The [try] block reading the descriptor: any failure leaves [images]
    empty. *)
Definition read_images (P : Platform) (file : option (option json))
  : list Image :=
  match file with
  | Some (Some (JArr l)) =>
      match normalize_all P l with
      | Some imgs => imgs
      | None => []
      end
  | _ => []
  end.

(** [JSON.stringify] of an image list; a missing entry and a number that
    is not finite are written as [null]. *)
Definition is_finite (x : float) : bool :=
  negb (PrimFloat.is_nan x || PrimFloat.is_infinity x).

Definition stringify_value (v : json) : json :=
  match v with
  | JNum x => if is_finite x then v else JNull
  | _ => v
  end.

Definition stringify_image (i : option Image) : json :=
  match i with
  | Some img =>
      JObj [("url", stringify_value (url img));
            ("thumb", stringify_value (thumb img));
            ("aspectRatio", stringify_value (JNum (aspectRatio img)));
            ("width", stringify_value (width img));
            ("height", stringify_value (height img))]
  | None => JNull
  end.

Definition stringify_images (l : list (option Image)) : json :=
  JArr (map stringify_image l).

(** ** Albums *)

(** The eight layout numbers are results of [parseInt] or defaults:
    doubles with an integer value, or an infinity (see the section on
    numbers). *)
Record Album := {
  slug : string;
  title : jsval;
  description : jsval;
  developer : jsval;
  date : jsval;
  tags : list string;
  cardImage : Z;
  cardOffset : Z;
  cardOffsetX : Z;
  cardZoom : Z;
  bannerImage : Z;
  bannerOffset : Z;
  bannerOffsetX : Z;
  bannerZoom : Z;
  images : list Image;
  imageCount : nat;
  postFile : string;
  jsonFile : string
}.

(** The tags of an album: an array is taken as it is, a non-empty string
    is split at commas. *)
Definition parse_tags (fm : FrontMatter) : list string :=
  match fm_get "tags" fm with
  | Some (VArr l) => l
  | Some (VStr s) => if (s =? "")%string then [] else map trim (split "," s)
  | None => []
  end.

(** The object pushed on [albums] in [getAlbums]. *)
Definition make_album (slug : string) (fm : FrontMatter) (imgs : list Image)
    (postFile jsonFile : string) : Album :=
  {| slug := slug;
     title := or_val (fm_get "title" fm) (VStr slug);
     description := or_val (fm_get "description" fm) (VStr "Virtual Photography");
     developer := or_val (fm_get "developer" fm) (VStr "");
     date := or_val (fm_get "date" fm) (VStr "");
     tags := parse_tags fm;
     cardImage := or_num (parseInt_val (fm_get "card-image" fm)) 0;
     cardOffset := or_num (parseInt_val (fm_get "card-offset" fm)) 50;
     cardOffsetX := or_num (parseInt_val (fm_get "card-offset-x" fm)) 50;
     cardZoom := or_num (parseInt_val (fm_get "card-zoom" fm)) 100;
     bannerImage := or_num (parseInt_val (fm_get "banner-image" fm)) 0;
     bannerOffset := or_num (parseInt_val (fm_get "banner-offset" fm)) 50;
     bannerOffsetX := or_num (parseInt_val (fm_get "banner-offset-x" fm)) 50;
     bannerZoom := or_num (parseInt_val (fm_get "banner-zoom" fm)) 100;
     images := imgs;
     imageCount := List.length imgs;
     postFile := postFile;
     jsonFile := jsonFile |}.

(** One turn of the loop over the JSON files: the album, when a post file
    whose name ends with the slug exists and has a front-matter block. *)
Definition load_album (P : Platform) (st : Store) (jsonFile : string)
  : option Album :=
  let slug := replace_first ".json" "" jsonFile in
  let postFiles := filter (endsWith (slug +++ ".md")) (readdir (posts st)) in
  match postFiles with
  | [] => None
  | pf :: _ =>
      match dir_read pf (posts st) with
      | Some postContent =>
          match front_matter_block postContent with
          | Some block =>
              Some (make_album slug (parse_front_matter block)
                      (read_images P (dir_read jsonFile (data st)))
                      pf jsonFile)
          | None => None
          end
      | None => None
      end
  end.

Fixpoint collect {A B} (f : A -> option B) (l : list A) : list B :=
  match l with
  | [] => []
  | x :: rest =>
      match f x with
      | Some y => y :: collect f rest
      | None => collect f rest
      end
  end.

Definition json_files (st : Store) : list string :=
  filter (fun f => endsWith ".json" f && negb (startsWith "_" f))
         (readdir (data st)).

Definition load_albums (P : Platform) (st : Store) : list Album :=
  collect (load_album P st) (json_files st).

(** ** Album order *)

Definition is_null (v : json) : bool :=
  match v with JNull => true | _ => false end.

(** [getAlbumOrder]: the entries of the order file that are not [null];
    empty when the file is absent, does not parse, or holds no array. *)
Definition getAlbumOrder (st : Store) : list json :=
  match dir_read ALBUM_ORDER (data st) with
  | Some (Some (JArr l)) => filter (fun v => negb (is_null v)) l
  | _ => []
  end.

(** [order.indexOf(slug)], -1 when no entry is that string. *)
Fixpoint indexOf_from (i : Z) (order : list json) (s : string) : Z :=
  match order with
  | [] => -1
  | JStr s' :: rest =>
      if (s' =? s)%string then i else indexOf_from (i + 1) rest s
  | _ :: rest => indexOf_from (i + 1) rest s
  end.

Definition indexOf (order : list json) (s : string) : Z :=
  indexOf_from 0 order s.

(** ** Sorting *)

(** [new Date(b.date) - new Date(a.date)]; [None] is [NaN]. *)
Definition date_value (P : Platform) (a : Album) : option Z :=
  Date_parse P (to_string (date a)).

Definition by_date_desc (P : Platform) (a b : Album) : option Z :=
  match date_value P b, date_value P a with
  | Some tb, Some ta => Some (tb - ta)
  | _, _ => None
  end.

(** The comparator used when an order exists. *)
Definition by_order (P : Platform) (order : list json) (a b : Album)
  : option Z :=
  let aIndex := indexOf order (slug a) in
  let bIndex := indexOf order (slug b) in
  if (0 <=? aIndex) && (0 <=? bIndex) then Some (aIndex - bIndex)
  else if 0 <=? aIndex then Some (-1)
  else if 0 <=? bIndex then Some 1
  else by_date_desc P a b.

(** [Array.prototype.sort]: a comparator result of [NaN] counts as zero.
    The sort is stable; for a consistent comparator every conforming engine
    returns what this insertion sort returns. *)
Definition sort_compare {A} (cmp : A -> A -> option Z) (x y : A) : Z :=
  match cmp x y with
  | Some v => v
  | None => 0
  end.

Fixpoint sort_insert {A} (cmp : A -> A -> option Z) (x : A) (l : list A)
  : list A :=
  match l with
  | [] => [x]
  | y :: rest =>
      if 0 <? sort_compare cmp x y then y :: sort_insert cmp x rest
      else x :: l
  end.

Fixpoint Array_sort {A} (cmp : A -> A -> option Z) (l : list A) : list A :=
  match l with
  | [] => []
  | x :: rest => sort_insert cmp x (Array_sort cmp rest)
  end.

(** [getAlbums] and [getAlbum]. *)
Definition getAlbums (P : Platform) (st : Store) : list Album :=
  let albums := load_albums P st in
  let order := getAlbumOrder st in
  match order with
  | _ :: _ => Array_sort (by_order P order) albums
  | [] => Array_sort (by_date_desc P) albums
  end.

Definition getAlbum (P : Platform) (st : Store) (s : string) : option Album :=
  find (fun a => (slug a =? s)%string) (getAlbums P st).

(** [createSlug]. *)
Definition createSlug (P : Platform) (name : string) : string :=
  slugify P name.

(** [getCdnUrl]. *)
Definition getCdnUrl (P : Platform) (filePath : string) : string :=
  if use_cdn P && negb (cdn_domain P =? "")%string
  then "https://" +++ cdn_domain P +++ "/" +++ filePath
  else "https://f003.backblazeb2.com/file/" +++ bucket_name P +++ "/" +++ filePath.

(** ** Errors and responses *)

Inductive exn :=
| TypeError       (* a property of undefined, or a method a value lacks *)
| SlugifyError    (* slugify: string argument expected *)
| MulterError     (* the upload middleware refused the request *)
| SharpError      (* the image processor rejected *)
| B2Error         (* the object store rejected *)
| InvalidURL.     (* new URL threw *)

Inductive result (A : Type) :=
| Done (a : A)
| Throws (e : exn).
Arguments Done {A} a.
Arguments Throws {A} e.

(** What a handler sends: [res.json({ success: true, message })],
    [res.status(s).json({ error })] sent by the handler itself, or status
    500 with the message of a caught exception. *)
Inductive Response :=
| Success (message : string)
| Refused (status : Z) (error : string)
| Failed (e : exn).

Definition status_of (r : Response) : Z :=
  match r with
  | Success _ => 200
  | Refused s _ => s
  | Failed _ => 500
  end.

(** ** generatePostMarkdown *)

(** The object handed to the post writer. A layout number is [None] when
    the property is undefined or [NaN], which [||] replaces alike. *)
Record PostData := {
  p_title : option jsval;
  p_description : option jsval;
  p_developer : option jsval;
  p_date : option jsval;
  p_tags : option (list string);
  p_slug : string;
  p_cardImage : option Z;
  p_cardOffset : option Z;
  p_cardOffsetX : option Z;
  p_cardZoom : option Z;
  p_bannerImage : option Z;
  p_bannerOffset : option Z;
  p_bannerOffsetX : option Z;
  p_bannerZoom : option Z
}.

Definition quoted (s : string) : string :=
  String DQ (s +++ String DQ "").

(** A truthy string is written between double quotes with its own quotes
    escaped, a missing or empty one as the default; an array is truthy and
    has no [replace]. *)
Definition quote_field (x : option jsval) (dflt : string) : result string :=
  match x with
  | Some (VStr s) =>
      if (s =? "")%string then Done dflt else Done (quoted (escape_quotes s))
  | Some (VArr _) => Throws TypeError
  | None => Done dflt
  end.

Definition tags_line (t : option (list string)) : string :=
  match t with
  | Some ((_ :: _) as l) => "tags: [" +++ join ", " l +++ "]"
  | _ => "tags: []"
  end.

(** The lines of the template, with the three quoted strings. *)
Definition post_lines (P : Platform) (d : PostData)
    (title description developer : string) : list string :=
  let date := to_string (or_val (p_date d) (VStr (today P))) in
  ["---";
   "layout: post";
   "date: " +++ date;
   "title: " +++ title;
   "description: " +++ description;
   "developer: " +++ developer;
   "categories: [virtual-photography]";
   tags_line (p_tags d);
   "slug: " +++ p_slug d;
   "card-image: " +++ print_number (or_num (p_cardImage d) 0);
   "card-offset: " +++ print_number (or_num (p_cardOffset d) 50);
   "card-offset-x: " +++ print_number (or_num (p_cardOffsetX d) 50);
   "card-zoom: " +++ print_number (or_num (p_cardZoom d) 100);
   "banner-image: " +++ print_number (or_num (p_bannerImage d) 0);
   "banner-offset: " +++ print_number (or_num (p_bannerOffset d) 50);
   "banner-offset-x: " +++ print_number (or_num (p_bannerOffsetX d) 50);
   "banner-zoom: " +++ print_number (or_num (p_bannerZoom d) 100);
   "---"].

Definition generatePostMarkdown (P : Platform) (d : PostData) : result string :=
  match quote_field (p_title d) (quoted "") with
  | Throws e => Throws e
  | Done title =>
  match quote_field (p_description d) (quoted "Virtual Photography") with
  | Throws e => Throws e
  | Done description =>
  match quote_field (p_developer d) (quoted "") with
  | Throws e => Throws e
  | Done developer =>
      Done (join nl (post_lines P d title description developer))
  end end end.

(** ** Remote calls: state and exceptions *)

Definition M (A : Type) : Type := Remote -> Remote * result A.

Definition ret {A} (a : A) : M A := fun r => (r, Done a).

Definition bind {A B} (m : M A) (k : A -> M B) : M B :=
  fun r =>
    match m r with
    | (r', Done a) => k a r'
    | (r', Throws e) => (r', Throws e)
    end.

Notation "x <- m ;; k" := (bind m (fun x => k))
  (at level 61, m at next level, right associativity).

(** [await] of a promise that may reject. *)
Definition await {A} (e : exn) (x : option A) : M A :=
  fun r => (r, match x with Some a => Done a | None => Throws e end).

Definition uploadToB2 (P : Platform) (fileName : string) (data : Buffer)
    (contentType : string) : M unit :=
  fun r =>
    (r ++ [Upload fileName data contentType],
     if b2_upload P r fileName data contentType then Done tt
     else Throws B2Error).

Definition deleteFromB2 (P : Platform) (fileName : string) : M unit :=
  fun r =>
    (r ++ [Delete fileName],
     if b2_delete P r fileName then Done tt else Throws B2Error).

(** [try { ... } catch (e) { console.error(...) }]. *)
Definition best_effort (m : M unit) : M unit :=
  fun r => (fst (m r), Done tt).

(** The body of the loop over the uploaded files, for the file numbered
    [i]. *)
Definition upload_image (P : Platform) (slug : string) (i : Z) (file : File)
  : M Image :=
  let imgNum := padStart3 (of_Z i) in
  metadata <- await SharpError (sharp_metadata P (buffer file)) ;;
  let aspectRatio :=
    (Math_round P (meta_width metadata / meta_height metadata * 10000)
     / 10000)%float in
  let originalFileName := slug +++ "/img" +++ imgNum +++ ".jpg" in
  originalBuffer <-
    (if (mimetype file =? "image/jpeg")%string then ret (buffer file)
     else await SharpError (sharp_jpeg P (buffer file))) ;;
  _ <- uploadToB2 P originalFileName originalBuffer "image/jpeg" ;;
  thumbBuffer <- await SharpError (sharp_thumbnail P (buffer file)) ;;
  let thumbFileName := slug +++ "/thumb/img" +++ imgNum +++ ".webp" in
  _ <- uploadToB2 P thumbFileName thumbBuffer "image/webp" ;;
  ret {| url := JStr (getCdnUrl P originalFileName);
         thumb := JStr (getCdnUrl P thumbFileName);
         aspectRatio := aspectRatio;
         width := JNum (meta_width metadata);
         height := JNum (meta_height metadata) |}.

(** The loop: files from number [i] on, in submission order. *)
Fixpoint upload_images (P : Platform) (slug : string) (i : Z)
    (files : list File) : M (list Image) :=
  match files with
  | [] => ret []
  | file :: rest =>
      img <- upload_image P slug i file ;;
      imgs <- upload_images P slug (i + 1) rest ;;
      ret (img :: imgs)
  end.

(** The buffer uploaded as the original of a file. *)
Definition original_buffer (P : Platform) (file : File) : Buffer :=
  if (mimetype file =? "image/jpeg")%string then buffer file
  else match sharp_jpeg P (buffer file) with
       | Some b => b
       | None => buffer file
       end.

(** [upload.array('images', 100)] with the file filter and the size limit
    of the multer configuration. *)
Definition allowed_type (f : File) : bool :=
  ((mimetype f =? "image/jpeg") || (mimetype f =? "image/png")
   || (mimetype f =? "image/webp"))%string.

Definition within_size (f : File) : bool :=
  Z.of_nat (List.length (buffer f)) <=? 50 * 1024 * 1024.

Definition multer_accepts (files : list File) : bool :=
  (Z.of_nat (List.length files) <=? 100)
  && forallb (fun f => allowed_type f && within_size f) files.

(** ** Route handlers *)

(** The state a handler runs in, and what it leaves with its response. *)
Record World := { store : Store; remote : Remote }.

Definition with_data (st : Store) (d : Dir (option json)) : Store :=
  {| posts := posts st; data := d |}.

Definition with_posts (st : Store) (p : Dir string) : Store :=
  {| posts := p; data := data st |}.

(** *** POST /upload/create *)

Record CreateRequest := {
  c_title : option jsval;
  c_developer : option jsval;
  c_description : option jsval;
  c_date : option jsval;
  c_files : list File
}.

Definition created_message (title : string) (n : nat) : string :=
  "Album " +++ quoted title +++ " created with "
  +++ of_Z (Z.of_nat n) +++ " images".

(** The handler. *)
Definition createAlbum (P : Platform) (req : CreateRequest) (w : World)
  : World * Response :=
  match c_title req with
  | Some (VStr title) =>
      let slug := createSlug P title in
      let actualDate := or_val (c_date req) (VStr (today P)) in
      let jsonPath := slug +++ ".json" in
      if dir_exists jsonPath (data (store w))
      then (w, Refused 400 "Album with this name already exists")
      else
        match upload_images P slug 0 (c_files req) (remote w) with
        | (r, Throws e) => ({| store := store w; remote := r |}, Failed e)
        | (r, Done images) =>
            let st1 :=
              with_data (store w)
                (dir_write jsonPath
                   (Some (stringify_images (map Some images)))
                   (data (store w))) in
            let postFileName := to_string actualDate +++ "-" +++ slug +++ ".md" in
            match generatePostMarkdown P
                    {| p_title := Some (VStr title);
                       p_developer := c_developer req;
                       p_description := c_description req;
                       p_date := Some actualDate;
                       p_tags := None;
                       p_slug := slug;
                       p_cardImage := Some 0;
                       p_cardOffset := Some 50;
                       p_cardOffsetX := Some 50;
                       p_cardZoom := Some 100;
                       p_bannerImage := Some 0;
                       p_bannerOffset := Some 50;
                       p_bannerOffsetX := Some 50;
                       p_bannerZoom := Some 100 |} with
            | Throws e => ({| store := st1; remote := r |}, Failed e)
            | Done postContent =>
                ({| store :=
                      with_posts st1
                        (dir_write postFileName postContent (posts st1));
                    remote := r |},
                 Success (created_message title (List.length images)))
            end
        end
  | _ => (w, Failed SlugifyError)
  end.

(** The route: the upload middleware runs before the handler, and a
    request it refuses never reaches it. *)
Definition post_upload_create (P : Platform) (req : CreateRequest) (w : World)
  : World * Response :=
  if multer_accepts (c_files req) then createAlbum P req w
  else (w, Failed MulterError).

(** *** POST /upload/update/:slug *)

Record UpdateRequest := {
  u_title : option jsval;
  u_description : option jsval;
  u_developer : option jsval;
  u_date : option jsval;
  u_tags : option jsval;
  u_cardImage : option jsval;
  u_cardOffset : option jsval;
  u_cardOffsetX : option jsval;
  u_cardZoom : option jsval;
  u_bannerImage : option jsval;
  u_bannerOffset : option jsval;
  u_bannerOffsetX : option jsval;
  u_bannerZoom : option jsval
}.

(** [a !== b]: two arrays are never the same object here. *)
Definition strict_neq (a b : jsval) : bool :=
  match a, b with
  | VStr x, VStr y => negb (x =? y)%string
  | _, _ => true
  end.

Definition parsed_tags (album : Album) (t : option jsval) : list string :=
  match t with
  | None => tags album
  | Some (VStr s) =>
      filter (fun x => negb (x =? "")%string) (map trim (split "," s))
  | Some (VArr l) => l
  end.

(** [x !== undefined ? parseInt(x) : old]. *)
Definition int_field (x : option jsval) (old : Z) : option Z :=
  match x with
  | Some v => parseInt (to_string v)
  | None => Some old
  end.

Definition defined_or (x : option jsval) (old : jsval) : jsval :=
  match x with
  | Some v => v
  | None => old
  end.

(** [date && date !== album.date]. *)
Definition date_changed (album : Album) (req : UpdateRequest) : bool :=
  match u_date req with
  | Some d => truthy d && strict_neq d (date album)
  | None => false
  end.

(** The file the new content is written to. *)
Definition new_post_path (album : Album) (req : UpdateRequest) : string :=
  if date_changed album req
  then to_string (or_val (u_date req) (date album)) +++ "-" +++ slug album +++ ".md"
  else postFile album.

(** The object handed to [generatePostMarkdown]. *)
Definition merged_fields (album : Album) (req : UpdateRequest) : PostData :=
  {| p_title := Some (or_val (u_title req) (title album));
     p_description := Some (defined_or (u_description req) (description album));
     p_developer := Some (defined_or (u_developer req) (developer album));
     p_date := Some (or_val (u_date req) (date album));
     p_tags := Some (parsed_tags album (u_tags req));
     p_slug := slug album;
     p_cardImage := int_field (u_cardImage req) (cardImage album);
     p_cardOffset := int_field (u_cardOffset req) (cardOffset album);
     p_cardOffsetX := int_field (u_cardOffsetX req) (cardOffsetX album);
     p_cardZoom := int_field (u_cardZoom req) (cardZoom album);
     p_bannerImage := int_field (u_bannerImage req) (bannerImage album);
     p_bannerOffset := int_field (u_bannerOffset req) (bannerOffset album);
     p_bannerOffsetX := int_field (u_bannerOffsetX req) (bannerOffsetX album);
     p_bannerZoom := int_field (u_bannerZoom req) (bannerZoom album) |}.

Definition updateAlbum (P : Platform) (s : string) (req : UpdateRequest)
    (w : World) : World * Response :=
  match getAlbum P (store w) s with
  | None => (w, Refused 404 "Album not found")
  | Some album =>
      let oldPostPath := postFile album in
      let newPostPath := new_post_path album req in
      let posts1 :=
        if date_changed album req
        then dir_rename oldPostPath newPostPath (posts (store w))
        else posts (store w) in
      match generatePostMarkdown P (merged_fields album req) with
      | Throws e =>
          ({| store := with_posts (store w) posts1; remote := remote w |},
           Failed e)
      | Done postContent =>
          ({| store :=
                with_posts (store w) (dir_write newPostPath postContent posts1);
              remote := remote w |},
           Success "Album updated")
      end
  end.

(** *** POST /upload/delete-image/:slug/:index *)

(** [l[i]]: [undefined] outside the list. *)
Definition at_index {A} (l : list A) (i : Z) : option A :=
  if i <? 0 then None else nth_error l (Z.to_nat i).

(** [l.filter((_, i) => i !== index)]. *)
Fixpoint remove_at_from {A} (i index : Z) (l : list A) : list A :=
  match l with
  | [] => []
  | x :: rest =>
      if i =? index then remove_at_from (i + 1) index rest
      else x :: remove_at_from (i + 1) index rest
  end.

Definition remove_at {A} (index : Z) (l : list A) : list A :=
  remove_at_from 0 index l.

(** [l.slice(-n)]: the last [n] elements. *)
Definition last_n {A} (n : nat) (l : list A) : list A :=
  skipn (List.length l - n) l.

Definition original_key (urlPath : string) : string :=
  join "/" (last_n 2 (split "/" urlPath)).

Definition thumb_key (thumbPath : string) : string :=
  join "/" (last_n 3 (split "/" thumbPath)).

(** [new URL(v).pathname]. *)
Definition pathname (P : Platform) (v : json) : result string :=
  match URL_pathname P (json_to_string P v) with
  | Some p => Done p
  | None => Throws InvalidURL
  end.

Definition deleteImage (P : Platform) (s index : string) (w : World)
  : World * Response :=
  match getAlbum P (store w) s with
  | None => (w, Refused 404 "Album not found")
  | Some album =>
      match parseInt index with
      | None => (w, Failed TypeError)
      | Some i =>
          if (i <? 0) || (Z.of_nat (List.length (images album)) <=? i)
          then (w, Refused 400 "Invalid image index")
          else
            match at_index (images album) i with
            | None => (w, Failed TypeError)
            | Some image =>
                match pathname P (url image) with
                | Throws e => (w, Failed e)
                | Done urlPath =>
                match pathname P (thumb image) with
                | Throws e => (w, Failed e)
                | Done thumbPath =>
                    let originalFile := original_key urlPath in
                    let thumbFile := thumb_key thumbPath in
                    let r :=
                      fst (best_effort
                             (_ <- deleteFromB2 P originalFile ;;
                              deleteFromB2 P thumbFile) (remote w)) in
                    let imgs := remove_at i (images album) in
                    ({| store :=
                          with_data (store w)
                            (dir_write (jsonFile album)
                               (Some (stringify_images (map Some imgs)))
                               (data (store w)));
                        remote := r |},
                     Success "Image deleted")
                end end
            end
      end
  end.

(** *** POST /upload/delete/:slug *)

(** A value or an exception, inside the remote computation. *)
Definition lift {A} (x : result A) : M A := fun r => (r, x).

(** The loop over the images: each turn is its own [try] block, which
    holds the parsing of the URLs as well as the two deletions. *)
Fixpoint delete_remote_images (P : Platform) (imgs : list Image) : M unit :=
  match imgs with
  | [] => ret tt
  | image :: rest =>
      _ <- best_effort
             (urlPath <- lift (pathname P (url image)) ;;
              thumbPath <- lift (pathname P (thumb image)) ;;
              _ <- deleteFromB2 P (original_key urlPath) ;;
              deleteFromB2 P (thumb_key thumbPath)) ;;
      delete_remote_images P rest
  end.

Definition deleteAlbum (P : Platform) (s : string) (w : World)
  : World * Response :=
  match getAlbum P (store w) s with
  | None => (w, Refused 404 "Album not found")
  | Some album =>
      let r := fst (delete_remote_images P (images album) (remote w)) in
      ({| store :=
            {| posts := dir_remove (postFile album) (posts (store w));
               data := dir_remove (jsonFile album) (data (store w)) |};
          remote := r |},
       Success "Album deleted")
  end.

(** *** POST /upload/reorder/:slug *)

(** [order] is [None] when the body holds no array under that name. *)
Definition reorderImages (P : Platform) (s : string) (order : option (list Z))
    (w : World) : World * Response :=
  match getAlbum P (store w) s with
  | None => (w, Refused 404 "Album not found")
  | Some album =>
      match order with
      | None => (w, Refused 400 "Invalid order array")
      | Some order =>
          let newImages := map (at_index (images album)) order in
          ({| store :=
                with_data (store w)
                  (dir_write (jsonFile album)
                     (Some (stringify_images newImages))
                     (data (store w)));
              remote := remote w |},
           Success "Images reordered")
      end
  end.

(** *** POST /upload/add-images/:slug *)

(** The success body carries [totalImages] besides the message. *)
Inductive AddResponse :=
| Added (message : string) (totalImages : nat)
| NotAdded (r : Response).

Definition added_message (n : nat) : string :=
  "Added " +++ of_Z (Z.of_nat n) +++ " images".

(** The new files are numbered from the current number of images on. *)
Definition addImages (P : Platform) (s : string) (files : list File)
    (w : World) : World * AddResponse :=
  match getAlbum P (store w) s with
  | None => (w, NotAdded (Refused 404 "Album not found"))
  | Some album =>
      let nextNum := Z.of_nat (List.length (images album)) in
      match upload_images P (slug album) nextNum files (remote w) with
      | (r, Throws e) =>
          ({| store := store w; remote := r |}, NotAdded (Failed e))
      | (r, Done added) =>
          let imgs := images album ++ added in
          ({| store :=
                with_data (store w)
                  (dir_write (jsonFile album)
                     (Some (stringify_images (map Some imgs)))
                     (data (store w)));
              remote := r |},
           Added (added_message (List.length files)) (List.length imgs))
      end
  end.

(** *** Album order: saving, and the order page *)

(** [saveAlbumOrder]. *)
Definition saveAlbumOrder (order : list json) (st : Store) : Store :=
  with_data st (dir_write ALBUM_ORDER (Some (JArr order)) (data st)).

(** POST /upload/save-order: [order] is the value of that name in the JSON
    body, [None] when the body has none. *)
Definition post_save_order (order : option json) (w : World)
  : World * Response :=
  match order with
  | Some (JArr l) =>
      ({| store := saveAlbumOrder l (store w); remote := remote w |},
       Success "Album order saved")
  | _ => (w, Refused 400 "Invalid order array")
  end.

(** [a[i] = x] on an array with holes: the array grows as needed. *)
Fixpoint set_at {A} (i : nat) (x : A) (a : list (option A)) : list (option A) :=
  match i, a with
  | O, [] => [Some x]
  | O, _ :: rest => Some x :: rest
  | S i', [] => None :: set_at i' x []
  | S i', y :: rest => y :: set_at i' x rest
  end.

(** [a.filter(x => x)] on an array of objects with holes. *)
Fixpoint compact {A} (a : list (option A)) : list A :=
  match a with
  | [] => []
  | Some x :: rest => x :: compact rest
  | None :: rest => compact rest
  end.

(** The [forEach] of the order page: an album of the order goes to the
    position of its slug, the others are pushed on a second array. *)
Fixpoint place_albums (order : list json) (albums : list Album)
    (ordered : list (option Album)) (unordered : list Album)
  : list (option Album) * list Album :=
  match albums with
  | [] => (ordered, unordered)
  | album :: rest =>
      let orderIndex := indexOf order (slug album) in
      if 0 <=? orderIndex
      then place_albums order rest
             (set_at (Z.to_nat orderIndex) album ordered) unordered
      else place_albums order rest ordered (unordered ++ [album])
  end.

(** GET /upload/order: the albums handed to the view. *)
Definition order_page (P : Platform) (st : Store) : list Album :=
  let albums := getAlbums P st in
  let order := getAlbumOrder st in
  let '(orderedAlbums, unorderedAlbums) := place_albums order albums [] [] in
  compact orderedAlbums ++ unorderedAlbums.

(** ** Authorization of the object store *)

Module B2Auth.

(** What [b2.authorize()] resolves to. *)
Inductive AuthData := Authorization (token : string).

(** The three module variables. *)
Record AuthState := {
  b2AuthData : option AuthData;
  b2BucketId : option string;
  b2AuthExpiry : Z
}.

Definition initial : AuthState :=
  {| b2AuthData := None; b2BucketId := None; b2AuthExpiry := 0 |}.

(** What the service answers during one call: [None] when the promise
    rejects; the buckets are pairs of name and id. *)
Record Service := {
  authorize : option AuthData;
  listBuckets : option (list (string * string))
}.

Inductive Outcome :=
| Authorized (d : AuthData)
| AuthorizeRejected
| BucketIdRequired.

Definition HOURS_23 : Z := 23 * 60 * 60 * 1000.

(** [authorizeB2(forceRefresh)] at time [now]; [bucket_id] is the value of
    the configuration, empty when there is none. *)
Definition authorizeB2 (bucket_id bucket_name : string) (svc : Service)
    (now : Z) (forceRefresh : bool) (st : AuthState) : AuthState * Outcome :=
  let refresh :=
    match authorize svc with
    | None => (st, AuthorizeRejected)
    | Some d =>
        let authorized id :=
          ({| b2AuthData := Some d;
              b2BucketId := id;
              b2AuthExpiry := now + HOURS_23 |}) in
        if negb (bucket_id =? "")%string
        then (authorized (Some bucket_id), Authorized d)
        else
          match listBuckets svc with
          | None => (authorized (b2BucketId st), BucketIdRequired)
          | Some buckets =>
              match find (fun b => (fst b =? bucket_name)%string) buckets with
              | Some b => (authorized (Some (snd b)), Authorized d)
              | None => (authorized (b2BucketId st), BucketIdRequired)
              end
          end
    end in
  match b2AuthData st with
  | None => refresh
  | Some d =>
      if (b2AuthExpiry st <? now) || forceRefresh then refresh
      else (st, Authorized d)
  end.

End B2Auth.

(** ** A concrete platform

    An instance of [Platform] on which the handlers can be run: dates in
    the form YYYY-MM-DD, short decimal numerals, https URLs, and an object
    store that accepts every call. *)

Module Demo.

Definition lower (c : ascii) : ascii :=
  let n := code c in
  if ((65 <=? n) && (n <=? 90))%nat then ascii_of_nat (n + 32) else c.

(** Lower-case letters and digits are kept, a run of spaces becomes one
    dash, everything else is removed. *)
Fixpoint slug_chars (s : string) : string :=
  match s with
  | EmptyString => ""
  | String c s' =>
      let c' := lower c in
      if is_digit c' || ((97 <=? code c') && (code c' <=? 122))%nat
      then String c' (slug_chars s')
      else if Ascii.eqb c " " then
        match slug_chars s' with
        | String "-" _ as r => r
        | r => String "-" r
        end
      else slug_chars s'
  end.

Definition slugify (s : string) : string := slug_chars (trim s).

Fixpoint all_digits (s : string) : bool :=
  match s with
  | EmptyString => true
  | String c s' => is_digit c && all_digits s'
  end.

Definition number (s : string) : option Z :=
  if all_digits s && negb (s =? "")%string then parseInt s else None.

(** Days from 1970-01-01 to the given day of the proleptic Gregorian
    calendar. *)
Definition days_from_civil (y m d : Z) : Z :=
  let y := if m <=? 2 then y - 1 else y in
  let era := y / 400 in
  let yoe := y - era * 400 in
  let doy := (153 * (if 2 <? m then m - 3 else m + 9) + 2) / 5 + d - 1 in
  let doe := yoe * 365 + yoe / 4 - yoe / 100 + doy in
  era * 146097 + doe - 719468.

Definition Date_parse (s : string) : option Z :=
  match split "-" s with
  | [ys; ms; ds] =>
      match number ys, number ms, number ds with
      | Some y, Some m, Some d =>
          if (String.length ys =? 4)%nat && (String.length ms =? 2)%nat
             && (String.length ds =? 2)%nat
             && (1 <=? m) && (m <=? 12) && (1 <=? d) && (d <=? 31)
          then Some (days_from_civil y m d * 86400000)
          else None
      | _, _, _ => None
      end
  | _ => None
  end.

Definition float_of_Z (z : Z) : float :=
  PrimFloat.of_uint63 (Uint63.of_Z z).

(** Numerals made of digits with at most one point. *)
Definition parseFloat_string (s : string) : float :=
  match split "." (trim s) with
  | [i] =>
      match number i with
      | Some n => float_of_Z n
      | None => PrimFloat.nan
      end
  | [i; f] =>
      match number i, number f with
      | Some n, Some m =>
          let k := 10 ^ Z.of_nat (String.length f) in
          (float_of_Z (n * k + m) / float_of_Z k)%float
      | _, _ => PrimFloat.nan
      end
  | _ => PrimFloat.nan
  end.

(** Rounding to the nearest integer, halves upwards, for finite numbers
    that are not negative. *)
Definition Math_round (x : float) : float :=
  match Prim2SF x with
  | S754_finite false m e =>
      let twice :=
        if 0 <=? e then 2 * Zpos m * 2 ^ e else (2 * Zpos m) / 2 ^ (- e) in
      float_of_Z ((twice + 1) / 2)
  | _ => x
  end.

(** Numbers with an integer value print as [print_number] prints them;
    the examples print no other number. *)
Definition Number_toString (x : float) : string :=
  match Prim2SF x with
  | S754_zero _ => "0"
  | S754_finite sg m e =>
      let value :=
        if 0 <=? e then Some (Zpos m * 2 ^ e)
        else if Zpos m mod 2 ^ (- e) =? 0 then Some (Zpos m / 2 ^ (- e))
        else None in
      match value with
      | Some n => print_number (if sg then - n else n)
      | None => "NaN"
      end
  | S754_infinity sg => if sg then "-Infinity" else "Infinity"
  | S754_nan => "NaN"
  end.

(** The path of an https URL: what follows the host. *)
Fixpoint from_slash (s : string) : string :=
  match s with
  | EmptyString => "/"
  | String c s' => if Ascii.eqb c "/" then s else from_slash s'
  end.

Definition URL_pathname (s : string) : option string :=
  if String.prefix "https://" s && (8 <? String.length s)%nat
  then Some (from_slash (drop 8 s))
  else None.

(** Every buffer that is not empty decodes as a 1920 by 1080 image and
    encodes to itself. *)
Definition sharp_metadata (b : Buffer) : option Metadata :=
  match b with
  | [] => None
  | _ => Some {| meta_width := 1920%float; meta_height := 1080%float |}
  end.

Definition sharp_encode (b : Buffer) : option Buffer :=
  match b with
  | [] => None
  | _ => Some b
  end.

Definition platform : Platform :=
  Build_Platform true "cdn.example.com" "photos" "2024-05-01"
    slugify Date_parse Number_toString parseFloat_string Math_round
    URL_pathname sharp_metadata sharp_encode sharp_encode
    (fun _ _ _ _ => true) (fun _ _ => true).

(** The same platform with an object store that rejects every upload once
    [n] calls have been made. *)
Definition failing_after (n : nat) : Platform :=
  Build_Platform true "cdn.example.com" "photos" "2024-05-01"
    slugify Date_parse Number_toString parseFloat_string Math_round
    URL_pathname sharp_metadata sharp_encode sharp_encode
    (fun r _ _ _ => (List.length r <? n)%nat) (fun _ _ => true).

End Demo.

(** ** Vocabulary of the listing order *)

(** The album's slug is an entry of the manual order. *)
Definition in_order (order : list json) (a : Album) : bool :=
  0 <=? indexOf order (slug a).


(** The first entry of the manual order that is the string [s] stands at
    position [i]. *)
Definition first_position (order : list json) (s : string) (i : nat) : Prop :=
  nth_error order i = Some (JStr s)
  /\ forall k, (k < i)%nat -> nth_error order k <> Some (JStr s).



(** Albums the order comparator is consistent on: those of the order, and
    those with a valid date. *)
Definition orderable (P : Platform) (order : list json) (a : Album) : Prop :=
  in_order order a = true
  \/ exists t, Date_parse P (to_string (date a)) = Some t.

(** ** Vocabulary of post files *)

(** [s.includes(sub)]. *)
Fixpoint includes (sub s : string) : bool :=
  String.prefix sub s
  || match s with
     | EmptyString => false
     | String _ s' => includes sub s'
     end.

(** A backslash followed by a double quote, as the post writer escapes a
    quote. *)
Definition escaped_quote : string := String BSL (String DQ "").

(** ** Vocabulary of remote names *)

(** The character occurs in the string. *)
Fixpoint has_char (c : ascii) (s : string) : bool :=
  match s with
  | EmptyString => false
  | String d s' => Ascii.eqb d c || has_char c s'
  end.

Definition is_delete (c : B2Call) : bool :=
  match c with
  | Delete _ => true
  | Upload _ _ _ => false
  end.

(** ** Vocabulary of image numbers *)

(** The decimal digit of a number below ten. *)
Definition digit_char (d : nat) : ascii := ascii_of_nat (48 + d).

(** A number below 1000 written with three digits: hundreds, tens,
    units. *)
Definition three_digits (i : nat) : string :=
  String (digit_char (i / 100))
    (String (digit_char ((i / 10) mod 10))
       (String (digit_char (i mod 10)) "")).

(** ** Vocabulary of written posts *)

(** Every character of the string satisfies the test. *)
Fixpoint all_chars (p : ascii -> bool) (s : string) : bool :=
  match s with
  | EmptyString => true
  | String c s' => p c && all_chars p s'
  end.

(** A character of a decimal numeral: a digit or the minus sign. *)
Definition numeral_char (c : ascii) : bool :=
  is_digit c || Ascii.eqb c "-".

(** The string stands between brackets, and is read as a list. *)
Definition bracketed (s : string) : bool :=
  startsWith "[" s && endsWith "]" s.

(** A string field that the post writer can write on one line. *)
Definition one_line (x : option jsval) : bool :=
  match x with
  | Some v => negb (has_line_terminator (to_string v))
  | None => true
  end.

(** A character of a front-matter key. *)
Definition key_char (c : ascii) : bool :=
  is_word c || Ascii.eqb c "-".

(** A line that cannot be taken for the closing dashes or for more than one
    line: it is not empty, does not begin with a dash and holds no line
    terminator. *)
Definition plain_line (l : string) : bool :=
  match l with
  | EmptyString => false
  | String c _ => negb (Ascii.eqb c "-") && negb (has_line_terminator l)
  end.

(** No text that the post writer copies into the file holds a line
    terminator: the three quoted fields, the date, the tags, the slug. *)
Definition single_line_fields (P : Platform) (d : PostData) : bool :=
  one_line (p_title d) && one_line (p_description d)
  && one_line (p_developer d)
  && negb (has_line_terminator
             (to_string (or_val (p_date d) (VStr (today P)))))
  && negb (has_line_terminator (tags_line (p_tags d)))
  && negb (has_line_terminator (p_slug d)).

(** An integer of magnitude below 2^53: it is a double, prints in plain
    decimal and is read back as itself. *)
Definition safe_integer (z : Z) : bool := Z.abs z <? 2 ^ 53.

Definition safe_number (x : option Z) : bool :=
  match x with
  | Some z => safe_integer z
  | None => true
  end.

(** The eight layout numbers of the post data are safe integers, where
    they are given. *)
Definition safe_numbers (d : PostData) : bool :=
  safe_number (p_cardImage d) && safe_number (p_cardOffset d)
  && safe_number (p_cardOffsetX d) && safe_number (p_cardZoom d)
  && safe_number (p_bannerImage d) && safe_number (p_bannerOffset d)
  && safe_number (p_bannerOffsetX d) && safe_number (p_bannerZoom d).

(** ** Sample data *)

Module Sample.

Definition jpeg1 : File := {| buffer := [Byte.x01]; mimetype := "image/jpeg" |}.
Definition png1 : File := {| buffer := [Byte.x02]; mimetype := "image/png" |}.
Definition broken : File := {| buffer := []; mimetype := "image/png" |}.

Definition empty_world : World :=
  {| store := {| posts := []; data := [] |}; remote := [] |}.

Definition create_request (title : string) (files : list File) : CreateRequest :=
  {| c_title := Some (VStr title);
     c_developer := None;
     c_description := Some (VStr "Screens");
     c_date := Some (VStr "2024-01-02");
     c_files := files |}.



(** A request that provides the description only. *)
Definition only_description (d : string) : UpdateRequest :=
  {| u_title := None; u_description := Some (VStr d); u_developer := None;
     u_date := None; u_tags := None;
     u_cardImage := None; u_cardOffset := None; u_cardOffsetX := None;
     u_cardZoom := None; u_bannerImage := None; u_bannerOffset := None;
     u_bannerOffsetX := None; u_bannerZoom := None |}.

(** Two albums, [a] dated 2020-01-01 and [b] dated 2019-01-01, with and
    without the manual order b, a. *)
Definition post_of (title date : string) : string :=
  join nl ["---"; "title: " +++ title; "date: " +++ date; "---"].

Definition two_albums : Store :=
  {| posts := [("2020-01-01-a.md", post_of "A" "2020-01-01");
               ("2019-01-01-b.md", post_of "B" "2019-01-01")];
     data := [("b.json", Some (JArr [])); ("a.json", Some (JArr []))] |}.

Definition two_albums_ordered : Store :=
  with_data two_albums
    (dir_write ALBUM_ORDER (Some (JArr [JStr "b"; JStr "a"]))
       (data two_albums)).






(** An album whose post has a Markdown body after the front matter. *)
Definition with_body : World :=
  {| store :=
       {| posts := [("2024-01-02-a.md",
                     post_of "A" "2024-01-02" +++ nl +++ nl +++ "Hello body")];
          data := [("a.json", Some (JArr []))] |};
     remote := [] |}.

(** The world after creating, with no file, an album whose title holds a
    pair of double quotes. *)
Definition quoted_title : World :=
  fst (createAlbum Demo.platform
         (create_request ("Say " +++ quoted "hi") []) empty_world).

(** An album whose descriptor has one entry without URLs. *)
Definition no_url : World :=
  {| store :=
       {| posts := [("2024-01-02-a.md", post_of "A" "2024-01-02")];
          data := [("a.json", Some (JArr [JObj [("aspectRatio", JNum 1.5%float)]]))] |};
     remote := [] |}.

(** An album whose front matter stores 0 in the six offset and zoom
    fields. *)
Definition zeros : Store :=
  {| posts :=
       [("2024-03-01-zero.md",
         join nl ["---"; "title: Zero"; "date: 2024-03-01";
                  "card-offset: 0"; "card-offset-x: 0"; "card-zoom: 0";
                  "banner-offset: 0"; "banner-offset-x: 0"; "banner-zoom: 0";
                  "---"])];
     data := [("zero.json", Some (JArr []))] |}.

(** The world after creating an album of three images. *)
Definition three_images : World :=
  fst (createAlbum Demo.platform
         (create_request "Night City" [jpeg1; png1; jpeg1]) empty_world).

(** The world after creating an album of two images. *)
Definition two_images : World :=
  fst (createAlbum Demo.platform
         (create_request "Night City" [jpeg1; png1]) empty_world).

(** An update that names the card image and the card zoom only. *)
Definition card_request (image zoom : string) : UpdateRequest :=
  {| u_title := None; u_description := None; u_developer := None;
     u_date := None; u_tags := None;
     u_cardImage := Some (VStr image); u_cardOffset := None;
     u_cardOffsetX := None; u_cardZoom := Some (VStr zoom);
     u_bannerImage := None; u_bannerOffset := None;
     u_bannerOffsetX := None; u_bannerZoom := None |}.

End Sample.

(** * Properties *)

(** ** String primitives on examples *)

Example trim_ex : trim "  a b  " = "a b". Proof. reflexivity. Qed.
Example split_ex : split "," "a, b,," = ["a"; " b"; ""; ""]. Proof. reflexivity. Qed.
Example split_empty : split "," "" = [""]. Proof. reflexivity. Qed.
Example slice_ex : slice_1_m1 "[ab]" = "ab" /\ slice_1_m1 "x" = "". Proof. split; reflexivity. Qed.
Example parseInt_ex :
  parseInt " 42px" = Some 42 /\ parseInt "-0x1f" = Some (-31)
  /\ parseInt "abc" = None /\ parseInt "0" = Some 0.
Proof. repeat split; reflexivity. Qed.
Example pad_ex : padStart3 (of_Z 7) = "007" /\ padStart3 (of_Z 0) = "000" /\ padStart3 (of_Z 1234) = "1234".
Proof. repeat split; reflexivity. Qed.
Example lines_ex :
  split_lines ("a" +++ crnl +++ "b" +++ nl +++ "c" +++ String CR "")
  = ["a"; "b"; "c" +++ String CR ""].
Proof. reflexivity. Qed.
Example replace_ex : replace_first ".json" "" "a.json.json" = "a.json". Proof. reflexivity. Qed.
Example escape_ex :
  escape_quotes ("Say " +++ quoted "hi")
  = "Say " +++ escaped_quote +++ "hi" +++ escaped_quote.
Proof. reflexivity. Qed.
Example front_matter_ex :
  option_map parse_front_matter
    (front_matter_block
       (join nl ["---"; "title: " +++ quoted "A b"; "tags: [x, y]";
                 "card-zoom: 120"; "not a field"; "---"; "body"]))
  = Some [("card-zoom", VStr "120"); ("tags", VArr ["x"; "y"]);
          ("title", VStr "A b")].
Proof. reflexivity. Qed.

(** ** Files and strings *)

Lemma dir_read_write_same {A} (name : string) (c : A) (d : Dir A) :
  dir_read name (dir_write name c d) = Some c.
Proof.
  induction d as [|[n c'] d IH]; simpl.
  - now rewrite String.eqb_refl.
  - destruct (n =? name)%string eqn:E; simpl; rewrite E; auto.
Qed.

Lemma dir_read_write_other {A} (name other : string) (c : A) (d : Dir A) :
  other <> name -> dir_read other (dir_write name c d) = dir_read other d.
Proof.
  intros Hne. induction d as [|[n c'] d IH]; simpl.
  - destruct (name =? other)%string eqn:E; auto.
    apply String.eqb_eq in E. congruence.
  - destruct (n =? name)%string eqn:E; simpl.
    + apply String.eqb_eq in E. subst n.
      destruct (name =? other)%string eqn:E'; auto.
      apply String.eqb_eq in E'. congruence.
    + now rewrite IH.
Qed.

Lemma readdir_write {A} (name : string) (c : A) (d : Dir A) :
  readdir (dir_write name c d)
  = if dir_exists name d then readdir d else readdir d ++ [name].
Proof.
  unfold dir_exists. induction d as [|[n c'] d IH]; simpl; [reflexivity|].
  destruct (n =? name)%string eqn:E; simpl.
  - reflexivity.
  - rewrite IH. now destruct (dir_read name d).
Qed.




Lemma endsWith_refl (p : string) : endsWith p p = true.
Proof. destruct p; simpl; [reflexivity|]. now rewrite Ascii.eqb_refl, String.eqb_refl. Qed.

Lemma endsWith_append (a p : string) : endsWith p (a +++ p) = true.
Proof.
  induction a as [|c a IH]; simpl.
  - apply endsWith_refl.
  - rewrite IH. apply orb_true_r.
Qed.

(** ** Creating an album *)

Lemma bind_done {A B} (m : M A) (k : A -> M B) r r' b :
  bind m k r = (r', Done b) ->
  exists r1 a, m r = (r1, Done a) /\ k a r1 = (r', Done b).
Proof.
  unfold bind. destruct (m r) as [r1 [a|e]]; intros H.
  - eauto.
  - discriminate.
Qed.

Lemma bind_throws {A B} (m : M A) (k : A -> M B) r r' e :
  bind m k r = (r', Throws e) ->
  m r = (r', Throws e)
  \/ exists r1 a, m r = (r1, Done a) /\ k a r1 = (r', Throws e).
Proof.
  unfold bind. destruct (m r) as [r1 [a|e']]; intros H.
  - right. eauto.
  - left. inversion H; subst. reflexivity.
Qed.

(** Every exception of the image pipeline comes from the image processor
    or from the object store. *)
Lemma upload_image_throws P slug i file r r' e :
  upload_image P slug i file r = (r', Throws e) ->
  e = SharpError \/ e = B2Error.
Proof.
  unfold upload_image, bind, await, ret, uploadToB2.
  cbv beta.
  destruct (sharp_metadata P (buffer file));
    destruct (mimetype file =? "image/jpeg")%string;
    destruct (sharp_jpeg P (buffer file));
    destruct (sharp_thumbnail P (buffer file));
    cbv beta iota;
    repeat match goal with
           | |- context [if ?x then _ else _] => destruct x; cbv beta iota
           end; intros H; inversion H; auto.
Qed.

(** What a file that went through the pipeline yields, and the two calls
    it adds to the object store. *)
Lemma upload_image_done P slug i file r r' img :
  upload_image P slug i file r = (r', Done img) ->
  exists m tb,
    sharp_metadata P (buffer file) = Some m
    /\ sharp_thumbnail P (buffer file) = Some tb
    /\ ((mimetype file =? "image/jpeg")%string = false ->
        sharp_jpeg P (buffer file) <> None)
    /\ url img = JStr (getCdnUrl P (slug +++ "/img" +++ padStart3 (of_Z i) +++ ".jpg"))
    /\ thumb img =
       JStr (getCdnUrl P (slug +++ "/thumb/img" +++ padStart3 (of_Z i) +++ ".webp"))
    /\ width img = JNum (meta_width m)
    /\ height img = JNum (meta_height m)
    /\ r' = r ++ [Upload (slug +++ "/img" +++ padStart3 (of_Z i) +++ ".jpg")
                    (original_buffer P file) "image/jpeg";
                  Upload (slug +++ "/thumb/img" +++ padStart3 (of_Z i) +++ ".webp")
                    tb "image/webp"].
Proof.
  unfold upload_image, bind, await, ret, uploadToB2, original_buffer.
  cbv beta.
  destruct (sharp_metadata P (buffer file)) as [m|]; [|discriminate].
  destruct (mimetype file =? "image/jpeg")%string;
    destruct (sharp_jpeg P (buffer file));
    destruct (sharp_thumbnail P (buffer file)) as [tb|];
    cbv beta iota;
    repeat match goal with
           | |- context [if ?x then _ else _] => destruct x; cbv beta iota
           end; intros H; inversion H; subst; clear H;
    exists m, tb; simpl; rewrite <- ?app_assoc; simpl;
    repeat split; auto; congruence.
Qed.

Lemma upload_image_extends P slug i file r r' res :
  upload_image P slug i file r = (r', res) -> exists ext, r' = r ++ ext.
Proof.
  unfold upload_image, bind, await, ret, uploadToB2.
  cbv beta.
  destruct (sharp_metadata P (buffer file));
    destruct (mimetype file =? "image/jpeg")%string;
    destruct (sharp_jpeg P (buffer file));
    destruct (sharp_thumbnail P (buffer file));
    cbv beta iota;
    repeat match goal with
           | |- context [if ?x then _ else _] => destruct x; cbv beta iota
           end; intros H; inversion H; subst; clear H;
    rewrite <- ?app_assoc; eauto using app_nil_r.
Qed.

Lemma upload_images_extends P slug files :
  forall i r r' res,
    upload_images P slug i files r = (r', res) -> exists ext, r' = r ++ ext.
Proof.
  induction files as [|f files IH]; intros i r r' res H; simpl in H.
  - inversion H. exists []. now rewrite app_nil_r.
  - unfold bind in H.
    destruct (upload_image P slug i f r) as [r1 [img|e]] eqn:E1.
    + apply upload_image_extends in E1 as (ext1 & ->).
      destruct (upload_images P slug (i + 1) files (r ++ ext1))
        as [r2 [imgs|e]] eqn:E2;
        apply IH in E2 as (ext2 & ->);
        inversion H; subst; exists (ext1 ++ ext2); now rewrite app_assoc.
    + apply upload_image_extends in E1 as (ext1 & ->).
      inversion H; subst. eauto.
Qed.

Lemma upload_images_done P slug files :
  forall i r r' imgs,
    upload_images P slug i files r = (r', Done imgs) ->
    List.length imgs = List.length files
    /\ forall k file, nth_error files k = Some file ->
         exists img, nth_error imgs k = Some img
           /\ exists r1 r2,
                upload_image P slug (i + Z.of_nat k) file r1 = (r2, Done img)
                /\ incl r2 r'.
Proof.
  induction files as [|f files IH]; intros i r r' imgs H; simpl in H.
  - inversion H; subst. split; [reflexivity|].
    intros [|k] file Hk; discriminate.
  - apply bind_done in H as (r1 & img & Himg & H).
    apply bind_done in H as (r2 & rest & Hrest & H).
    inversion H; subst; clear H.
    destruct (IH _ _ _ _ Hrest) as [Hlen Hnth].
    split; [simpl; now rewrite Hlen|].
    intros [|k] file Hk; simpl in Hk.
    + inversion Hk; subst. exists img. split; [reflexivity|].
      exists r, r1. rewrite Z.add_0_r. split; [exact Himg|].
      apply upload_images_extends in Hrest as (ext & ->).
      apply incl_appl, incl_refl.
    + destruct (Hnth k file Hk) as (img' & Hn & ra & rb & Hu & Hincl).
      exists img'. split; [exact Hn|]. exists ra, rb.
      replace (i + Z.of_nat (S k)) with (i + 1 + Z.of_nat k) by lia.
      auto.
Qed.

(** The loop throws exactly when some file fails after the files before it
    went through. *)
Lemma upload_images_throws P slug files :
  forall i r r' e,
    upload_images P slug i files r = (r', Throws e) <->
    exists pre file post imgs r1,
      files = pre ++ file :: post
      /\ upload_images P slug i pre r = (r1, Done imgs)
      /\ upload_image P slug (i + Z.of_nat (List.length pre)) file r1
         = (r', Throws e).
Proof.
  induction files as [|f files IH]; intros i r r' e; simpl.
  - split.
    + discriminate.
    + intros (pre & file & post & _ & _ & H & _). destruct pre; discriminate.
  - split.
    + intros H. apply bind_throws in H as [H | (r1 & img & Himg & H)].
      * exists [], f, files, [], r. simpl. rewrite Z.add_0_r. auto.
      * apply bind_throws in H as [H | (r2 & rest & Hrest & H)];
          [|discriminate].
        apply IH in H as (pre & file & post & imgs & r2 & -> & Hpre & Hf).
        exists (f :: pre), file, post, (img :: imgs), r2. simpl.
        split; [reflexivity|]. split.
        -- unfold bind. rewrite Himg, Hpre. reflexivity.
        -- replace (i + Z.pos (Pos.of_succ_nat (List.length pre)))
             with (i + 1 + Z.of_nat (List.length pre)) by lia.
           exact Hf.
    + intros (pre & file & post & imgs & r1 & Hfiles & Hpre & Hf).
      destruct pre as [|f' pre]; simpl in Hfiles; inversion Hfiles; subst.
      * simpl in Hpre. inversion Hpre; subst.
        simpl in Hf. rewrite Z.add_0_r in Hf.
        unfold bind. now rewrite Hf.
      * simpl in Hpre.
        apply bind_done in Hpre as (ra & img & Himg & Hpre).
        apply bind_done in Hpre as (rb & rest & Hrest & Hpre).
        inversion Hpre; subst; clear Hpre.
        unfold bind at 1. rewrite Himg.
        assert (Ht : upload_images P slug (i + 1) (pre ++ file :: post) ra
                     = (r', Throws e)).
        { apply IH. exists pre, file, post, rest, r1.
          repeat split; auto.
          replace (i + 1 + Z.of_nat (List.length pre))
            with (i + Z.of_nat (List.length (f' :: pre)))
            by (simpl List.length; lia).
          exact Hf. }
        unfold bind. now rewrite Ht.
Qed.

(** [C7] A create request whose title derives a slug that already has a JSON
    descriptor is refused with status 400 and the message that an album
    with this name already exists; the world is the one the handler started in: no
    call was made to the object store, and every file of [_posts] and of
    the data directory, the existing album's descriptor and post among them,
    is untouched. *)
Theorem createAlbum_conflict (P : Platform) (req : CreateRequest) (w : World)
    (title : string) :
  c_title req = Some (VStr title) ->
  dir_exists (createSlug P title +++ ".json") (data (store w)) = true ->
  createAlbum P req w = (w, Refused 400 "Album with this name already exists").
Proof.
  intros Htitle Hexists. unfold createAlbum. now rewrite Htitle, Hexists.
Qed.

(** What the handler does once the upload loop has thrown. *)
Lemma createAlbum_pipeline_throws (P : Platform) (req : CreateRequest)
    (w : World) (title : string) (r : Remote) (e : exn) :
  c_title req = Some (VStr title) ->
  dir_exists (createSlug P title +++ ".json") (data (store w)) = false ->
  upload_images P (createSlug P title) 0 (c_files req) (remote w)
  = (r, Throws e) ->
  createAlbum P req w = ({| store := store w; remote := r |}, Failed e).
Proof.
  intros Htitle Hfresh Hup. unfold createAlbum.
  now rewrite Htitle, Hfresh, Hup.
Qed.

(** The handler changes the store only on the branch where the loop
    returned. *)
Lemma createAlbum_writes_after_uploads (P : Platform) (req : CreateRequest)
    (w : World) :
  store (fst (createAlbum P req w)) <> store w ->
  exists title imgs,
    c_title req = Some (VStr title)
    /\ upload_images P (createSlug P title) 0 (c_files req) (remote w)
       = (remote (fst (createAlbum P req w)), Done imgs).
Proof.
  unfold createAlbum.
  destruct (c_title req) as [[title|l]|]; simpl; try congruence.
  destruct (dir_exists _ _); simpl; try congruence.
  destruct (upload_images P (createSlug P title) 0 (c_files req) (remote w))
    as [r [imgs|e]] eqn:Hup; simpl; try congruence.
  intros _. exists title, imgs. split; [reflexivity|].
  destruct (generatePostMarkdown P _); simpl; exact Hup.
Qed.

(** [C1] Creation persists nothing when the image pipeline fails. For a
    request that reaches the upload loop (a string title, no descriptor yet
    for its slug): if decoding, re-encoding or uploading some file throws,
    which happens exactly when a file fails after the files before it went
    through, the handler answers with status 500 and the caught error,
    which comes from the image processor or the object store, and the store
    is the one it started with, so neither the JSON descriptor nor the
    post of the new slug exists. And for every request, a store that
    differs from the initial one means that the loop over all the files
    returned without an exception: the two files are written after it. *)
Theorem createAlbum_atomic (P : Platform) (req : CreateRequest) (w : World) :
  (forall title r e,
      c_title req = Some (VStr title) ->
      dir_exists (createSlug P title +++ ".json") (data (store w)) = false ->
      (exists pre file post imgs r1,
          c_files req = pre ++ file :: post
          /\ upload_images P (createSlug P title) 0 pre (remote w)
             = (r1, Done imgs)
          /\ upload_image P (createSlug P title)
               (Z.of_nat (List.length pre)) file r1 = (r, Throws e)) ->
      createAlbum P req w = ({| store := store w; remote := r |}, Failed e)
      /\ status_of (snd (createAlbum P req w)) = 500
      /\ (e = SharpError \/ e = B2Error)
      /\ dir_exists (createSlug P title +++ ".json")
           (data (store (fst (createAlbum P req w)))) = false
      /\ posts (store (fst (createAlbum P req w))) = posts (store w))
  /\ (store (fst (createAlbum P req w)) <> store w ->
      exists title imgs,
        c_title req = Some (VStr title)
        /\ upload_images P (createSlug P title) 0 (c_files req) (remote w)
           = (remote (fst (createAlbum P req w)), Done imgs)).
Proof.
  split.
  - intros title r e Htitle Hfresh Hfail.
    assert (Hup : upload_images P (createSlug P title) 0 (c_files req) (remote w)
                  = (r, Throws e)).
    { apply upload_images_throws.
      destruct Hfail as (pre & file & post & imgs & r1 & Hf & Hpre & Hfile).
      exists pre, file, post, imgs, r1. auto. }
    rewrite (createAlbum_pipeline_throws P req w title r e Htitle Hfresh Hup).
    simpl. repeat split; auto.
    destruct Hfail as (pre & file & post & imgs & r1 & _ & _ & Hfile).
    eapply upload_image_throws; eauto.
  - apply createAlbum_writes_after_uploads.
Qed.

(** The second file of a two-file request loses its thumbnail upload: the
    object store rejects the fourth call. *)
Lemma createAlbum_atomic_witness :
  createAlbum (Demo.failing_after 3)
    (Sample.create_request "Night City" [Sample.jpeg1; Sample.png1])
    Sample.empty_world
  = ({| store := store Sample.empty_world;
        remote :=
          [Upload "night-city/img000.jpg" [Byte.x01] "image/jpeg";
           Upload "night-city/thumb/img000.webp" [Byte.x01] "image/webp";
           Upload "night-city/img001.jpg" [Byte.x02] "image/jpeg";
           Upload "night-city/thumb/img001.webp" [Byte.x02] "image/webp"] |},
     Failed B2Error).
Proof.
  apply (proj1 (createAlbum_atomic (Demo.failing_after 3)
                  (Sample.create_request "Night City"
                     [Sample.jpeg1; Sample.png1])
                  Sample.empty_world) "Night City").
  - reflexivity.
  - reflexivity.
  - exists [Sample.jpeg1], Sample.png1, [].
    eexists. eexists. split; [reflexivity|]. split; reflexivity.
Defined.

(** A file the image processor cannot decode: the first file went through,
    the second throws, and nothing is written. *)
Example create_decode_failure :
  createAlbum Demo.platform
    (Sample.create_request "Night City" [Sample.jpeg1; Sample.broken])
    Sample.empty_world
  = ({| store := store Sample.empty_world;
        remote :=
          [Upload "night-city/img000.jpg" [Byte.x01] "image/jpeg";
           Upload "night-city/thumb/img000.webp" [Byte.x01] "image/webp"] |},
     Failed SharpError).
Proof. reflexivity. Qed.

Lemma createAlbum_conflict_witness :
  let w1 :=
    fst (createAlbum Demo.platform
           (Sample.create_request "Night City" [Sample.jpeg1])
           Sample.empty_world) in
  dir_exists "night-city.json" (data (store w1)) = true
  /\ createAlbum Demo.platform
       (Sample.create_request "Night City!" [Sample.png1]) w1
     = (w1, Refused 400 "Album with this name already exists").
Proof.
  split; [reflexivity|].
  apply (createAlbum_conflict Demo.platform
           (Sample.create_request "Night City!" [Sample.png1]) _
           "Night City!"); reflexivity.
Defined.

(** ** Listing *)

Lemma sort_insert_perm {A} (cmp : A -> A -> option Z) (x : A) (l : list A) :
  Permutation (x :: l) (sort_insert cmp x l).
Proof.
  induction l as [|y l IH]; simpl.
  - apply Permutation_refl.
  - destruct (0 <? sort_compare cmp x y).
    + eapply perm_trans; [apply perm_swap|]. now apply perm_skip.
    + apply Permutation_refl.
Qed.

Lemma Array_sort_perm {A} (cmp : A -> A -> option Z) (l : list A) :
  Permutation l (Array_sort cmp l).
Proof.
  induction l as [|x l IH]; simpl.
  - apply perm_nil.
  - eapply perm_trans; [apply perm_skip, IH|]. apply sort_insert_perm.
Qed.

Lemma getAlbums_perm (P : Platform) (st : Store) :
  Permutation (load_albums P st) (getAlbums P st).
Proof.
  unfold getAlbums. destruct (getAlbumOrder st); apply Array_sort_perm.
Qed.

Lemma collect_In {A B} (f : A -> option B) (l : list A) (y : B) :
  In y (collect f l) <-> exists x, In x l /\ f x = Some y.
Proof.
  induction l as [|x l IH]; simpl.
  - split; [tauto|]. intros (x & [] & _).
  - destruct (f x) as [z|] eqn:E; simpl; rewrite IH; split.
    + intros [<- | (x' & Hin & Hx')]; eauto.
    + intros (x' & [<- | Hin] & Hx'); [left; congruence | right; eauto].
    + intros (x' & Hin & Hx'); eauto.
    + intros (x' & [<- | Hin] & Hx'); [congruence | eauto].
Qed.

(** What an album takes from its JSON file. *)
Lemma load_album_fields (P : Platform) (st : Store) (jf : string) (a : Album) :
  load_album P st jf = Some a ->
  jsonFile a = jf
  /\ slug a = replace_first ".json" "" jf
  /\ images a = read_images P (dir_read jf (data st))
  /\ imageCount a = List.length (images a).
Proof.
  unfold load_album.
  destruct (filter _ _) as [|pf rest]; [discriminate|].
  destruct (dir_read pf (posts st)) as [content|]; [|discriminate].
  destruct (front_matter_block content) as [block|]; [|discriminate].
  intros H. inversion H; subst; clear H. simpl. auto.
Qed.

Lemma getAlbums_In (P : Platform) (st : Store) (a : Album) :
  In a (getAlbums P st) ->
  exists jf, In jf (json_files st) /\ load_album P st jf = Some a.
Proof.
  intros Hin.
  apply (Permutation_in _ (Permutation_sym (getAlbums_perm P st))) in Hin.
  now apply collect_In in Hin.
Qed.

(** ** The images of a new album *)




Lemma append_assoc (a b c : string) : (a +++ b) +++ c = a +++ b +++ c.
Proof. induction a; simpl; congruence. Qed.

Lemma join_snoc (sep : string) (l : list string) (x y : string) :
  join sep ((x :: l) ++ [y]) = join sep (x :: l) +++ sep +++ y.
Proof.
  revert x. induction l as [|z l IH]; intros x.
  - reflexivity.
  - change (join sep ((x :: z :: l) ++ [y]))
      with (x +++ sep +++ join sep ((z :: l) ++ [y])).
    rewrite IH.
    change (join sep (x :: z :: l)) with (x +++ sep +++ join sep (z :: l)).
    now rewrite !append_assoc.
Qed.

Lemma front_matter_block_open (s : string) :
  front_matter_block ("---" +++ nl +++ s) = until_close s.
Proof.
  unfold front_matter_block.
  change (String.prefix ("---" +++ crnl) ("---" +++ nl +++ s)) with false.
  change (String.prefix ("---" +++ nl) ("---" +++ nl +++ s))
    with (String.prefix "" s).
  now destruct s.
Qed.

Lemma until_close_closing (t : string) :
  until_close (nl +++ "---" +++ t) = Some ""%string.
Proof. destruct t; reflexivity. Qed.




Lemma prefix_empty (s : string) : String.prefix "" s = true.
Proof. now destruct s. Qed.




(** Below 1000 the number of an image is printed with three digits. *)
Lemma padStart3_digits (i : nat) :
  (i < 1000)%nat -> padStart3 (of_Z (Z.of_nat i)) = three_digits i.
Proof.
  intros Hi.
  assert (Hall : forallb
                   (fun k => (padStart3 (of_Z (Z.of_nat k))
                              =? three_digits k)%string)
                   (seq 0 1000) = true) by (vm_compute; reflexivity).
  rewrite forallb_forall in Hall.
  apply String.eqb_eq, Hall, in_seq. lia.
Qed.




(** The album just created is listed with its two images, numbered 000 and
    001 in submission order. *)
Example created_album_listed :
  let w' :=
    fst (createAlbum Demo.platform
           (Sample.create_request "Night City" [Sample.jpeg1; Sample.png1])
           Sample.empty_world) in
  map (fun a => (slug a, imageCount a, map url (images a)))
      (getAlbums Demo.platform (store w'))
  = [("night-city", 2%nat,
      [JStr "https://cdn.example.com/night-city/img000.jpg";
       JStr "https://cdn.example.com/night-city/img001.jpg"])].
Proof. reflexivity. Qed.

(** ** Reordering images *)

(** [C5] For an existing album the handler accepts every array of indices,
    with no check of range or of being a permutation, and rewrites the
    descriptor as the sequence images[order[0]], images[order[1]], ... in
    the given order; an index outside the list yields a missing entry,
    written as [null]. On a three-image album [2,0,1] gives
    [images[2], images[0], images[1]]; an index given twice gives its image
    twice; an index left out drops its image. The posts and the object
    store are not touched. *)
Theorem reorderImages_rebuilds (P : Platform) (s : string) (w : World)
    (album : Album) :
  getAlbum P (store w) s = Some album ->
  let written order :=
    dir_read (jsonFile album)
      (data (store (fst (reorderImages P s (Some order) w)))) in
  (forall order,
      snd (reorderImages P s (Some order) w) = Success "Images reordered"
      /\ written order
         = Some (Some (stringify_images (map (at_index (images album)) order)))
      /\ posts (store (fst (reorderImages P s (Some order) w))) = posts (store w)
      /\ remote (fst (reorderImages P s (Some order) w)) = remote w)
  /\ (forall a b c,
         images album = [a; b; c] ->
         written [2; 0; 1]
         = Some (Some (stringify_images [Some c; Some a; Some b])))
  /\ (forall i img,
         at_index (images album) i = Some img ->
         written [i; i] = Some (Some (stringify_images [Some img; Some img])))
  /\ (forall a b c,
         images album = [a; b; c] ->
         written [0; 2] = Some (Some (stringify_images [Some a; Some c])))
  /\ (forall i,
         at_index (images album) i = None ->
         written [i] = Some (Some (JArr [JNull]))).
Proof.
  intros Halbum written.
  assert (Hgen : forall order,
             snd (reorderImages P s (Some order) w) = Success "Images reordered"
             /\ written order
                = Some (Some (stringify_images
                                (map (at_index (images album)) order)))
             /\ posts (store (fst (reorderImages P s (Some order) w)))
                = posts (store w)
             /\ remote (fst (reorderImages P s (Some order) w)) = remote w).
  { intros order. unfold written, reorderImages. rewrite Halbum. simpl.
    now rewrite dir_read_write_same. }
  split; [exact Hgen|].
  repeat split.
  - intros a b c Himgs. destruct (Hgen [2; 0; 1]) as (_ & -> & _).
    now rewrite Himgs.
  - intros i img Hi. destruct (Hgen [i; i]) as (_ & -> & _).
    simpl. now rewrite Hi.
  - intros a b c Himgs. destruct (Hgen [0; 2]) as (_ & -> & _).
    now rewrite Himgs.
  - intros i Hi. destruct (Hgen [i]) as (_ & -> & _).
    simpl. now rewrite Hi.
Qed.

Lemma reorderImages_rebuilds_witness :
  let w := Sample.three_images in
  let w' := fst (reorderImages Demo.platform "night-city" (Some [2; 0; 1]) w) in
  exists album a b c,
    getAlbum Demo.platform (store w) "night-city" = Some album
    /\ images album = [a; b; c]
    /\ dir_read (jsonFile album) (data (store w'))
       = Some (Some (stringify_images [Some c; Some a; Some b])).
Proof.
  eexists. eexists. eexists. eexists.
  split; [reflexivity|]. split; [reflexivity|].
  apply (proj1 (proj2 (reorderImages_rebuilds Demo.platform "night-city"
                         Sample.three_images _ eq_refl))).
  reflexivity.
Defined.

(** The same album listed after the reordering, and after an order that
    repeats an index and leaves one out. *)
Example reorder_listed :
  let w := Sample.three_images in
  let urls order :=
    map (fun a => map url (images a))
      (getAlbums Demo.platform
         (store (fst (reorderImages Demo.platform "night-city" (Some order) w)))) in
  urls [2; 0; 1]
  = [[JStr "https://cdn.example.com/night-city/img002.jpg";
      JStr "https://cdn.example.com/night-city/img000.jpg";
      JStr "https://cdn.example.com/night-city/img001.jpg"]]
  /\ urls [1; 1]
     = [[JStr "https://cdn.example.com/night-city/img001.jpg";
         JStr "https://cdn.example.com/night-city/img001.jpg"]].
Proof. split; reflexivity. Qed.

(** ** Deleting an image *)

Lemma remove_at_from_above {A} (l : list A) :
  forall i index, index < i -> remove_at_from i index l = l.
Proof.
  induction l as [|x l IH]; intros i index Hlt; simpl; [reflexivity|].
  destruct (i =? index) eqn:E; [lia|].
  rewrite IH by lia. reflexivity.
Qed.

Lemma remove_at_from_split {A} (l : list A) :
  forall i index,
    i <= index ->
    remove_at_from i index l
    = firstn (Z.to_nat (index - i)) l ++ skipn (S (Z.to_nat (index - i))) l.
Proof.
  induction l as [|x l IH]; intros i index Hle; simpl.
  - now rewrite firstn_nil.
  - destruct (i =? index) eqn:E.
    + apply Z.eqb_eq in E. subst. rewrite Z.sub_diag. simpl.
      apply remove_at_from_above. lia.
    + apply Z.eqb_neq in E.
      rewrite IH by lia.
      replace (Z.to_nat (index - i)) with (S (Z.to_nat (index - (i + 1))))
        by lia.
      reflexivity.
Qed.

(** Removing a valid position: the elements before it, then the elements
    after it. *)
Lemma remove_at_split {A} (l : list A) (index : Z) :
  0 <= index ->
  remove_at index l
  = firstn (Z.to_nat index) l ++ skipn (S (Z.to_nat index)) l.
Proof.
  intros H. unfold remove_at. rewrite remove_at_from_split by lia.
  now rewrite Z.sub_0_r.
Qed.

Lemma remove_at_length {A} (l : list A) (index : Z) :
  0 <= index < Z.of_nat (List.length l) ->
  S (List.length (remove_at index l)) = List.length l.
Proof.
  intros H. rewrite remove_at_split by lia.
  rewrite length_app, length_firstn, length_skipn. lia.
Qed.

(** A valid index whose image has two URLs the URL parser accepts: the
    descriptor is rewritten without that image, one entry shorter, the
    others in their order; the posts are not touched. *)
Lemma deleteImage_removes (P : Platform) (s index : string) (w : World)
    (album : Album) (i : Z) (image : Image) (urlPath thumbPath : string) :
  getAlbum P (store w) s = Some album ->
  parseInt index = Some i ->
  at_index (images album) i = Some image ->
  pathname P (url image) = Done urlPath ->
  pathname P (thumb image) = Done thumbPath ->
  exists w',
    deleteImage P s index w = (w', Success "Image deleted")
    /\ dir_read (jsonFile album) (data (store w'))
       = Some (Some (stringify_images
                       (map Some
                          (firstn (Z.to_nat i) (images album)
                           ++ skipn (S (Z.to_nat i)) (images album)))))
    /\ S (List.length (remove_at i (images album)))
       = List.length (images album)
    /\ posts (store w') = posts (store w).
Proof.
  intros Halbum Hindex Himage Hurl Hthumb.
  assert (Hrange : 0 <= i < Z.of_nat (List.length (images album))).
  { unfold at_index in Himage. destruct (i <? 0) eqn:E; [discriminate|].
    apply Z.ltb_ge in E.
    assert (Z.to_nat i < List.length (images album))%nat
      by (apply nth_error_Some; congruence).
    lia. }
  unfold deleteImage. rewrite Halbum, Hindex.
  replace ((i <? 0) || (Z.of_nat (List.length (images album)) <=? i))
    with false by (symmetry; apply orb_false_iff; split; lia).
  rewrite Himage, Hurl, Hthumb.
  eexists. split; [reflexivity|]. cbn [store data posts with_data remote].
  rewrite dir_read_write_same, remove_at_split by lia.
  repeat split.
  rewrite <- remove_at_split by lia. now apply remove_at_length.
Qed.

(** An integer index outside the list is refused with status 400 and
    nothing changes. *)
Lemma deleteImage_out_of_range (P : Platform) (s index : string) (w : World)
    (album : Album) (i : Z) :
  getAlbum P (store w) s = Some album ->
  parseInt index = Some i ->
  i < 0 \/ Z.of_nat (List.length (images album)) <= i ->
  deleteImage P s index w = (w, Refused 400 "Invalid image index").
Proof.
  intros Halbum Hindex Hout. unfold deleteImage. rewrite Halbum, Hindex.
  replace ((i <? 0) || (Z.of_nat (List.length (images album)) <=? i))
    with true by (symmetry; apply orb_true_iff; lia).
  reflexivity.
Qed.

(** An index that is not a number passes the range check, and reading the
    image throws. *)
Lemma deleteImage_not_a_number (P : Platform) (s index : string) (w : World)
    (album : Album) :
  getAlbum P (store w) s = Some album ->
  parseInt index = None ->
  deleteImage P s index w = (w, Failed TypeError).
Proof.
  intros Halbum Hindex. unfold deleteImage. now rewrite Halbum, Hindex.
Qed.

(** A valid index whose image has a URL the parser rejects: the handler
    throws before the descriptor is rewritten. *)
Lemma deleteImage_invalid_url (P : Platform) (s index : string) (w : World)
    (album : Album) (i : Z) (image : Image) :
  getAlbum P (store w) s = Some album ->
  parseInt index = Some i ->
  at_index (images album) i = Some image ->
  pathname P (url image) = Throws InvalidURL ->
  deleteImage P s index w = (w, Failed InvalidURL).
Proof.
  intros Halbum Hindex Himage Hurl.
  assert (Hrange : 0 <= i < Z.of_nat (List.length (images album))).
  { unfold at_index in Himage. destruct (i <? 0) eqn:E; [discriminate|].
    apply Z.ltb_ge in E.
    assert (Z.to_nat i < List.length (images album))%nat
      by (apply nth_error_Some; congruence).
    lia. }
  unfold deleteImage. rewrite Halbum, Hindex.
  replace ((i <? 0) || (Z.of_nat (List.length (images album)) <=? i))
    with false by (symmetry; apply orb_false_iff; split; lia).
  now rewrite Himage, Hurl.
Qed.

(** ** Reading descriptors *)

Lemma normalize_all_null (P : Platform) (l : list json) :
  existsb is_null l = true -> normalize_all P l = None.
Proof.
  induction l as [|v l IH]; simpl; [discriminate|].
  intros H. apply orb_true_iff in H as [H|H].
  - destruct v; try discriminate. reflexivity.
  - rewrite (IH H). now destruct (normalize_image P v).
Qed.






Example legacy_entry_read :
  read_images Demo.platform
    (Some (Some (JArr
       [JObj [("imageFull-link", JStr "https://cdn.example.com/old/01.jpg");
              ("thumbnail-link", JStr "https://cdn.example.com/old/thumb/01.webp");
              ("aspect-ratio", JStr "1.7778")];
        JObj [("imageFull-link", JStr "https://cdn.example.com/old/02.jpg");
              ("thumbnail-link", JStr "https://cdn.example.com/old/thumb/02.webp")]])))
  = [{| url := JStr "https://cdn.example.com/old/01.jpg";
        thumb := JStr "https://cdn.example.com/old/thumb/01.webp";
        aspectRatio := (17778 / 10000)%float;
        width := JNum 0%float;
        height := JNum 0%float |};
     {| url := JStr "https://cdn.example.com/old/02.jpg";
        thumb := JStr "https://cdn.example.com/old/thumb/02.webp";
        aspectRatio := 1.5%float;
        width := JNum 0%float;
        height := JNum 0%float |}].
Proof. reflexivity. Qed.

(** ** Reading layout fields *)

(** A listed album is made from the front-matter block of its post. *)
Lemma load_album_made (P : Platform) (st : Store) (jf : string) (a : Album) :
  load_album P st jf = Some a ->
  exists content block,
    dir_read (postFile a) (posts st) = Some content
    /\ front_matter_block content = Some block
    /\ a = make_album (slug a) (parse_front_matter block) (images a)
             (postFile a) (jsonFile a).
Proof.
  unfold load_album.
  destruct (filter _ _) as [|pf rest]; [discriminate|].
  destruct (dir_read pf (posts st)) as [content|] eqn:Hread; [|discriminate].
  destruct (front_matter_block content) as [block|] eqn:Hblock; [|discriminate].
  intros H. injection H as <-. exists content, block. auto.
Qed.

(** [C10] A zero stored in an offset or zoom field of the front matter is
    not read back. Every listed album is made from the front-matter block of
    its post; whenever the value stored there under card-offset,
    card-offset-x, banner-offset or banner-offset-x parses to the integer
    zero the album gets 50, and under card-zoom or banner-zoom it gets 100,
    because the parsed number is replaced by the default when it is falsy.
    A line made of the key, a colon and the literal 0 stores such a value;
    no listed album has 0 in any of the six fields. *)
Theorem stored_zero_reads_as_default (P : Platform) (st : Store) (a : Album) :
  In a (getAlbums P st) ->
  exists content block,
    dir_read (postFile a) (posts st) = Some content
    /\ front_matter_block content = Some block
    /\ let fm := parse_front_matter block in
       let zero_at k :=
         exists v, fm_get k fm = Some v /\ parseInt (to_string v) = Some 0 in
       (zero_at "card-offset" -> cardOffset a = 50)
       /\ (zero_at "card-offset-x" -> cardOffsetX a = 50)
       /\ (zero_at "card-zoom" -> cardZoom a = 100)
       /\ (zero_at "banner-offset" -> bannerOffset a = 50)
       /\ (zero_at "banner-offset-x" -> bannerOffsetX a = 50)
       /\ (zero_at "banner-zoom" -> bannerZoom a = 100)
       /\ (forall k fm0,
              In k ["card-offset"; "card-offset-x"; "card-zoom";
                    "banner-offset"; "banner-offset-x"; "banner-zoom"] ->
              fm_get k (fm_line fm0 (k +++ ": 0")) = Some (VStr "0")
              /\ parseInt (to_string (VStr "0")) = Some 0)
       /\ (cardOffset a <> 0 /\ cardOffsetX a <> 0 /\ cardZoom a <> 0
           /\ bannerOffset a <> 0 /\ bannerOffsetX a <> 0 /\ bannerZoom a <> 0).
Proof.
  intros Hin. apply getAlbums_In in Hin as (jf & _ & Hload).
  apply load_album_made in Hload as (content & block & Hread & Hblock & Hmade).
  exists content, block. split; [exact Hread|]. split; [exact Hblock|].
  cbn zeta. rewrite Hmade. cbn [cardOffset cardOffsetX cardZoom bannerOffset
                                 bannerOffsetX bannerZoom make_album].
  assert (Hnz : forall n d, d <> 0 -> or_num n d <> 0).
  { intros [z|] d Hd; simpl; [|exact Hd].
    destruct (z =? 0) eqn:E; [exact Hd|]. now apply Z.eqb_neq. }
  repeat split;
    try (intros (v & Hv & Hz); unfold parseInt_val; rewrite Hv, Hz;
         reflexivity);
    try (apply Hnz; lia).
  - destruct H as [<-|[<-|[<-|[<-|[<-|[<-|[]]]]]]]; reflexivity.
Qed.

(** A post whose front matter stores 0 in the six fields, and the album the
    listing makes of it. *)
Example stored_zero_listed :
  map (fun a => (cardOffset a, cardOffsetX a, cardZoom a,
                 bannerOffset a, bannerOffsetX a, bannerZoom a))
      (getAlbums Demo.platform Sample.zeros)
  = [(50, 50, 100, 50, 50, 100)].
Proof. reflexivity. Qed.

Lemma stored_zero_reads_as_default_witness :
  exists a,
    getAlbums Demo.platform Sample.zeros = [a]
    /\ (exists v, fm_get "card-offset"
                    (parse_front_matter
                       (join nl ["title: Zero"; "date: 2024-03-01";
                                 "card-offset: 0"; "card-offset-x: 0";
                                 "card-zoom: 0"; "banner-offset: 0";
                                 "banner-offset-x: 0"; "banner-zoom: 0"]))
                  = Some v
                  /\ parseInt (to_string v) = Some 0)
    /\ cardOffset a = 50.
Proof.
  eexists. split; [reflexivity|]. split; [eexists; split; reflexivity|].
  match goal with
  | |- cardOffset ?a = 50 =>
      destruct (stored_zero_reads_as_default Demo.platform Sample.zeros a
                  (or_introl eq_refl))
        as (content & block & Hread & Hblock & Hzero & _)
  end.
  apply Hzero.
  injection Hread as <-. injection Hblock as <-.
  eexists. split; reflexivity.
Defined.

(** ** Sorting *)

Section SortSpec.

Context {A : Type}.
Variable cmp : A -> A -> option Z.

(** [x] may stand before [y]. *)
Let le (x y : A) : Prop := sort_compare cmp x y <= 0.

(** The elements on which the comparator is consistent. *)
Variable D : A -> Prop.

Hypothesis cmp_total :
  forall x y, D x -> D y -> 0 < sort_compare cmp x y -> le y x.

Hypothesis cmp_trans :
  forall x y z, D x -> D y -> D z -> le x y -> le y z -> le x z.

Lemma sort_insert_sorted (x : A) (l : list A) :
  D x -> Forall D l ->
  StronglySorted le l -> StronglySorted le (sort_insert cmp x l).
Proof.
  intros Dx HD Hs. induction Hs as [|y l Hs IH Hy]; simpl.
  - repeat constructor.
  - inversion HD as [|? ? Dy HDl]; subst.
    destruct (0 <? sort_compare cmp x y) eqn:E.
    + apply Z.ltb_lt in E.
      constructor; [now apply IH|].
      apply (Permutation_Forall (sort_insert_perm cmp x l)).
      constructor; [now apply cmp_total | exact Hy].
    + apply Z.ltb_ge in E.
      constructor; [now constructor|].
      constructor; [exact E|].
      rewrite Forall_forall in *. intros z Hz.
      apply (cmp_trans x y z); auto.
Qed.

Lemma Array_sort_sorted (l : list A) :
  Forall D l -> StronglySorted le (Array_sort cmp l).
Proof.
  induction 1 as [|x l Dx HD IH]; simpl.
  - constructor.
  - apply sort_insert_sorted; auto.
    apply (Permutation_Forall (Array_sort_perm cmp l)). exact HD.
Qed.

End SortSpec.


Lemma StronglySorted_weaken {A} (R R' : A -> A -> Prop) (Q : A -> Prop)
    (l : list A) :
  (forall x y, Q x -> Q y -> R x y -> R' x y) ->
  Forall Q l -> StronglySorted R l -> StronglySorted R' l.
Proof.
  intros Himp HQ Hs. induction Hs as [|x l Hs IH Hx]; [constructor|].
  inversion HQ as [|? ? Qx HQl]; subst.
  constructor; [now apply IH|].
  rewrite Forall_forall in *. intros y Hy. apply Himp; auto.
Qed.


(** The comparators of [getAlbums], case by case. *)
Lemma by_order_both (P : Platform) (order : list json) (a b : Album) :
  in_order order a = true -> in_order order b = true ->
  sort_compare (by_order P order) a b
  = indexOf order (slug a) - indexOf order (slug b).
Proof.
  unfold in_order, sort_compare, by_order. now intros -> ->.
Qed.

Lemma by_order_left (P : Platform) (order : list json) (a b : Album) :
  in_order order a = true -> in_order order b = false ->
  sort_compare (by_order P order) a b = -1.
Proof.
  unfold in_order, sort_compare, by_order. now intros -> ->.
Qed.

Lemma by_order_right (P : Platform) (order : list json) (a b : Album) :
  in_order order a = false -> in_order order b = true ->
  sort_compare (by_order P order) a b = 1.
Proof.
  unfold in_order, sort_compare, by_order. now intros -> ->.
Qed.

Lemma by_order_neither (P : Platform) (order : list json) (a b : Album) :
  in_order order a = false -> in_order order b = false ->
  sort_compare (by_order P order) a b = sort_compare (by_date_desc P) a b.
Proof.
  unfold in_order, sort_compare, by_order. now intros -> ->.
Qed.

Lemma by_date_desc_valid (P : Platform) (a b : Album) (ta tb : Z) :
  date_value P a = Some ta -> date_value P b = Some tb ->
  sort_compare (by_date_desc P) a b = tb - ta.
Proof.
  unfold sort_compare, by_date_desc. now intros -> ->.
Qed.

Ltac comparator_cases P order :=
  repeat match goal with
         | H : orderable P order ?a |- _ =>
             let t := fresh "t" in
             let Ht := fresh "Ht" in
             destruct (in_order order a) eqn:?;
             [clear H
             | destruct H as [H | [t Ht]];
               [congruence | fold (date_value P a) in Ht]]
         end;
  repeat first
    [ rewrite by_order_both in * by assumption
    | rewrite by_order_left in * by assumption
    | rewrite by_order_right in * by assumption
    | rewrite by_order_neither in * by assumption ];
  repeat match goal with
         | Ha : date_value P ?a = Some _, Hb : date_value P ?b = Some _ |- _ =>
             rewrite (by_date_desc_valid P a b _ _ Ha Hb) in *
         end.

Lemma by_order_total (P : Platform) (order : list json) (a b : Album) :
  orderable P order a -> orderable P order b ->
  0 < sort_compare (by_order P order) a b ->
  sort_compare (by_order P order) b a <= 0.
Proof.
  intros Ha Hb. comparator_cases P order; lia.
Qed.

Lemma by_order_trans (P : Platform) (order : list json) (a b c : Album) :
  orderable P order a -> orderable P order b -> orderable P order c ->
  sort_compare (by_order P order) a b <= 0 ->
  sort_compare (by_order P order) b c <= 0 ->
  sort_compare (by_order P order) a c <= 0.
Proof.
  intros Ha Hb Hc. comparator_cases P order; lia.
Qed.







Lemma first_position_unique (order : list json) (s : string) (i j : nat) :
  first_position order s i -> first_position order s j -> i = j.
Proof.
  intros [Hi Fi] [Hj Fj].
  destruct (Nat.lt_trichotomy i j) as [H|[H|H]]; [|exact H|].
  - now destruct (Fj i H).
  - now destruct (Fi j H).
Qed.



(** With the manual order b, a the listing is b, a although a is the more
    recent; without it the listing is a, b. *)
Example manual_order_first :
  map slug (getAlbums Demo.platform Sample.two_albums_ordered) = ["b"; "a"]
  /\ map slug (getAlbums Demo.platform Sample.two_albums) = ["a"; "b"]
  /\ map slug (load_albums Demo.platform Sample.two_albums) = ["b"; "a"].
Proof. repeat split. Qed.



(** ** Updating metadata *)

(** The post writer returns a front-matter block: it opens with the dashes
    and the layout line and ends with the closing dashes. *)
Lemma generatePostMarkdown_block (P : Platform) (d : PostData) (content : string) :
  generatePostMarkdown P d = Done content ->
  startsWith ("---" +++ nl +++ "layout: post" +++ nl) content = true
  /\ endsWith (nl +++ "---") content = true.
Proof.
  unfold generatePostMarkdown.
  destruct (quote_field (p_title d) _) as [a|]; [|discriminate].
  destruct (quote_field (p_description d) _) as [a0|]; [|discriminate].
  destruct (quote_field (p_developer d) _) as [a1|]; [|discriminate].
  intros H.
  assert (E : content = join nl (post_lines P d a a0 a1)) by congruence.
  clear H. subst content. split.
  - reflexivity.
  - unfold post_lines.
    match goal with
    | |- context [join nl (?x :: ?l)] =>
        let l' := eval cbv beta iota delta [removelast] in (removelast l) in
        change (x :: l) with ((x :: l') ++ ["---"])
    end.
    rewrite join_snoc. apply endsWith_append.
Qed.

(** [C3] After a successful metadata update the post file of the album
    holds exactly what the post writer returns for the merged fields: a
    front-matter block from its opening dashes to its closing dashes,
    computed from the album read before the update and from the request.
    No text of the former file that followed the front matter is carried
    over: any world in which the same album is read is left with the same
    content, whatever body its post had. The descriptors and the object
    store are not touched. *)
Theorem updateAlbum_writes_front_matter_only (P : Platform) (s : string)
    (req : UpdateRequest) (w w' : World) (msg : string) :
  updateAlbum P s req w = (w', Success msg) ->
  exists album content,
    getAlbum P (store w) s = Some album
    /\ generatePostMarkdown P (merged_fields album req) = Done content
    /\ dir_read (new_post_path album req) (posts (store w')) = Some content
    /\ startsWith ("---" +++ nl +++ "layout: post" +++ nl) content = true
    /\ endsWith (nl +++ "---") content = true
    /\ data (store w') = data (store w)
    /\ remote w' = remote w
    /\ (forall v v' msg',
           getAlbum P (store v) s = Some album ->
           updateAlbum P s req v = (v', Success msg') ->
           dir_read (new_post_path album req) (posts (store v')) = Some content).
Proof.
  unfold updateAlbum.
  destruct (getAlbum P (store w) s) as [album|]; [|discriminate].
  destruct (generatePostMarkdown P (merged_fields album req)) as [content|e] eqn:G;
    [|discriminate].
  intros H. inversion H; subst; clear H.
  exists album, content. cbn [store posts data with_posts remote].
  rewrite dir_read_write_same.
  destruct (generatePostMarkdown_block P _ _ G) as [Hopen Hclose].
  repeat split; auto.
  intros v v' msg' Hv. rewrite Hv, G. intros H. inversion H; subst; clear H.
  cbn [store posts with_posts]. apply dir_read_write_same.
Qed.

Lemma updateAlbum_writes_front_matter_only_witness :
  let w' :=
    fst (updateAlbum Demo.platform "a" (Sample.only_description "X")
           Sample.with_body) in
  exists album content,
    getAlbum Demo.platform (store Sample.with_body) "a" = Some album
    /\ generatePostMarkdown Demo.platform
         (merged_fields album (Sample.only_description "X")) = Done content
    /\ dir_read (new_post_path album (Sample.only_description "X"))
         (posts (store w')) = Some content
    /\ startsWith ("---" +++ nl +++ "layout: post" +++ nl) content = true
    /\ endsWith (nl +++ "---") content = true
    /\ data (store w') = data (store Sample.with_body)
    /\ remote w' = remote Sample.with_body
    /\ (forall v v' msg',
           getAlbum Demo.platform (store v) "a" = Some album ->
           updateAlbum Demo.platform "a" (Sample.only_description "X") v
           = (v', Success msg') ->
           dir_read (new_post_path album (Sample.only_description "X"))
             (posts (store v')) = Some content).
Proof.
  apply (updateAlbum_writes_front_matter_only Demo.platform "a"
           (Sample.only_description "X") Sample.with_body _ "Album updated").
  reflexivity.
Defined.

(** The post of the sample album ends with the body Hello body; after an
    update that provides the description only, the file no longer holds
    that text. *)
Lemma updateAlbum_drops_body :
  let w' :=
    fst (updateAlbum Demo.platform "a" (Sample.only_description "X")
           Sample.with_body) in
  snd (updateAlbum Demo.platform "a" (Sample.only_description "X")
         Sample.with_body) = Success "Album updated"
  /\ option_map (endsWith (nl +++ nl +++ "Hello body"))
       (dir_read "2024-01-02-a.md" (posts (store Sample.with_body)))
     = Some true
  /\ option_map (includes "Hello body")
       (dir_read "2024-01-02-a.md" (posts (store w'))) = Some false
  /\ readdir (posts (store w')) = ["2024-01-02-a.md"].
Proof. repeat split. Qed.

(** [C2] An update that provides the description only should leave every
    other field as it was. It does not when a string holds a double quote:
    the album created with the title Say, quote, hi, quote is read with one
    backslash before each quote, the post writer escapes the quotes once
    more, and the reader never removes a backslash. The update succeeds and
    sets the description, the title comes back with two backslashes before
    each quote, and the remaining fields are the same. *)
Theorem updateAlbum_escapes_title_again :
  let w := Sample.quoted_title in
  let w' :=
    fst (updateAlbum Demo.platform "say-hi" (Sample.only_description "X") w) in
  snd (updateAlbum Demo.platform "say-hi" (Sample.only_description "X") w)
  = Success "Album updated"
  /\ option_map title (getAlbum Demo.platform (store w) "say-hi")
     = Some (VStr ("Say " +++ escaped_quote +++ "hi" +++ escaped_quote))
  /\ option_map title (getAlbum Demo.platform (store w') "say-hi")
     = Some (VStr ("Say " +++ String BSL escaped_quote +++ "hi"
                   +++ String BSL escaped_quote))
  /\ option_map description (getAlbum Demo.platform (store w') "say-hi")
     = Some (VStr "X")
  /\ option_map
       (fun a => (developer a, date a, tags a, cardImage a, cardOffset a,
                  cardOffsetX a, cardZoom a, bannerImage a, bannerOffset a,
                  bannerOffsetX a, bannerZoom a, images a))
       (getAlbum Demo.platform (store w') "say-hi")
     = option_map
         (fun a => (developer a, date a, tags a, cardImage a, cardOffset a,
                    cardOffsetX a, cardZoom a, bannerImage a, bannerOffset a,
                    bannerOffsetX a, bannerZoom a, images a))
         (getAlbum Demo.platform (store w) "say-hi").
Proof. repeat split. Qed.

(** On an album whose strings hold no quote the same update changes the
    description and nothing else. *)
Example updateAlbum_only_description :
  let w :=
    fst (createAlbum Demo.platform
           (Sample.create_request "Night City" [Sample.jpeg1; Sample.png1])
           Sample.empty_world) in
  let w' :=
    fst (updateAlbum Demo.platform "night-city"
           (Sample.only_description "X") w) in
  match getAlbum Demo.platform (store w) "night-city",
        getAlbum Demo.platform (store w') "night-city" with
  | Some a, Some a' =>
      description a = VStr "Screens" /\ description a' = VStr "X"
      /\ (slug a', title a', developer a', date a', tags a', images a')
         = (slug a, title a, developer a, date a, tags a, images a)
      /\ (cardImage a', cardOffset a', cardOffsetX a', cardZoom a',
          bannerImage a', bannerOffset a', bannerOffsetX a', bannerZoom a')
         = (cardImage a, cardOffset a, cardOffsetX a, cardZoom a,
            bannerImage a, bannerOffset a, bannerOffsetX a, bannerZoom a)
  | _, _ => False
  end.
Proof. cbv. repeat split. Qed.

(** ** An image without URLs *)

(** [C4] Deleting the image at a valid position should rewrite the
    descriptor without it. The descriptor of the sample album has one entry
    with no url, which the listing reads as the empty string. Asked to
    delete the image at index 0, on a platform whose URL parser rejects the
    empty string, the handler throws on the URL, outside the block that
    guards the remote deletions, and answers 500; the world is unchanged and
    the descriptor still holds the entry. *)
Theorem deleteImage_keeps_image_without_url (P : Platform) :
  URL_pathname P "" = None ->
  option_map (fun a => (List.length (images a), map url (images a)))
    (getAlbum P (store Sample.no_url) "a")
  = Some (1%nat, [JStr ""])
  /\ deleteImage P "a" "0" Sample.no_url = (Sample.no_url, Failed InvalidURL).
Proof.
  intros Hurl.
  assert (Halbum : exists album,
             getAlbum P (store Sample.no_url) "a" = Some album
             /\ images album
                = [{| url := JStr ""; thumb := JStr "";
                      aspectRatio := 1.5%float;
                      width := JNum 0%float; height := JNum 0%float |}]).
  { eexists. split; reflexivity. }
  destruct Halbum as (album & Halbum & Himgs).
  split.
  - rewrite Halbum. simpl. now rewrite Himgs.
  - eapply (deleteImage_invalid_url P "a" "0" Sample.no_url album 0).
    + exact Halbum.
    + reflexivity.
    + rewrite Himgs. reflexivity.
    + unfold pathname. simpl. now rewrite Hurl.
Qed.

Lemma deleteImage_keeps_image_without_url_witness :
  URL_pathname Demo.platform "" = None
  /\ deleteImage Demo.platform "a" "0" Sample.no_url
     = (Sample.no_url, Failed InvalidURL).
Proof.
  split; [reflexivity|].
  apply (deleteImage_keeps_image_without_url Demo.platform). reflexivity.
Defined.

(** The handler that deletes a whole album parses the same URLs inside its
    [try] block: on the same album it goes on and removes both files. *)
Example deleteAlbum_without_url :
  deleteAlbum Demo.platform "a" Sample.no_url
  = ({| store := {| posts := []; data := [] |}; remote := [] |},
     Success "Album deleted").
Proof. reflexivity. Qed.

(** * Further properties *)

(** ** Adding images *)

(** [X1] A successful addition to an album of L images rewrites the
    descriptor as the L images followed by one image per submitted file, in
    submission order; the k-th new file is uploaded, and its image named,
    under the number L + k, which depends on the current count only and
    is written, below 1000, with three digits: hundreds, tens, units;
    [totalImages] is L plus the number of files, and the posts are not
    touched. *)
Theorem addImages_appends (P : Platform) (s : string) (files : list File)
    (w w' : World) (msg : string) (total : nat) :
  addImages P s files w = (w', Added msg total) ->
  exists album added,
    getAlbum P (store w) s = Some album
    /\ dir_read (jsonFile album) (data (store w'))
       = Some (Some (stringify_images (map Some (images album ++ added))))
    /\ List.length added = List.length files
    /\ total = (List.length (images album) + List.length files)%nat
    /\ posts (store w') = posts (store w)
    /\ forall k file,
         nth_error files k = Some file ->
         let n := padStart3 (of_Z (Z.of_nat (List.length (images album) + k))) in
         exists img,
           nth_error added k = Some img
           /\ url img = JStr (getCdnUrl P (slug album +++ "/img" +++ n +++ ".jpg"))
           /\ thumb img
              = JStr (getCdnUrl P (slug album +++ "/thumb/img" +++ n +++ ".webp"))
           /\ In (Upload (slug album +++ "/img" +++ n +++ ".jpg")
                    (original_buffer P file) "image/jpeg") (remote w')
           /\ ((List.length (images album) + k < 1000)%nat ->
               n = three_digits (List.length (images album) + k)).
Proof.
  unfold addImages.
  destruct (getAlbum P (store w) s) as [album|]; [|discriminate].
  destruct (upload_images P (slug album)
              (Z.of_nat (List.length (images album))) files (remote w))
    as [r [added|e]] eqn:Hup; [|discriminate].
  intros H. inversion H; subst; clear H.
  destruct (upload_images_done _ _ _ _ _ _ _ Hup) as [Hlen Hnth].
  exists album, added. cbn [store data posts with_data remote].
  rewrite dir_read_write_same.
  repeat split; auto.
  - rewrite length_app. lia.
  - intros k file Hfile. cbn zeta.
    destruct (Hnth k file Hfile) as (img & Himg & r1 & r2 & Hdone & Hincl).
    apply upload_image_done
      in Hdone as (m & tb & _ & _ & _ & Hurl & Hthumb & _ & _ & Hr2).
    replace (Z.of_nat (List.length (images album)) + Z.of_nat k)
      with (Z.of_nat (List.length (images album) + k)) in * by lia.
    exists img. repeat split; auto.
    + apply Hincl. rewrite Hr2. apply in_or_app. right. left. reflexivity.
    + apply padStart3_digits.
Qed.

Lemma addImages_appends_witness :
  let w := Sample.two_images in
  let w' := fst (addImages Demo.platform "night-city" [Sample.png1] w) in
  map (fun a => map url (images a)) (getAlbums Demo.platform (store w'))
  = [[JStr "https://cdn.example.com/night-city/img000.jpg";
      JStr "https://cdn.example.com/night-city/img001.jpg";
      JStr "https://cdn.example.com/night-city/img002.jpg"]]
  /\ exists album added,
    getAlbum Demo.platform (store w) "night-city" = Some album
    /\ dir_read (jsonFile album) (data (store w'))
       = Some (Some (stringify_images (map Some (images album ++ added))))
    /\ List.length added = 1%nat
    /\ 3%nat = (List.length (images album) + 1)%nat
    /\ posts (store w') = posts (store w)
    /\ forall k file,
         nth_error [Sample.png1] k = Some file ->
         let n := padStart3 (of_Z (Z.of_nat (List.length (images album) + k))) in
         exists img,
           nth_error added k = Some img
           /\ url img
              = JStr (getCdnUrl Demo.platform (slug album +++ "/img" +++ n +++ ".jpg"))
           /\ thumb img
              = JStr (getCdnUrl Demo.platform
                        (slug album +++ "/thumb/img" +++ n +++ ".webp"))
           /\ In (Upload (slug album +++ "/img" +++ n +++ ".jpg")
                    (original_buffer Demo.platform file) "image/jpeg")
                 (remote w')
           /\ ((List.length (images album) + k < 1000)%nat ->
               n = three_digits (List.length (images album) + k)).
Proof.
  split; [reflexivity|].
  apply (addImages_appends Demo.platform "night-city" [Sample.png1]
           Sample.two_images _ (added_message 1) 3).
  reflexivity.
Defined.

(** After the first of two images is deleted, an added file is numbered 1,
    the number the surviving image was uploaded under. *)
Example addImages_reuses_number :
  let w1 := fst (deleteImage Demo.platform "night-city" "0" Sample.two_images) in
  let w2 := fst (addImages Demo.platform "night-city" [Sample.png1] w1) in
  map (fun a => map url (images a)) (getAlbums Demo.platform (store w2))
  = [[JStr "https://cdn.example.com/night-city/img001.jpg";
      JStr "https://cdn.example.com/night-city/img001.jpg"]].
Proof. reflexivity. Qed.

(** [X2] An addition persists nothing when it fails: for an unknown slug
    the answer is 404 and the world is unchanged; when some file fails in
    the image pipeline after the files before it went through, the answer is
    500 with the error of the image processor or of the object store, and
    the posts and the descriptors are the ones the handler started with. *)
Theorem addImages_failure (P : Platform) (s : string) (files : list File)
    (w : World) :
  (getAlbum P (store w) s = None ->
   addImages P s files w = (w, NotAdded (Refused 404 "Album not found")))
  /\ (forall album pre file post imgs r1 r e,
         getAlbum P (store w) s = Some album ->
         files = pre ++ file :: post ->
         upload_images P (slug album)
           (Z.of_nat (List.length (images album))) pre (remote w)
         = (r1, Done imgs) ->
         upload_image P (slug album)
           (Z.of_nat (List.length (images album) + List.length pre)) file r1
         = (r, Throws e) ->
         addImages P s files w
         = ({| store := store w; remote := r |}, NotAdded (Failed e))
         /\ (e = SharpError \/ e = B2Error)).
Proof.
  split.
  - intros Hnone. unfold addImages. now rewrite Hnone.
  - intros album pre file post imgs r1 r e Halbum Hfiles Hpre Hfile.
    assert (Hup : upload_images P (slug album)
                    (Z.of_nat (List.length (images album))) files (remote w)
                  = (r, Throws e)).
    { apply upload_images_throws. exists pre, file, post, imgs, r1.
      repeat split; auto.
      replace (Z.of_nat (List.length (images album)) + Z.of_nat (List.length pre))
        with (Z.of_nat (List.length (images album) + List.length pre)) by lia.
      exact Hfile. }
    split.
    + unfold addImages. now rewrite Halbum, Hup.
    + eapply upload_image_throws; eauto.
Qed.

Lemma addImages_failure_witness :
  addImages Demo.platform "night-city" [Sample.png1; Sample.broken]
    Sample.two_images
  = ({| store := store Sample.two_images;
        remote := remote Sample.two_images
                  ++ [Upload "night-city/img002.jpg" [Byte.x02] "image/jpeg";
                      Upload "night-city/thumb/img002.webp" [Byte.x02]
                        "image/webp"] |},
     NotAdded (Failed SharpError)).
Proof.
  eapply (proj1 (proj2 (addImages_failure Demo.platform "night-city"
                    [Sample.png1; Sample.broken] Sample.two_images)
                  _ [Sample.png1] Sample.broken [] _ _ _ _
                  eq_refl eq_refl eq_refl eq_refl)).
Defined.

(** ** Deleting an album *)

Lemma dir_read_remove_same {A} (name : string) (d : Dir A) :
  dir_read name (dir_remove name d) = None.
Proof.
  induction d as [|[n c] d IH]; simpl; [reflexivity|].
  destruct (n =? name)%string eqn:E; simpl; [exact IH|]. now rewrite E.
Qed.

Lemma dir_read_remove_other {A} (name other : string) (d : Dir A) :
  other <> name -> dir_read other (dir_remove name d) = dir_read other d.
Proof.
  intros Hne. induction d as [|[n c] d IH]; simpl; [reflexivity|].
  destruct (n =? name)%string eqn:E; simpl.
  - apply String.eqb_eq in E. subst n.
    destruct (name =? other)%string eqn:E'; [|exact IH].
    apply String.eqb_eq in E'. congruence.
  - now rewrite IH.
Qed.

Lemma readdir_remove {A} (name : string) (d : Dir A) :
  ~ In name (readdir (dir_remove name d)).
Proof.
  induction d as [|[n c] d IH]; simpl; [tauto|].
  destruct (n =? name)%string eqn:E; simpl; [exact IH|].
  apply String.eqb_neq in E. intros [H|H]; [congruence | tauto].
Qed.

(** The deletions of the loop are the only calls it makes, two at most for
    each image, and it never throws. *)
Lemma delete_remote_images_calls (P : Platform) (imgs : list Image) :
  forall r,
    exists ext,
      delete_remote_images P imgs r = (r ++ ext, Done tt)
      /\ forallb is_delete ext = true
      /\ (List.length ext <= 2 * List.length imgs)%nat.
Proof.
  induction imgs as [|image imgs IH]; intros r.
  - exists []. simpl. now rewrite app_nil_r.
  - cbn [delete_remote_images]. unfold bind at 1.
    assert (Hturn : exists ext1,
               best_effort
                 (urlPath <- lift (pathname P (url image)) ;;
                  thumbPath <- lift (pathname P (thumb image)) ;;
                  _ <- deleteFromB2 P (original_key urlPath) ;;
                  deleteFromB2 P (thumb_key thumbPath)) r
               = (r ++ ext1, Done tt)
               /\ forallb is_delete ext1 = true
               /\ (List.length ext1 <= 2)%nat).
    { unfold best_effort, bind, lift, deleteFromB2. cbv beta.
      destruct (pathname P (url image)) as [urlPath|e];
        [|exists []; simpl; rewrite app_nil_r; repeat split; lia].
      destruct (pathname P (thumb image)) as [thumbPath|e];
        [|exists []; simpl; rewrite app_nil_r; repeat split; lia].
      cbv beta iota.
      destruct (b2_delete P r (original_key urlPath)); cbv beta iota.
      - exists [Delete (original_key urlPath); Delete (thumb_key thumbPath)].
        simpl. rewrite <- app_assoc. simpl. repeat split; lia.
      - exists [Delete (original_key urlPath)]. simpl. repeat split; lia. }
    destruct Hturn as (ext1 & -> & Hd1 & Hl1).
    destruct (IH (r ++ ext1)) as (ext2 & -> & Hd2 & Hl2).
    exists (ext1 ++ ext2). rewrite app_assoc.
    split; [reflexivity|]. split.
    + now rewrite forallb_app, Hd1, Hd2.
    + rewrite length_app. simpl List.length. lia.
Qed.

(** [X3] Deleting an existing album always succeeds, whatever the object
    store answers and whatever the stored URLs are: the post and the
    descriptor of the album are gone, every other file is untouched, the
    only remote calls added are deletions, two at most for each image, and
    no album backed by that descriptor is listed afterwards. *)
Theorem deleteAlbum_removes (P : Platform) (s : string) (w : World)
    (album : Album) :
  getAlbum P (store w) s = Some album ->
  exists w' ext,
    deleteAlbum P s w = (w', Success "Album deleted")
    /\ dir_read (postFile album) (posts (store w')) = None
    /\ dir_read (jsonFile album) (data (store w')) = None
    /\ (forall other, other <> postFile album ->
          dir_read other (posts (store w')) = dir_read other (posts (store w)))
    /\ (forall other, other <> jsonFile album ->
          dir_read other (data (store w')) = dir_read other (data (store w)))
    /\ remote w' = remote w ++ ext
    /\ forallb is_delete ext = true
    /\ (List.length ext <= 2 * List.length (images album))%nat
    /\ (forall a, In a (getAlbums P (store w')) -> jsonFile a <> jsonFile album).
Proof.
  intros Halbum. unfold deleteAlbum. rewrite Halbum.
  destruct (delete_remote_images_calls P (images album) (remote w))
    as (ext & Hcalls & Hdel & Hlen).
  rewrite Hcalls. cbn [fst].
  eexists. exists ext. split; [reflexivity|].
  cbn [store posts data remote].
  split; [apply dir_read_remove_same|].
  split; [apply dir_read_remove_same|].
  split; [intros other Hne; now apply dir_read_remove_other|].
  split; [intros other Hne; now apply dir_read_remove_other|].
  repeat split; auto.
  intros a Hin Heq.
  apply getAlbums_In in Hin as (jf & Hjf & Hload).
  apply load_album_fields in Hload as (Hjson & _).
  unfold json_files in Hjf. apply filter_In in Hjf as [Hjf _].
  cbn [data] in Hjf. rewrite <- Hjson, Heq in Hjf.
  now apply readdir_remove in Hjf.
Qed.

Lemma deleteAlbum_removes_witness :
  exists w' ext,
    deleteAlbum Demo.platform "night-city" Sample.two_images
    = (w', Success "Album deleted")
    /\ store w' = {| posts := []; data := [] |}
    /\ remote w' = remote Sample.two_images ++ ext
    /\ ext = [Delete "night-city/img000.jpg";
              Delete "night-city/thumb/img000.webp";
              Delete "night-city/img001.jpg";
              Delete "night-city/thumb/img001.webp"].
Proof.
  destruct (deleteAlbum_removes Demo.platform "night-city" Sample.two_images
              _ eq_refl) as (w' & ext & Hrun & _).
  eexists. eexists. split; [reflexivity|]. repeat split.
Defined.

(** ** Deleting one image *)

(** [X4] Deleting the image at a valid index whose two URLs parse always
    rewrites the descriptor, whatever the object store answers: the
    descriptor holds the other images in their order, one entry fewer, and
    the posts are untouched. The deletion of the original is attempted
    first; the deletion of the thumbnail is attempted only when the first
    one did not fail. *)
Theorem deleteImage_best_effort (P : Platform) (s index : string) (w : World)
    (album : Album) (i : Z) (image : Image) (urlPath thumbPath : string) :
  getAlbum P (store w) s = Some album ->
  parseInt index = Some i ->
  at_index (images album) i = Some image ->
  pathname P (url image) = Done urlPath ->
  pathname P (thumb image) = Done thumbPath ->
  let w' := fst (deleteImage P s index w) in
  snd (deleteImage P s index w) = Success "Image deleted"
  /\ dir_read (jsonFile album) (data (store w'))
     = Some (Some (stringify_images
                     (map Some
                        (firstn (Z.to_nat i) (images album)
                         ++ skipn (S (Z.to_nat i)) (images album)))))
  /\ S (List.length (firstn (Z.to_nat i) (images album)
                     ++ skipn (S (Z.to_nat i)) (images album)))
     = List.length (images album)
  /\ posts (store w') = posts (store w)
  /\ remote w'
     = remote w
       ++ Delete (original_key urlPath)
          :: (if b2_delete P (remote w) (original_key urlPath)
              then [Delete (thumb_key thumbPath)] else []).
Proof.
  intros Halbum Hindex Himage Hurl Hthumb.
  assert (Hrange : 0 <= i < Z.of_nat (List.length (images album))).
  { unfold at_index in Himage. destruct (i <? 0) eqn:E; [discriminate|].
    apply Z.ltb_ge in E.
    assert (Z.to_nat i < List.length (images album))%nat
      by (apply nth_error_Some; congruence).
    lia. }
  unfold deleteImage. rewrite Halbum, Hindex.
  replace ((i <? 0) || (Z.of_nat (List.length (images album)) <=? i))
    with false by (symmetry; apply orb_false_iff; split; lia).
  rewrite Himage, Hurl, Hthumb.
  cbn [fst snd store data posts with_data remote].
  rewrite dir_read_write_same, remove_at_split by lia.
  repeat split.
  - rewrite <- remove_at_split by lia. now apply remove_at_length.
  - unfold best_effort, bind, deleteFromB2. cbv beta.
    destruct (b2_delete P (remote w) (original_key urlPath)); cbv beta iota;
      cbn [fst]; rewrite <- ?app_assoc; reflexivity.
Qed.

Lemma deleteImage_best_effort_witness :
  let w := Sample.two_images in
  let w' := fst (deleteImage Demo.platform "night-city" "1" w) in
  snd (deleteImage Demo.platform "night-city" "1" w) = Success "Image deleted"
  /\ map (fun a => map url (images a)) (getAlbums Demo.platform (store w'))
     = [[JStr "https://cdn.example.com/night-city/img000.jpg"]]
  /\ remote w'
     = remote w ++ [Delete "night-city/img001.jpg";
                    Delete "night-city/thumb/img001.webp"].
Proof.
  destruct (deleteImage_best_effort Demo.platform "night-city" "1"
              Sample.two_images _ 1 _ _ _ eq_refl eq_refl eq_refl
              eq_refl eq_refl) as (Hok & _ & _ & _ & Hremote).
  split; [exact Hok|]. split; [reflexivity|]. exact Hremote.
Defined.

(** ** Remote names *)

Lemma split_no_sep (c : ascii) (s : string) :
  has_char c s = false -> split c s = [s].
Proof.
  induction s as [|d s IH]; simpl; [reflexivity|].
  intros H. apply orb_false_iff in H as [Hd Hs].
  rewrite Hd, (IH Hs). reflexivity.
Qed.

Lemma split_nonempty (c : ascii) (s : string) : split c s <> [].
Proof.
  destruct s as [|d s]; simpl; [discriminate|].
  destruct (Ascii.eqb d c); [discriminate|].
  destruct (split c s); discriminate.
Qed.

(** Splitting at a separator that stands between two strings. *)
Lemma split_append (c : ascii) (a b : string) :
  split c (a +++ String c b) = split c a ++ split c b.
Proof.
  induction a as [|d a IH]; simpl.
  - now rewrite Ascii.eqb_refl.
  - destruct (Ascii.eqb d c); [now rewrite IH|].
    rewrite IH.
    destruct (split c a) as [|piece rest] eqn:E; [|reflexivity].
    now apply split_nonempty in E.
Qed.

Lemma last_n_app {A} (l tail : list A) :
  last_n (List.length tail) (l ++ tail) = tail.
Proof.
  unfold last_n. rewrite length_app.
  replace (List.length l + List.length tail - List.length tail)%nat
    with (List.length l + 0)%nat by lia.
  rewrite skipn_app, Nat.add_0_r, skipn_all.
  replace (List.length l - List.length l)%nat with 0%nat by lia.
  reflexivity.
Qed.

(** [X5] The remote names derived from a stored path are the names the
    files were uploaded under: for a slug and a file name without a slash,
    the last two segments of [.../{slug}/{file}] give [{slug}/{file}] and
    the last three segments of [.../{slug}/thumb/{file}] give
    [{slug}/thumb/{file}], whatever precedes them in the path (nothing on
    the CDN, the bucket prefix otherwise). *)
Theorem keys_of_stored_paths (base slug file thumbFile : string) :
  has_char "/" slug = false ->
  has_char "/" file = false ->
  has_char "/" thumbFile = false ->
  original_key (base +++ "/" +++ slug +++ "/" +++ file) = slug +++ "/" +++ file
  /\ thumb_key (base +++ "/" +++ slug +++ "/thumb/" +++ thumbFile)
     = slug +++ "/thumb/" +++ thumbFile.
Proof.
  intros Hslug Hfile Hthumb. unfold original_key, thumb_key. split.
  - change (base +++ "/" +++ slug +++ "/" +++ file)
      with (base +++ String "/" (slug +++ String "/" file)).
    rewrite !split_append, (split_no_sep _ _ Hslug), (split_no_sep _ _ Hfile).
    change ([slug] ++ [file]) with [slug; file].
    pose proof (last_n_app (split "/" base) [slug; file]) as Hlast.
    cbn [List.length] in Hlast. now rewrite Hlast.
  - change (base +++ "/" +++ slug +++ "/thumb/" +++ thumbFile)
      with (base +++ String "/"
              (slug +++ String "/" ("thumb" +++ String "/" thumbFile))).
    rewrite !split_append, (split_no_sep _ _ Hslug), (split_no_sep _ _ Hthumb).
    change (split "/" "thumb") with ["thumb"].
    change ([slug] ++ ["thumb"] ++ [thumbFile]) with [slug; "thumb"; thumbFile].
    pose proof (last_n_app (split "/" base) [slug; "thumb"; thumbFile]) as Hlast.
    cbn [List.length] in Hlast. now rewrite Hlast.
Qed.

Lemma keys_of_stored_paths_witness :
  original_key "/file/photos/night-city/img007.jpg" = "night-city/img007.jpg"
  /\ thumb_key "/file/photos/night-city/thumb/img007.webp"
     = "night-city/thumb/img007.webp".
Proof.
  apply (keys_of_stored_paths "/file/photos" "night-city" "img007.jpg"
           "img007.webp"); reflexivity.
Defined.

(** ** The album order *)

Lemma collect_ext {A B} (f g : A -> option B) (l : list A) :
  (forall x, In x l -> f x = g x) -> collect f l = collect g l.
Proof.
  induction l as [|x l IH]; intros H; simpl; [reflexivity|].
  rewrite (H x) by (now left).
  rewrite IH by (intros y Hy; apply H; now right).
  reflexivity.
Qed.

Lemma json_files_saveAlbumOrder (order : list json) (st : Store) :
  json_files (saveAlbumOrder order st) = json_files st.
Proof.
  unfold json_files, saveAlbumOrder. cbn [data with_data].
  rewrite readdir_write. destruct (dir_exists ALBUM_ORDER (data st)).
  - reflexivity.
  - rewrite filter_app. simpl. now rewrite app_nil_r.
Qed.

Lemma json_file_not_order (st : Store) (jf : string) :
  In jf (json_files st) -> jf <> ALBUM_ORDER.
Proof.
  unfold json_files. intros H. apply filter_In in H as [_ H].
  intros ->. discriminate.
Qed.

Lemma load_albums_saveAlbumOrder (P : Platform) (order : list json) (st : Store) :
  load_albums P (saveAlbumOrder order st) = load_albums P st.
Proof.
  unfold load_albums. rewrite json_files_saveAlbumOrder.
  apply collect_ext. intros jf Hjf.
  unfold load_album, saveAlbumOrder. cbn [posts data with_data].
  rewrite dir_read_write_other by (now apply json_file_not_order with st).
  reflexivity.
Qed.


(** The order saved on the sample store holds a null and a slug no album
    has: both are accepted, and the null is dropped when the order is
    read. *)
Example save_order_tolerant :
  let w := {| store := Sample.two_albums; remote := [] |} in
  let w' := fst (post_save_order
                   (Some (JArr [JNull; JStr "ghost"; JStr "b"])) w) in
  getAlbumOrder (store w') = [JStr "ghost"; JStr "b"]
  /\ map slug (getAlbums Demo.platform (store w')) = ["b"; "a"].
Proof. split; reflexivity. Qed.

Lemma indexOf_from_notin (slugs : list string) (s : string) :
  forall i, ~ In s slugs -> indexOf_from i (map JStr slugs) s = -1.
Proof.
  induction slugs as [|x slugs IH]; intros i Hnot; simpl; [reflexivity|].
  destruct (x =? s)%string eqn:E.
  - apply String.eqb_eq in E. subst. exfalso. apply Hnot. now left.
  - apply IH. intros H. apply Hnot. now right.
Qed.

(** The index of an entry that does not occur before its position. *)
Lemma indexOf_from_at (pre post : list string) (s : string) :
  forall i,
    ~ In s pre ->
    indexOf_from i (map JStr (pre ++ s :: post)) s
    = i + Z.of_nat (List.length pre).
Proof.
  induction pre as [|x pre IH]; intros i Hnot; simpl.
  - rewrite String.eqb_refl. lia.
  - destruct (x =? s)%string eqn:E.
    + apply String.eqb_eq in E. subst. exfalso. apply Hnot. now left.
    + rewrite IH by (intros H; apply Hnot; now right). lia.
Qed.

Lemma indexOf_from_in (slugs : list string) (s : string) :
  forall i, In s slugs -> i <= indexOf_from i (map JStr slugs) s.
Proof.
  induction slugs as [|x slugs IH]; intros i Hin; simpl; [destruct Hin|].
  destruct (x =? s)%string eqn:E; [lia|].
  destruct Hin as [->|Hin]; [now rewrite String.eqb_refl in E|].
  specialize (IH (i + 1) Hin). lia.
Qed.

Lemma filter_not_null_strings (slugs : list string) :
  filter (fun v => negb (is_null v)) (map JStr slugs) = map JStr slugs.
Proof.
  induction slugs as [|x slugs IH]; simpl; [reflexivity|]. now rewrite IH.
Qed.

(** In a list without repetition the index of an entry is its position. *)
Lemma indexOf_position (pre post : list string) (s : string) :
  NoDup (pre ++ s :: post) ->
  indexOf (map JStr (pre ++ s :: post)) s = Z.of_nat (List.length pre).
Proof.
  intros Hnodup. unfold indexOf. rewrite indexOf_from_at; [lia|].
  apply NoDup_remove_2 in Hnodup. intros H. apply Hnodup.
  apply in_or_app. now left.
Qed.

Lemma indexOf_injective (slugs : list string) (x y : string) :
  NoDup slugs -> In x slugs -> In y slugs ->
  indexOf (map JStr slugs) x = indexOf (map JStr slugs) y -> x = y.
Proof.
  intros Hnodup Hx Hy Heq.
  apply in_split in Hx as (p1 & q1 & E1).
  apply in_split in Hy as (p2 & q2 & E2).
  assert (K1 : indexOf (map JStr slugs) x = Z.of_nat (List.length p1))
    by (rewrite E1; apply indexOf_position; now rewrite <- E1).
  assert (K2 : indexOf (map JStr slugs) y = Z.of_nat (List.length p2))
    by (rewrite E2; apply indexOf_position; now rewrite <- E2).
  assert (Hlen : List.length p1 = List.length p2) by lia.
  assert (N1 : nth_error slugs (List.length p1) = Some x)
    by (rewrite E1; (rewrite nth_error_app2 by lia; now rewrite Nat.sub_diag)).
  assert (N2 : nth_error slugs (List.length p2) = Some y)
    by (rewrite E2; (rewrite nth_error_app2 by lia; now rewrite Nat.sub_diag)).
  rewrite Hlen in N1. congruence.
Qed.

Lemma order_sorted_by_index (slugs : list string) :
  NoDup slugs ->
  StronglySorted
    (fun x y => indexOf (map JStr slugs) x <= indexOf (map JStr slugs) y) slugs.
Proof.
  intros Hnodup.
  assert (Hgen : forall rest pre,
             slugs = pre ++ rest ->
             StronglySorted
               (fun x y => indexOf (map JStr slugs) x
                           <= indexOf (map JStr slugs) y) rest).
  { induction rest as [|x rest IH]; intros pre Hsplit; [constructor|].
    constructor.
    - apply (IH (pre ++ [x])). now rewrite <- app_assoc.
    - apply Forall_forall. intros y Hy.
      apply in_split in Hy as (m & m' & ->).
      assert (Kx : indexOf (map JStr slugs) x = Z.of_nat (List.length pre))
        by (rewrite Hsplit; apply indexOf_position; now rewrite <- Hsplit).
      assert (Hsplit' : slugs = (pre ++ x :: m) ++ y :: m')
        by (rewrite Hsplit, <- app_assoc; reflexivity).
      assert (Ky : indexOf (map JStr slugs) y
                   = Z.of_nat (List.length (pre ++ x :: m)))
        by (rewrite Hsplit' at 1; apply indexOf_position; now rewrite <- Hsplit').
      rewrite Kx, Ky, length_app. lia. }
  apply (Hgen slugs []). reflexivity.
Qed.

(** Two sorted arrangements of the same elements are equal when no two
    distinct elements are each allowed before the other. *)
Lemma sorted_perm_unique {A} (R : A -> A -> Prop) (l1 : list A) :
  forall l2,
    (forall x y, In x l1 -> In y l1 -> R x y -> R y x -> x = y) ->
    StronglySorted R l1 -> StronglySorted R l2 -> Permutation l1 l2 ->
    l1 = l2.
Proof.
  induction l1 as [|x l1 IH]; intros l2 Hanti H1 H2 Hperm.
  - apply Permutation_nil in Hperm. now subst.
  - destruct l2 as [|y l2];
      [apply Permutation_sym, Permutation_nil in Hperm; discriminate|].
    inversion H1 as [|? ? H1' Hx]; subst.
    inversion H2 as [|? ? H2' Hy]; subst.
    assert (Exy : x = y).
    { assert (Hxin : In x (y :: l2))
        by (apply (Permutation_in _ Hperm); now left).
      assert (Hyin : In y (x :: l1))
        by (apply (Permutation_in _ (Permutation_sym Hperm)); now left).
      destruct Hxin as [->|Hxin]; [reflexivity|].
      destruct Hyin as [->|Hyin]; [reflexivity|].
      rewrite Forall_forall in Hx, Hy.
      apply Hanti; [now left | now right | now apply Hx | now apply Hy]. }
    subst y. f_equal. apply IH; auto.
    + intros a b Ha Hb. apply Hanti; now right.
    + now apply Permutation_cons_inv in Hperm.
Qed.

Lemma StronglySorted_map {A B} (f : A -> B) (R : B -> B -> Prop) (l : list A) :
  StronglySorted (fun a b => R (f a) (f b)) l -> StronglySorted R (map f l).
Proof.
  induction 1 as [|x l Hs IH Hx]; simpl; constructor; auto.
  rewrite Forall_forall in *. intros y Hy.
  apply in_map_iff in Hy as (a & <- & Ha). now apply Hx.
Qed.

(** [X7] Saving an order that lists every album's slug once makes the
    listing follow it exactly: when the saved slugs have no repetition and
    are a rearrangement of the slugs of the albums on disk, the slugs of the
    listing, in sequence, are the saved slugs, whatever the dates of the
    albums. *)
Theorem saved_order_is_listing_order (P : Platform) (slugs : list string)
    (st : Store) :
  NoDup slugs ->
  Permutation slugs (map slug (load_albums P st)) ->
  map slug (getAlbums P (saveAlbumOrder (map JStr slugs) st)) = slugs.
Proof.
  intros Hnodup Hperm.
  set (order := map JStr slugs).
  unfold getAlbums.
  rewrite load_albums_saveAlbumOrder.
  assert (Horder : getAlbumOrder (saveAlbumOrder order st) = order).
  { unfold getAlbumOrder, saveAlbumOrder. cbn [data with_data].
    rewrite dir_read_write_same. apply filter_not_null_strings. }
  rewrite Horder.
  assert (Hin : forall a, In a (load_albums P st) -> in_order order a = true).
  { intros a Ha. unfold in_order, indexOf. apply Z.leb_le.
    apply indexOf_from_in.
    apply (Permutation_in _ (Permutation_sym Hperm)).
    now apply in_map. }
  destruct order as [|o order'] eqn:Eo.
  - destruct slugs; [|discriminate].
    apply Permutation_nil in Hperm.
    destruct (load_albums P st); [reflexivity | discriminate].
  - rewrite <- Eo in *. clear Eo o order'.
    set (listed := Array_sort (by_order P order) (load_albums P st)).
    assert (Hlisted : Permutation (load_albums P st) listed)
      by apply Array_sort_perm.
    assert (HD : Forall (orderable P order) (load_albums P st)).
    { apply Forall_forall. intros a Ha. left. now apply Hin. }
    assert (Hs := Array_sort_sorted (by_order P order) (orderable P order)
                    (by_order_total P order) (by_order_trans P order) _ HD).
    fold listed in Hs.
    symmetry. apply (sorted_perm_unique
             (fun x y => indexOf order x <= indexOf order y)).
    + intros x y Hx Hy Hxy Hyx.
      apply (indexOf_injective slugs x y Hnodup Hx Hy). unfold order in *. lia.
    + now apply order_sorted_by_index.
    + apply StronglySorted_map.
      apply (StronglySorted_weaken
               (fun x y => sort_compare (by_order P order) x y <= 0) _
               (fun a => in_order order a = true)).
      * intros a b Ha Hb. rewrite (by_order_both P order a b Ha Hb). lia.
      * apply Forall_forall. intros a Ha. apply Hin.
        now apply (Permutation_in _ (Permutation_sym Hlisted)).
      * exact Hs.
    + eapply perm_trans; [exact Hperm|]. now apply Permutation_map.
Qed.

Lemma saved_order_is_listing_order_witness :
  map slug (load_albums Demo.platform Sample.two_albums) = ["b"; "a"]
  /\ map slug (getAlbums Demo.platform Sample.two_albums) = ["a"; "b"]
  /\ map slug (getAlbums Demo.platform
                 (saveAlbumOrder (map JStr ["b"; "a"]) Sample.two_albums))
     = ["b"; "a"].
Proof.
  split; [reflexivity|]. split; [reflexivity|].
  apply (saved_order_is_listing_order Demo.platform ["b"; "a"]
           Sample.two_albums).
  - repeat constructor; simpl; intuition discriminate.
  - apply Permutation_refl.
Defined.

(** ** The order page *)

Lemma indexOf_from_low (order : list json) (u : string) :
  forall j, indexOf_from j order u = -1 \/ j <= indexOf_from j order u.
Proof.
  induction order as [|v order IH]; intros j; simpl; [now left|].
  destruct v as [| | |x| |];
    try (destruct (IH (j + 1)); [now left | right; lia]).
  destruct (x =? u)%string; [right; lia|].
  destruct (IH (j + 1)); [now left | right; lia].
Qed.

(** Two slugs found at the same position of the order are the same. *)
Lemma indexOf_from_same (order : list json) (s t : string) :
  forall i,
    0 <= i ->
    i <= indexOf_from i order s ->
    indexOf_from i order s = indexOf_from i order t -> s = t.
Proof.
  induction order as [|v order IH]; intros i Hi Hs Heq; simpl in *; [lia|].
  pose proof (indexOf_from_low order s (i + 1)) as Ls.
  pose proof (indexOf_from_low order t (i + 1)) as Lt.
  destruct v as [| | |x| |];
    try (apply (IH (i + 1)); lia).
  destruct (x =? s)%string eqn:Es, (x =? t)%string eqn:Et.
  - apply String.eqb_eq in Es, Et. congruence.
  - lia.
  - lia.
  - apply (IH (i + 1)); lia.
Qed.

Lemma nth_error_set_at {A} (i : nat) (x : A) (a : list (option A)) :
  forall j y,
    nth_error (set_at i x a) j = Some (Some y) ->
    (j = i /\ y = x) \/ nth_error a j = Some (Some y).
Proof.
  revert a. induction i as [|i IH]; intros a j y H.
  - destruct a as [|h a], j as [|j]; simpl in H.
    + left. split; congruence.
    + destruct j; discriminate.
    + left. split; congruence.
    + now right.
  - destruct a as [|h a], j as [|j]; simpl in H.
    + discriminate.
    + destruct (IH [] j y H) as [[-> ->]|H']; [now left|].
      destruct j; discriminate.
    + now right.
    + destruct (IH a j y H) as [[-> ->]|H']; [now left | now right].
Qed.

Lemma compact_set_at_free {A} (i : nat) (x : A) (a : list (option A)) :
  (forall y, nth_error a i <> Some (Some y)) ->
  Permutation (compact (set_at i x a)) (x :: compact a).
Proof.
  revert a. induction i as [|i IH]; intros a Hfree.
  - destruct a as [|[y|] a]; simpl.
    + apply Permutation_refl.
    + now destruct (Hfree y).
    + apply Permutation_refl.
  - destruct a as [|[y|] a]; simpl.
    + apply (IH []). intros y. destruct i; discriminate.
    + eapply perm_trans; [apply perm_skip, (IH a)|apply perm_swap].
      intros z. apply (Hfree z).
    + apply (IH a). intros z. apply (Hfree z).
Qed.

Lemma nth_error_compact {A} (a : list (option A)) :
  forall j y, nth_error a j = Some (Some y) -> In y (compact a).
Proof.
  induction a as [|[x|] a IH]; intros [|j] y H; simpl in *;
    try discriminate.
  - left. congruence.
  - right. eauto.
  - eauto.
Qed.

Lemma NoDup_app_disjoint {A} (l l' : list A) (x : A) :
  NoDup (l ++ l') -> In x l -> In x l' -> False.
Proof.
  induction l as [|y l IH]; simpl; intros Hnodup Hl Hl'; [tauto|].
  inversion Hnodup as [|? ? Hnotin Hrest]; subst.
  destruct Hl as [->|Hl]; [|now apply IH].
  apply Hnotin. apply in_or_app. now right.
Qed.

Lemma place_albums_perm (order : list json) (albums : list Album) :
  forall ordered unordered,
    (forall j y, nth_error ordered j = Some (Some y) ->
                 indexOf order (slug y) = Z.of_nat j) ->
    NoDup (map slug (compact ordered ++ albums)) ->
    Permutation
      (compact (fst (place_albums order albums ordered unordered))
       ++ snd (place_albums order albums ordered unordered))
      (compact ordered ++ unordered ++ albums).
Proof.
  induction albums as [|album rest IH]; intros ordered unordered Hidx Hnodup.
  - simpl. now rewrite app_nil_r.
  - cbn [place_albums].
    destruct (0 <=? indexOf order (slug album)) eqn:E.
    + apply Z.leb_le in E.
      remember (Z.to_nat (indexOf order (slug album))) as j eqn:Ej.
      assert (Hfree : forall y, nth_error ordered j <> Some (Some y)).
      { intros y Hy.
        assert (Heq : slug y = slug album).
        { apply Hidx in Hy.
          apply (indexOf_from_same order (slug y) (slug album) 0);
            unfold indexOf in *; lia. }
        apply nth_error_compact in Hy.
        rewrite map_app in Hnodup.
        apply (NoDup_app_disjoint _ _ (slug album) Hnodup).
        - rewrite <- Heq. now apply in_map.
        - now left. }
      assert (Hplaced := compact_set_at_free j album ordered Hfree).
      eapply perm_trans.
      * apply IH.
        -- intros j' y Hy. apply nth_error_set_at in Hy as [[-> ->]|Hy].
           ++ lia.
           ++ now apply Hidx.
        -- apply (Permutation_NoDup (l := map slug (compact ordered ++ album :: rest)));
             [|exact Hnodup].
           apply Permutation_map.
           eapply perm_trans; [apply Permutation_sym, Permutation_middle|].
           apply Permutation_app_tail with (tl := rest) in Hplaced.
           now apply Permutation_sym.
      * apply Permutation_app_tail with (tl := unordered ++ rest) in Hplaced.
        eapply perm_trans; [exact Hplaced|]. simpl.
        eapply perm_trans; [apply Permutation_middle|].
        apply Permutation_app_head. apply Permutation_middle.
    + eapply perm_trans.
      * apply IH; [exact Hidx|].
        rewrite map_app in *. simpl in Hnodup.
        now apply NoDup_remove_1 in Hnodup.
      * rewrite <- app_assoc. reflexivity.
Qed.

(** [X8] The order page loses no album when the slugs of the listing are
    distinct: the albums handed to the view are then a rearrangement of the
    listing, the albums of the manual order placed by their position in it
    and the others appended. (Two listed albums with one slug would share a
    position, and only the later one would be shown.) *)
Theorem order_page_complete (P : Platform) (st : Store) :
  NoDup (map slug (getAlbums P st)) ->
  Permutation (order_page P st) (getAlbums P st).
Proof.
  intros Hnodup. unfold order_page.
  pose proof (place_albums_perm (getAlbumOrder st) (getAlbums P st) [] []) as H.
  destruct (place_albums (getAlbumOrder st) (getAlbums P st) [] [])
    as [ordered unordered].
  apply H.
  - intros [|j] y Hy; discriminate.
  - exact Hnodup.
Qed.

Lemma order_page_complete_witness :
  order_page Demo.platform Sample.two_albums_ordered
  = getAlbums Demo.platform Sample.two_albums_ordered
  /\ Permutation (order_page Demo.platform Sample.two_albums_ordered)
       (getAlbums Demo.platform Sample.two_albums_ordered).
Proof.
  split; [reflexivity|].
  apply (order_page_complete Demo.platform Sample.two_albums_ordered).
  repeat constructor; simpl; intuition discriminate.
Defined.

(** ** Reading a descriptor: edge cases *)


(** Entries that are not objects read as images made of the defaults. *)
Example read_images_odd_entries :
  read_images Demo.platform
    (Some (Some (JArr [JStr "x"; JNum 7%float; JBool true; JArr []])))
  = repeat {| url := JStr ""; thumb := JStr ""; aspectRatio := 1.5%float;
              width := JNum 0%float; height := JNum 0%float |} 4.
Proof. reflexivity. Qed.

(** ** Reordering: what is read afterwards *)

Lemma at_index_seq {A} (l : list A) :
  forall pre,
    map (at_index (pre ++ l))
        (map Z.of_nat (seq (List.length pre) (List.length l)))
    = map Some l.
Proof.
  induction l as [|x l IH]; intros pre; simpl; [reflexivity|].
  f_equal.
  - unfold at_index.
    replace (Z.of_nat (List.length pre) <? 0) with false
      by (symmetry; apply Z.ltb_ge; lia).
    rewrite Nat2Z.id, nth_error_app2 by lia. now rewrite Nat.sub_diag.
  - specialize (IH (pre ++ [x])).
    rewrite <- app_assoc, length_app in IH. simpl in IH.
    now rewrite Nat.add_1_r in IH.
Qed.

(** [X10] Reordering with an order that is a rearrangement of the
    positions 0 .. L-1 loses no image and adds none: the descriptor written
    holds the images of the album, rearranged, and each position named in
    the order is a valid index. *)
Theorem reorderImages_permutation (P : Platform) (s : string) (w : World)
    (album : Album) (order : list Z) :
  getAlbum P (store w) s = Some album ->
  Permutation order
    (map Z.of_nat (seq 0 (List.length (images album)))) ->
  exists imgs,
    Permutation imgs (images album)
    /\ map (at_index (images album)) order = map Some imgs
    /\ dir_read (jsonFile album)
         (data (store (fst (reorderImages P s (Some order) w))))
       = Some (Some (stringify_images (map Some imgs))).
Proof.
  intros Halbum Hperm.
  assert (Hmap : Permutation (map (at_index (images album)) order)
                   (map Some (images album))).
  { rewrite <- (at_index_seq (images album) []). simpl.
    now apply Permutation_map. }
  apply Permutation_map_inv in Hmap as (imgs & Heq & Himgs).
  exists imgs. split; [now apply Permutation_sym|]. split; [exact Heq|].
  unfold reorderImages. rewrite Halbum. cbn [fst store data with_data].
  now rewrite dir_read_write_same, Heq.
Qed.

Lemma reorderImages_permutation_witness :
  let w := Sample.three_images in
  exists album imgs,
    getAlbum Demo.platform (store w) "night-city" = Some album
    /\ Permutation imgs (images album)
    /\ map (at_index (images album)) [2; 0; 1] = map Some imgs
    /\ dir_read (jsonFile album)
         (data (store (fst (reorderImages Demo.platform "night-city"
                              (Some [2; 0; 1]) w))))
       = Some (Some (stringify_images (map Some imgs))).
Proof.
  eexists.
  destruct (reorderImages_permutation Demo.platform "night-city"
              Sample.three_images _ [2; 0; 1] eq_refl) as (imgs & H).
  - simpl. apply Permutation_sym.
    eapply perm_trans; [apply perm_skip, perm_swap | apply perm_swap].
  - exists imgs. split; [reflexivity | exact H].
Defined.

(** [X11] Reordering with an index outside the list damages the album:
    the missing entry is written as null, and from then on the descriptor
    reads as no image at all, so every listed album backed by it has an
    empty image list and an image count of 0, although the descriptor still
    holds the entries of the valid indices. *)
Theorem reorderImages_out_of_range_empties (P : Platform) (s : string)
    (w : World) (album : Album) (order : list Z) (i : Z) :
  getAlbum P (store w) s = Some album ->
  In i order ->
  at_index (images album) i = None ->
  let w' := fst (reorderImages P s (Some order) w) in
  snd (reorderImages P s (Some order) w) = Success "Images reordered"
  /\ read_images P (dir_read (jsonFile album) (data (store w'))) = []
  /\ (forall a, In a (getAlbums P (store w')) ->
                jsonFile a = jsonFile album ->
                images a = [] /\ imageCount a = 0%nat).
Proof.
  intros Halbum Hin Hnone. cbn zeta.
  unfold reorderImages. rewrite Halbum. cbn [fst snd store data with_data].
  assert (Hread : read_images P
                    (dir_read (jsonFile album)
                       (dir_write (jsonFile album)
                          (Some (stringify_images
                                   (map (at_index (images album)) order)))
                          (data (store w)))) = []).
  { rewrite dir_read_write_same. unfold stringify_images, read_images.
    rewrite normalize_all_null; [reflexivity|].
    apply existsb_exists. exists JNull. split; [|reflexivity].
    apply in_map_iff. exists None. split; [reflexivity|].
    apply in_map_iff. exists i. auto. }
  split; [reflexivity|]. split; [exact Hread|].
  intros a Ha Hjson.
  apply getAlbums_In in Ha as (jf & _ & Hload).
  apply load_album_fields in Hload as (Hjf & _ & Himgs & Hcount).
  cbn [data with_data] in Himgs.
  rewrite <- Hjf, Hjson, Hread in Himgs.
  rewrite Hcount, Himgs. auto.
Qed.

Lemma reorderImages_out_of_range_empties_witness :
  let w := Sample.three_images in
  let w' := fst (reorderImages Demo.platform "night-city" (Some [0; 3]) w) in
  map imageCount (getAlbums Demo.platform (store w)) = [3%nat]
  /\ map imageCount (getAlbums Demo.platform (store w')) = [0%nat]
  /\ read_images Demo.platform (dir_read "night-city.json" (data (store w')))
     = [].
Proof.
  split; [reflexivity|]. split; [reflexivity|].
  apply (reorderImages_out_of_range_empties Demo.platform "night-city"
           Sample.three_images _ [0; 3] 3 eq_refl).
  - right. now left.
  - reflexivity.
Defined.

(** ** What every listed album satisfies *)

Lemma prefix_append_l (a b s : string) :
  String.prefix (a +++ b) s = true -> String.prefix a s = true.
Proof.
  revert s. induction a as [|c a IH]; intros s; simpl; [now destruct s|].
  destruct s as [|d s]; [discriminate|]. simpl.
  destruct (Ascii.ascii_dec c d); [apply IH | discriminate].
Qed.

Lemma load_album_files (P : Platform) (st : Store) (jf : string) (a : Album) :
  load_album P st jf = Some a ->
  In (postFile a) (readdir (posts st))
  /\ endsWith (slug a +++ ".md") (postFile a) = true
  /\ exists content block,
       dir_read (postFile a) (posts st) = Some content
       /\ front_matter_block content = Some block
       /\ String.prefix "---" content = true.
Proof.
  unfold load_album.
  destruct (filter _ _) as [|pf rest] eqn:Hfilter; [discriminate|].
  destruct (dir_read pf (posts st)) as [content|] eqn:Hread; [|discriminate].
  destruct (front_matter_block content) as [block|] eqn:Hblock; [|discriminate].
  intros H. injection H as <-. cbn [postFile slug].
  assert (Hin : In pf (filter (endsWith (replace_first ".json" "" jf +++ ".md"))
                         (readdir (posts st))))
    by (rewrite Hfilter; now left).
  apply filter_In in Hin as [Hin Hends].
  split; [exact Hin|]. split; [exact Hends|].
  exists content, block. repeat split; auto.
  unfold front_matter_block in Hblock.
  destruct (String.prefix ("---" +++ crnl) content) eqn:E1;
    [now apply prefix_append_l in E1|].
  destruct (String.prefix ("---" +++ nl) content) eqn:E2;
    [now apply prefix_append_l in E2 | discriminate].
Qed.

(** [X12] Every album of the listing is backed by a descriptor and a post
    that exist: its JSON file is a file of the data directory whose name
    ends with .json and does not start with an underscore (the order file
    is never listed as an album), its slug is that name without its first
    .json, its post is a file of the posts directory whose name ends with
    the slug and .md and whose content opens a front-matter block, its
    images are the descriptor as read, and its image count is their
    number. *)
Theorem listed_album_invariants (P : Platform) (st : Store) (a : Album) :
  In a (getAlbums P st) ->
  In (jsonFile a) (readdir (data st))
  /\ endsWith ".json" (jsonFile a) = true
  /\ startsWith "_" (jsonFile a) = false
  /\ jsonFile a <> ALBUM_ORDER
  /\ slug a = replace_first ".json" "" (jsonFile a)
  /\ In (postFile a) (readdir (posts st))
  /\ endsWith (slug a +++ ".md") (postFile a) = true
  /\ (exists content block,
         dir_read (postFile a) (posts st) = Some content
         /\ front_matter_block content = Some block
         /\ String.prefix "---" content = true)
  /\ images a = read_images P (dir_read (jsonFile a) (data st))
  /\ imageCount a = List.length (images a).
Proof.
  intros Hin. apply getAlbums_In in Hin as (jf & Hjf & Hload).
  destruct (load_album_fields P st jf a Hload) as (Hjson & Hslug & Himgs & Hcount).
  destruct (load_album_files P st jf a Hload) as (Hpost & Hends & Hblock).
  pose proof (json_file_not_order st jf Hjf) as Hnot.
  unfold json_files in Hjf. apply filter_In in Hjf as [Hdir Hname].
  apply andb_true_iff in Hname as [Hext Hunder].
  apply negb_true_iff in Hunder.
  rewrite Hjson. repeat split; auto.
Qed.

Lemma listed_album_invariants_witness :
  exists a,
    getAlbums Demo.platform (store Sample.two_images) = [a]
    /\ jsonFile a = "night-city.json"
    /\ postFile a = "2024-01-02-night-city.md"
    /\ slug a = replace_first ".json" "" (jsonFile a)
    /\ imageCount a = List.length (images a).
Proof.
  eexists. split; [reflexivity|]. split; [reflexivity|]. split; [reflexivity|].
  match goal with
  | |- slug ?a = _ /\ _ =>
      destruct (listed_album_invariants Demo.platform
                  (store Sample.two_images) a (or_introl eq_refl))
        as (_ & _ & _ & _ & Hslug & _ & _ & _ & _ & Hcount)
  end.
  split; [exact Hslug | exact Hcount].
Defined.

(** ** Authorization of the object store *)

Import B2Auth.

(** [X13] An authorization is reused until it expires, and every refresh
    restarts the 23 hours. When a call returns an authorization, the state
    holds it, and every later call without forced refresh made no later
    than the stored expiry returns the same authorization and the same
    state without consulting the service. When the call had to refresh
    (it was forced, nothing was held, or the time of the call is past the
    stored expiry), the expiry is 23 hours after the time of the call, the
    authorization is the one the service gave and a bucket id is held;
    when it had not to, the state is left as it was. A call that fails
    because the service rejects the authorization leaves the state as it
    was. *)
Theorem authorizeB2_reuse (bucket_id bucket_name : string) (svc : Service)
    (now : Z) (forceRefresh : bool) (st st1 : AuthState) :
  (forall d,
      authorizeB2 bucket_id bucket_name svc now forceRefresh st
      = (st1, Authorized d) ->
      b2AuthData st1 = Some d
      /\ (forall svc2 later,
             later <= b2AuthExpiry st1 ->
             authorizeB2 bucket_id bucket_name svc2 later false st1
             = (st1, Authorized d))
      /\ (forceRefresh = true \/ b2AuthData st = None
          \/ b2AuthExpiry st < now ->
          b2AuthExpiry st1 = now + 23 * 60 * 60 * 1000
          /\ authorize svc = Some d
          /\ b2BucketId st1 <> None)
      /\ (forceRefresh = false -> b2AuthData st <> None ->
          now <= b2AuthExpiry st ->
          st1 = st))
  /\ (authorizeB2 bucket_id bucket_name svc now forceRefresh st
      = (st1, AuthorizeRejected) ->
      st1 = st /\ authorize svc = None).
Proof.
  assert (Hcached : forall s e, b2AuthData s = Some e ->
             forall svc2 later, later <= b2AuthExpiry s ->
               authorizeB2 bucket_id bucket_name svc2 later false s
               = (s, Authorized e)).
  { intros s e Hs svc2 later Hl. unfold authorizeB2. rewrite Hs.
    replace (b2AuthExpiry s <? later) with false
      by (symmetry; apply Z.ltb_ge; lia).
    reflexivity. }
  assert (Hfresh : forall d id,
             let s := {| b2AuthData := Some d; b2BucketId := Some id;
                         b2AuthExpiry := now + HOURS_23 |} in
             authorize svc = Some d ->
             (forceRefresh = false -> b2AuthData st <> None ->
              now <= b2AuthExpiry st -> False) ->
             b2AuthData s = Some d
             /\ (forall svc2 later,
                    later <= b2AuthExpiry s ->
                    authorizeB2 bucket_id bucket_name svc2 later false s
                    = (s, Authorized d))
             /\ (forceRefresh = true \/ b2AuthData st = None
                 \/ b2AuthExpiry st < now ->
                 b2AuthExpiry s = now + 23 * 60 * 60 * 1000
                 /\ authorize svc = Some d
                 /\ b2BucketId s <> None)
             /\ (forceRefresh = false -> b2AuthData st <> None ->
                 now <= b2AuthExpiry st ->
                 s = st)).
  { intros d id s Hauth Hwhy. split; [reflexivity|].
    split; [now apply Hcached|]. split.
    - intros _. split; [reflexivity|]. split; [exact Hauth | discriminate].
    - intros H1 H2 H3. destruct (Hwhy H1 H2 H3). }
  split.
  - intros d Hcall. unfold authorizeB2 in Hcall.
    destruct (b2AuthData st) as [d0|] eqn:Hheld;
      [destruct ((b2AuthExpiry st <? now) || forceRefresh) eqn:Hstale|].
    2:{ injection Hcall as <- <-.
        apply orb_false_iff in Hstale as [Hexp ->].
        apply Z.ltb_ge in Hexp.
        split; [exact Hheld|]. split; [now apply Hcached|].
        split; [|reflexivity].
        intros [H|[H|H]]; [discriminate | discriminate | lia]. }
    1: assert (Hwhy : forceRefresh = false -> Some d0 <> None ->
                      now <= b2AuthExpiry st -> False)
      by (intros H1 _ H3; subst forceRefresh; rewrite orb_false_r in Hstale;
          apply Z.ltb_lt in Hstale; lia).
    2: assert (Hwhy : forceRefresh = false -> @None AuthData <> None ->
                      now <= b2AuthExpiry st -> False)
      by (intros _ H2 _; now apply H2).
    all: destruct (authorize svc) as [d1|] eqn:Hauth; [|discriminate];
      destruct (negb (bucket_id =? "")%string);
      [injection Hcall as <- <-; exact (Hfresh _ _ eq_refl Hwhy)|];
      destruct (listBuckets svc) as [buckets|]; [|discriminate];
      destruct (find _ buckets) as [b|]; [|discriminate];
      injection Hcall as <- <-; exact (Hfresh _ _ eq_refl Hwhy).
  - intros Hcall. unfold authorizeB2 in Hcall.
    destruct (b2AuthData st) as [d0|] eqn:Hheld;
      [destruct ((b2AuthExpiry st <? now) || forceRefresh); [|discriminate]|].
    all: destruct (authorize svc) as [d1|] eqn:Hauth;
      [destruct (negb (bucket_id =? "")%string); [discriminate|];
       destruct (listBuckets svc) as [buckets|]; [|discriminate];
       destruct (find _ buckets); discriminate
      |injection Hcall as <-; auto].
Qed.

(** A first authorization at time 1000; a call at its expiry reuses it
    although the service is down; one millisecond later the call refreshes,
    and the new authorization expires 23 hours after that call. *)
Lemma authorizeB2_reuse_witness :
  let svc := {| authorize := Some (Authorization "t1");
                listBuckets := Some [("other", "id0"); ("photos", "id1")] |} in
  let svc2 := {| authorize := Some (Authorization "t2");
                 listBuckets := Some [("photos", "id1")] |} in
  let down := {| authorize := None; listBuckets := None |} in
  let st1 := fst (authorizeB2 "" "photos" svc 1000 false initial) in
  let st2 := fst (authorizeB2 "" "photos" svc2 82801001 false st1) in
  st1 = {| b2AuthData := Some (Authorization "t1");
           b2BucketId := Some "id1";
           b2AuthExpiry := 82801000 |}
  /\ authorizeB2 "" "photos" down 82801000 false st1
     = (st1, Authorized (Authorization "t1"))
  /\ authorizeB2 "" "photos" down 82801001 false st1
     = (st1, AuthorizeRejected)
  /\ st2 = {| b2AuthData := Some (Authorization "t2");
              b2BucketId := Some "id1";
              b2AuthExpiry := 165601001 |}
  /\ (b2AuthExpiry st2 = 82801001 + 23 * 60 * 60 * 1000
      /\ authorize svc2 = Some (Authorization "t2")
      /\ b2BucketId st2 <> None).
Proof.
  cbn zeta. split; [reflexivity|]. split; [|split; [reflexivity|]].
  - apply (proj1 (proj2 (proj1 (authorizeB2_reuse "" "photos"
                                  {| authorize := Some (Authorization "t1");
                                     listBuckets := Some [("other", "id0");
                                                          ("photos", "id1")] |}
                                  1000 false initial _) _ eq_refl))).
    vm_compute. discriminate.
  - split; [reflexivity|].
    apply (proj1 (proj2 (proj2 (proj1 (authorizeB2_reuse "" "photos"
                                  {| authorize := Some (Authorization "t2");
                                     listBuckets := Some [("photos", "id1")] |}
                                  82801001 false
                                  {| b2AuthData := Some (Authorization "t1");
                                     b2BucketId := Some "id1";
                                     b2AuthExpiry := 82801000 |} _)
                                  _ eq_refl)))).
    right. right. vm_compute. reflexivity.
Defined.

(** [X14] A failed bucket lookup is not retried. When no bucket id is
    configured and the lookup fails (the listing is rejected, or no bucket
    has the configured name), the call fails, yet the authorization and its
    expiry have already been stored and the bucket id is left as it was:
    every call without forced refresh in the next 23 hours then succeeds
    without looking the bucket up again, with no bucket id held if none was
    held before. *)
Theorem authorizeB2_bucket_lookup_not_retried (bucket_name : string)
    (svc : Service) (now : Z) (forceRefresh : bool) (st st1 : AuthState) :
  authorizeB2 "" bucket_name svc now forceRefresh st = (st1, BucketIdRequired) ->
  exists d,
    authorize svc = Some d
    /\ (listBuckets svc = None
        \/ exists buckets,
             listBuckets svc = Some buckets
             /\ forall b, In b buckets -> fst b <> bucket_name)
    /\ st1 = {| b2AuthData := Some d;
                b2BucketId := b2BucketId st;
                b2AuthExpiry := now + 23 * 60 * 60 * 1000 |}
    /\ forall svc2 later,
         later <= now + 23 * 60 * 60 * 1000 ->
         authorizeB2 "" bucket_name svc2 later false st1 = (st1, Authorized d).
Proof.
  intros Hcall.
  assert (Hrefresh :
            match authorize svc with
            | None => False
            | Some d =>
                match listBuckets svc with
                | None => True
                | Some buckets =>
                    find (fun b => (fst b =? bucket_name)%string) buckets = None
                end
                /\ st1 = {| b2AuthData := Some d;
                            b2BucketId := b2BucketId st;
                            b2AuthExpiry := now + 23 * 60 * 60 * 1000 |}
            end).
  { unfold authorizeB2 in Hcall. cbn [negb String.eqb] in Hcall.
    destruct (b2AuthData st) as [d0|];
      [destruct ((b2AuthExpiry st <? now) || forceRefresh); [|discriminate]|];
      (destruct (authorize svc) as [d|]; [|discriminate]);
      (destruct (listBuckets svc) as [buckets|];
       [destruct (find _ buckets) eqn:Hfind; [discriminate|]|]);
      injection Hcall as <-; auto. }
  destruct (authorize svc) as [d|]; [|destruct Hrefresh].
  destruct Hrefresh as [Hlookup ->].
  exists d. split; [reflexivity|]. split; [|split; [reflexivity|]].
  - destruct (listBuckets svc) as [buckets|]; [right | now left].
    exists buckets. split; [reflexivity|]. intros b Hb Hname.
    apply (find_none _ _ Hlookup) in Hb. cbn beta in Hb.
    apply String.eqb_neq in Hb. contradiction.
  - intros svc2 later Hlater. unfold authorizeB2. cbn [b2AuthData b2AuthExpiry].
    replace (now + 23 * 60 * 60 * 1000 <? later) with false
      by (symmetry; apply Z.ltb_ge; unfold HOURS_23 in *; lia).
    reflexivity.
Qed.

Lemma authorizeB2_bucket_lookup_not_retried_witness :
  let svc := {| authorize := Some (Authorization "t1");
                listBuckets := Some [("other", "id0")] |} in
  let st1 := {| b2AuthData := Some (Authorization "t1");
                b2BucketId := None;
                b2AuthExpiry := 82801000 |} in
  authorizeB2 "" "photos" svc 1000 false initial = (st1, BucketIdRequired)
  /\ authorizeB2 "" "photos" svc 2000 false st1
     = (st1, Authorized (Authorization "t1")).
Proof.
  cbn zeta. split; [reflexivity|].
  destruct (authorizeB2_bucket_lookup_not_retried "photos"
              {| authorize := Some (Authorization "t1");
                 listBuckets := Some [("other", "id0")] |}
              1000 false initial _ eq_refl) as (d & Hd & _ & _ & Hnext).
  injection Hd as <-. apply Hnext. lia.
Defined.

(** ** Numerals *)

Lemma read_digits_acc (d : Decimal.uint) :
  forall acc,
    read_digits 10 (Some (Zpos acc)) (NilEmpty.string_of_uint d)
    = Some (Zpos (Pos.of_uint_acc d acc)).
Proof.
  induction d; intros acc; cbn [NilEmpty.string_of_uint read_digits];
    try reflexivity;
    match goal with
    | |- context [digit_value 10 ?c] =>
        let v := eval vm_compute in (digit_value 10 c) in
        change (digit_value 10 c) with v
    end; cbv iota; cbn [Pos.of_uint_acc]; rewrite <- IHd;
    f_equal; f_equal; lia.
Qed.

Lemma read_digits_uint (d : Decimal.uint) :
  read_digits 10 (Some 0) (NilEmpty.string_of_uint d)
  = Some (Z.of_N (Pos.of_uint d)).
Proof.
  induction d; cbn [NilEmpty.string_of_uint read_digits]; try reflexivity;
    match goal with
    | |- context [digit_value 10 ?c] =>
        let v := eval vm_compute in (digit_value 10 c) in
        change (digit_value 10 c) with v
    end; cbv iota; cbn [Pos.of_uint];
    first [exact IHd | apply read_digits_acc].
Qed.

Lemma read_digits_uint_start (d : Decimal.uint) :
  d <> Decimal.Nil ->
  read_digits 10 None (NilEmpty.string_of_uint d)
  = Some (Z.of_N (Pos.of_uint d)).
Proof.
  destruct d; intros Hd; try congruence;
    cbn [NilEmpty.string_of_uint read_digits];
    match goal with
    | |- context [digit_value 10 ?c] =>
        let v := eval vm_compute in (digit_value 10 c) in
        change (digit_value 10 c) with v
    end; cbv iota; cbn [Pos.of_uint];
    first [apply read_digits_uint | apply read_digits_acc].
Qed.

Lemma string_of_uint_digits (d : Decimal.uint) :
  all_chars is_digit (NilEmpty.string_of_uint d) = true.
Proof. induction d; simpl; auto. Qed.

(** The numeral of a positive number: digits only, and at least one. *)
Lemma numeral_of_pos (p : positive) :
  exists c s,
    NilEmpty.string_of_uint (Pos.to_uint p) = String c s
    /\ is_digit c = true /\ all_chars is_digit s = true.
Proof.
  pose proof (string_of_uint_digits (Pos.to_uint p)) as Hd.
  pose proof (Unsigned.to_uint_nonnil p) as Hn.
  destruct (Pos.to_uint p); try congruence; simpl in *;
    eexists; eexists; (split; [reflexivity|]); auto.
Qed.

Lemma of_Z_pos (p : positive) :
  of_Z (Zpos p) = NilEmpty.string_of_uint (Pos.to_uint p).
Proof.
  unfold of_Z. simpl. unfold NilZero.string_of_uint.
  pose proof (Unsigned.to_uint_nonnil p) as Hn.
  destruct (Pos.to_uint p); congruence.
Qed.

Lemma of_Z_neg (p : positive) :
  of_Z (Zneg p) = String "-" (NilEmpty.string_of_uint (Pos.to_uint p)).
Proof.
  unfold of_Z. simpl. unfold NilZero.string_of_uint.
  pose proof (Unsigned.to_uint_nonnil p) as Hn.
  destruct (Pos.to_uint p); congruence.
Qed.

Lemma digit_not_space (c : ascii) : is_digit c = true -> is_space c = false.
Proof.
  unfold is_digit, is_space. intros H.
  apply andb_true_iff in H as [H1 H2].
  apply Nat.leb_le in H1, H2.
  repeat (apply orb_false_iff; split);
    try apply andb_false_iff; try (apply Nat.eqb_neq; lia).
  right. apply Nat.leb_gt. lia.
Qed.

Lemma digits_no_hex_prefix (s : string) :
  all_chars is_digit s = true ->
  String.prefix "0x" s || String.prefix "0X" s = false.
Proof.
  intros Hs. destruct s as [|c [|c' s]]; try reflexivity.
  - cbn [String.prefix].
    destruct (Ascii.ascii_dec "0" c); reflexivity.
  - simpl in Hs. apply andb_true_iff in Hs as [_ Hs].
    apply andb_true_iff in Hs as [Hc' _].
    cbn [String.prefix].
    destruct (Ascii.ascii_dec "0" c); [|reflexivity].
    destruct (Ascii.ascii_dec "x" c') as [<-|]; [discriminate|].
    destruct (Ascii.ascii_dec "X" c') as [<-|]; [discriminate|].
    reflexivity.
Qed.

Lemma parseInt_digits (c : ascii) (s : string) :
  is_digit c = true -> all_chars is_digit s = true ->
  parseInt (String c s)
  = option_map (fun mathInt => to_double (1 * mathInt))
      (read_digits 10 None (String c s)).
Proof.
  intros Hc Hs. unfold parseInt. cbn [trimStart].
  rewrite (digit_not_space c Hc).
  assert (Hx : String.prefix "0x" (String c s)
               || String.prefix "0X" (String c s) = false)
    by (apply digits_no_hex_prefix; simpl; rewrite Hc; exact Hs).
  assert (Hm : c <> "-"%char) by (intros ->; discriminate).
  assert (Hp : c <> "+"%char) by (intros ->; discriminate).
  destruct c as [[|] [|] [|] [|] [|] [|] [|] [|]];
    try congruence; cbv beta iota; rewrite Hx; reflexivity.
Qed.

(** [parseInt] reads the decimal numeral of an integer as the double
    nearest to it. *)
Lemma parseInt_of_Z (z : Z) : parseInt (of_Z z) = Some (to_double z).
Proof.
  destruct z as [|p|p].
  - reflexivity.
  - rewrite of_Z_pos.
    destruct (numeral_of_pos p) as (c & s & E & Hc & Hs).
    rewrite E, (parseInt_digits c s Hc Hs), <- E.
    rewrite read_digits_uint_start by apply Unsigned.to_uint_nonnil.
    rewrite Unsigned.of_to. reflexivity.
  - rewrite of_Z_neg.
    destruct (numeral_of_pos p) as (c & s & E & Hc & Hs).
    unfold parseInt. cbn [trimStart].
    change (is_space "-") with false. cbv iota.
    rewrite digits_no_hex_prefix
      by (rewrite E; simpl; rewrite Hc; exact Hs).
    rewrite read_digits_uint_start by apply Unsigned.to_uint_nonnil.
    rewrite Unsigned.of_to. reflexivity.
Qed.

Lemma to_double_safe (z : Z) : safe_integer z = true -> to_double z = z.
Proof. unfold safe_integer, to_double. now intros ->. Qed.

Lemma print_number_safe (z : Z) :
  safe_integer z = true -> print_number z = of_Z z.
Proof.
  unfold safe_integer, print_number. intros H. apply Z.ltb_lt in H.
  assert (Hbig : 2 ^ 53 < INFINITY) by (vm_compute; reflexivity).
  set (b := 2 ^ 53) in *. cbv zeta.
  replace (INFINITY <=? Z.abs z) with false by (symmetry; apply Z.leb_gt; lia).
  replace (Z.abs z <=? b) with true by (symmetry; apply Z.leb_le; lia).
  reflexivity.
Qed.

Lemma or_num_safe (x : option Z) (dflt : Z) :
  safe_number x = true -> safe_integer dflt = true ->
  safe_integer (or_num x dflt) = true.
Proof.
  destruct x as [z|]; cbn [or_num safe_number]; auto.
  destruct (z =? 0); auto.
Qed.

Lemma of_Z_numeral (z : Z) :
  exists c s,
    of_Z z = String c s
    /\ numeral_char c = true /\ all_chars numeral_char s = true.
Proof.
  assert (Hd : forall s, all_chars is_digit s = true ->
                         all_chars numeral_char s = true).
  { induction s as [|c s IH]; simpl; [reflexivity|].
    intros H. apply andb_true_iff in H as [Hc Hs].
    unfold numeral_char at 1. rewrite Hc, (IH Hs). reflexivity. }
  destruct z as [|p|p].
  - exists "0"%char, ""%string. repeat split.
  - rewrite of_Z_pos.
    destruct (numeral_of_pos p) as (c & s & E & Hc & Hs).
    exists c, s. repeat split; auto.
    unfold numeral_char. now rewrite Hc.
  - rewrite of_Z_neg.
    destruct (numeral_of_pos p) as (c & s & E & Hc & Hs).
    eexists; eexists. split; [reflexivity|]. split; [reflexivity|].
    apply Hd. rewrite E. simpl. now rewrite Hc.
Qed.

Lemma numeral_char_plain (c : ascii) :
  numeral_char c = true ->
  is_space c = false /\ is_line_terminator c = false
  /\ c <> DQ /\ c <> SQ /\ c <> "["%char.
Proof.
  intros H. repeat split;
    try (intros ->; discriminate);
    destruct c as [[|] [|] [|] [|] [|] [|] [|] [|]];
    try discriminate; reflexivity.
Qed.

(** ** Lines and blocks *)

Lemma trimEnd_no_space (s : string) :
  all_chars (fun c => negb (is_space c)) s = true -> trimEnd s = s.
Proof.
  induction s as [|c s IH]; simpl; [reflexivity|].
  intros H. apply andb_true_iff in H as [Hc Hs].
  apply negb_true_iff in Hc. now rewrite Hc, (IH Hs).
Qed.

Lemma trimEnd_snoc (s : string) (c : ascii) :
  is_space c = false -> trimEnd (s +++ String c "") = s +++ String c "".
Proof.
  intros Hc. induction s as [|d s IH]; simpl.
  - now rewrite Hc.
  - rewrite IH. destruct s; simpl; now rewrite andb_false_r.
Qed.

Lemma drop_last_snoc (s : string) (c : ascii) :
  drop_last (s +++ String c "") = s.
Proof.
  induction s as [|d s IH]; simpl; [reflexivity|].
  rewrite IH. now destruct s.
Qed.

Lemma has_line_terminator_append (a b : string) :
  has_line_terminator (a +++ b)
  = has_line_terminator a || has_line_terminator b.
Proof.
  induction a as [|c a IH]; simpl; [reflexivity|].
  now rewrite IH, orb_assoc.
Qed.

Lemma no_terminator_no_LF (s : string) :
  has_line_terminator s = false -> has_char LF s = false.
Proof.
  induction s as [|c s IH]; simpl; [reflexivity|].
  intros H. apply orb_false_iff in H as [Hc Hs]. rewrite (IH Hs).
  unfold is_line_terminator in Hc. apply orb_false_iff in Hc as [Hc _].
  destruct (Ascii.eqb c LF) eqn:E; [|reflexivity].
  apply Ascii.eqb_eq in E. subst c. discriminate.
Qed.

Lemma drop_last_cr_plain (s : string) :
  has_line_terminator s = false -> drop_last_cr s = s.
Proof.
  induction s as [|c s IH]; simpl; [reflexivity|].
  intros H. apply orb_false_iff in H as [Hc Hs].
  destruct s as [|c' s].
  - destruct (Ascii.eqb c CR) eqn:E; [|reflexivity].
    apply Ascii.eqb_eq in E. subst c. discriminate.
  - now rewrite (IH Hs).
Qed.

(** A text made of lines without line terminators splits into those
    lines. *)
Lemma split_lines_join (l : string) (rest : list string) :
  Forall (fun x => has_line_terminator x = false) (l :: rest) ->
  split_lines (join nl (l :: rest)) = l :: rest.
Proof.
  unfold split_lines. revert l.
  induction rest as [|y rest IH]; intros l H.
  - inversion H; subst. cbn [join].
    rewrite split_no_sep by now apply no_terminator_no_LF.
    reflexivity.
  - inversion H as [|? ? Hl Hrest]; subst.
    change (join nl (l :: y :: rest))
      with (l +++ String LF (join nl (y :: rest))).
    rewrite split_append, split_no_sep by now apply no_terminator_no_LF.
    specialize (IH y Hrest).
    destruct (split LF (join nl (y :: rest))) as [|p ps] eqn:E;
      [discriminate|].
    cbn [app strip_cr_but_last] in *.
    rewrite (drop_last_cr_plain l Hl). now rewrite IH.
Qed.

Lemma until_close_char (c : ascii) (s : string) :
  is_line_terminator c = false ->
  until_close (String c s) = option_map (String c) (until_close s).
Proof.
  intros Hc. cbn [until_close]. unfold nl, crnl. cbn [String.prefix append].
  destruct (Ascii.ascii_dec LF c) as [<-|]; [discriminate|].
  destruct (Ascii.ascii_dec CR c) as [<-|]; [discriminate|].
  reflexivity.
Qed.

Lemma until_close_line (l s : string) :
  has_line_terminator l = false ->
  until_close (l +++ s) = option_map (append l) (until_close s).
Proof.
  induction l as [|c l IH]; intros H.
  - simpl. now destruct (until_close s).
  - simpl in H. apply orb_false_iff in H as [Hc Hl].
    change (String c l +++ s) with (String c (l +++ s)).
    rewrite (until_close_char c _ Hc), (IH Hl).
    now destruct (until_close s).
Qed.

Lemma until_close_break (l s : string) :
  plain_line l = true ->
  until_close (nl +++ l +++ s) = option_map (append nl) (until_close (l +++ s)).
Proof.
  destruct l as [|c l]; [discriminate|]. intros H.
  apply andb_true_iff in H as [Hdash _]. apply negb_true_iff in Hdash.
  unfold nl. change (String LF "" +++ String c l +++ s)
    with (String LF (String c (l +++ s))).
  change (String c l +++ s) with (String c (l +++ s)).
  cbn [until_close]. unfold crnl, nl. cbn [String.prefix append].
  destruct (Ascii.ascii_dec LF LF) as [_|N]; [|congruence].
  destruct (Ascii.ascii_dec CR LF) as [E|_]; [discriminate|].
  destruct (Ascii.ascii_dec "-" c) as [<-|]; [discriminate|].
  reflexivity.
Qed.

Lemma plain_line_no_terminator (l : string) :
  plain_line l = true -> has_line_terminator l = false.
Proof.
  destruct l as [|c l]; [discriminate|]. intros H.
  apply andb_true_iff in H as [_ H]. now apply negb_true_iff in H.
Qed.

(** The text up to the closing dashes is the lines before them. *)
Lemma until_close_lines (l : string) (rest : list string) (t : string) :
  Forall (fun x => plain_line x = true) (l :: rest) ->
  until_close (join nl (l :: rest) +++ nl +++ "---" +++ t)
  = Some (join nl (l :: rest)).
Proof.
  revert l. induction rest as [|y rest IH]; intros l H.
  - inversion H as [|? ? Hl _]; subst. cbn [join].
    rewrite until_close_line by now apply plain_line_no_terminator.
    rewrite until_close_closing. simpl.
    f_equal. clear. induction l; simpl; congruence.
  - inversion H as [|? ? Hl Hrest]; subst.
    change (join nl (l :: y :: rest))
      with (l +++ nl +++ join nl (y :: rest)).
    rewrite !append_assoc.
    rewrite until_close_line by now apply plain_line_no_terminator.
    inversion Hrest as [|? ? Hy _]; subst.
    specialize (IH y Hrest).
    destruct rest as [|z rest].
    + cbn [join] in *.
      rewrite (until_close_break y _ Hy), IH. reflexivity.
    + change (join nl (y :: z :: rest))
        with (y +++ nl +++ join nl (z :: rest)) in *.
      rewrite !append_assoc in *.
      rewrite (until_close_break y _ Hy), IH. reflexivity.
Qed.

(** ** Reading a written line *)

Lemma fm_get_line_other (line k r k' : string) (fm : FrontMatter) :
  split_key line = Some (k, r) ->
  (k =? k')%string = false ->
  fm_get k' (fm_line fm line) = fm_get k' fm.
Proof.
  intros Hkey Hne. unfold fm_line, match_line. rewrite Hkey.
  destruct (has_line_terminator _); [reflexivity|].
  destruct (k =? "__proto__")%string; [reflexivity|].
  cbn [fm_get]. now rewrite Hne.
Qed.

Lemma fm_get_line_same (line k r : string) (fm : FrontMatter) :
  split_key line = Some (k, r) ->
  (k =? "__proto__")%string = false ->
  has_line_terminator (trimStart r) = false ->
  fm_get k (fm_line fm line) = Some (parse_value (trimStart r)).
Proof.
  intros Hkey Hproto Hline. unfold fm_line, match_line.
  rewrite Hkey, Hline, Hproto. cbn [fm_get]. now rewrite String.eqb_refl.
Qed.

Lemma trimStart_no_terminator (s : string) :
  has_line_terminator s = false -> has_line_terminator (trimStart s) = false.
Proof.
  induction s as [|c s IH]; simpl; [reflexivity|].
  intros H. apply orb_false_iff in H as [Hc Hs].
  destruct (is_space c); [now apply IH|]. simpl. now rewrite Hc, Hs.
Qed.

Lemma numeral_chars_plain (s : string) :
  all_chars numeral_char s = true ->
  has_line_terminator s = false
  /\ all_chars (fun c => negb (is_space c)) s = true.
Proof.
  induction s as [|c s IH]; simpl; [auto|].
  intros H. apply andb_true_iff in H as [Hc Hs].
  destruct (numeral_char_plain c Hc) as (Hsp & Hlt & _).
  destruct (IH Hs) as [H1 H2]. now rewrite Hsp, Hlt, H1, H2.
Qed.

(** A decimal numeral is a value the reader leaves as it is. *)
Lemma numeral_value (z : Z) :
  has_line_terminator (trimStart (of_Z z)) = false
  /\ parse_value (trimStart (of_Z z)) = VStr (of_Z z).
Proof.
  destruct (of_Z_numeral z) as (c & s & E & Hc & Hs). rewrite E.
  destruct (numeral_char_plain c Hc) as (Hsp & Hlt & Hdq & Hsq & Hbr).
  destruct (numeral_chars_plain s Hs) as [Hs1 Hs2].
  assert (Htrim : trimStart (String c s) = String c s)
    by (cbn [trimStart]; now rewrite Hsp).
  rewrite Htrim. split.
  - simpl. now rewrite Hlt, Hs1.
  - unfold parse_value, trim. rewrite Htrim.
    rewrite trimEnd_no_space by (simpl; now rewrite Hsp, Hs2).
    unfold unquote, startsWith. cbn [String.prefix].
    destruct (Ascii.ascii_dec DQ c); [congruence|].
    destruct (Ascii.ascii_dec SQ c); [congruence|].
    cbn [andb orb String.prefix].
    destruct (Ascii.ascii_dec "[" c); [congruence|]. reflexivity.
Qed.

(** A safe integer written by [||] with a default is read back by
    [parseInt] and [||] with the same default. *)
Lemma or_num_again (x : option Z) (dflt : Z) :
  safe_integer (or_num x dflt) = true ->
  or_num (parseInt_val (Some (VStr (of_Z (or_num x dflt))))) dflt
  = or_num x dflt.
Proof.
  intros Hsafe. cbn [parseInt_val to_string].
  rewrite parseInt_of_Z, (to_double_safe _ Hsafe).
  destruct x as [z|]; cbn [or_num].
  - destruct (z =? 0) eqn:E; [|now rewrite E].
    destruct (dflt =? 0) eqn:E'; [|reflexivity]. lia.
  - destruct (dflt =? 0) eqn:E'; [|reflexivity]. lia.
Qed.

(** ** What the post writer writes *)

Lemma escape_quotes_terminator (s : string) :
  has_line_terminator (escape_quotes s) = has_line_terminator s.
Proof.
  induction s as [|c s IH]; simpl; [reflexivity|].
  destruct (Ascii.eqb c DQ) eqn:E.
  - apply Ascii.eqb_eq in E. subst c. simpl. now rewrite IH.
  - simpl. now rewrite IH.
Qed.

Lemma quote_field_one_line (x : option jsval) (dflt s : string) :
  quote_field x dflt = Done s ->
  one_line x = true ->
  has_line_terminator dflt = false ->
  has_line_terminator s = false.
Proof.
  unfold quote_field, one_line.
  destruct x as [[t|l]|]; try discriminate.
  - cbn [to_string]. destruct (t =? "")%string.
    + intros H _ Hd. congruence.
    + intros H Ht _. injection H as <-. apply negb_true_iff in Ht.
      unfold quoted. cbn [has_line_terminator].
      rewrite has_line_terminator_append, escape_quotes_terminator, Ht.
      reflexivity.
  - intros H _ Hd. congruence.
Qed.

Lemma plain_field (k x : string) :
  plain_line k = true ->
  has_line_terminator x = false ->
  plain_line (k +++ x) = true.
Proof.
  destruct k as [|c k]; [discriminate|]. intros Hk Hx.
  apply andb_true_iff in Hk as [Hc Hk]. apply negb_true_iff in Hk.
  assert (H : has_line_terminator (String c k +++ x) = false).
  { rewrite has_line_terminator_append, Hx, orb_false_r. exact Hk. }
  change (String c k +++ x) with (String c (k +++ x)) in *.
  unfold plain_line. now rewrite Hc, H.
Qed.

Lemma tags_line_field (t : option (list string)) :
  exists tail, tags_line t = "tags: " +++ tail.
Proof.
  destruct t as [[|x l]|].
  - exists "[]"%string. reflexivity.
  - exists ("[" +++ join ", " (x :: l) +++ "]"). reflexivity.
  - exists "[]"%string. reflexivity.
Qed.

Lemma tags_line_plain (t : option (list string)) :
  has_line_terminator (tags_line t) = false -> plain_line (tags_line t) = true.
Proof.
  destruct (tags_line_field t) as [tail ->]. intros H.
  change ("tags: " +++ tail) with (String "t" ("ags: " +++ tail)) in *.
  unfold plain_line. now rewrite H.
Qed.

Lemma numeral_value_line (z : Z) : has_line_terminator (of_Z z) = false.
Proof.
  destruct (of_Z_numeral z) as (c & s & E & Hc & Hs). rewrite E.
  apply (numeral_chars_plain (String c s)). simpl. now rewrite Hc, Hs.
Qed.

(** Whatever the number, what is printed for it holds no line terminator. *)
Lemma print_number_one_line (z : Z) :
  has_line_terminator (print_number z) = false.
Proof.
  unfold print_number. cbv zeta.
  assert (Hsign : has_line_terminator (if z <? 0 then "-" else "") = false)
    by (destruct (z <? 0); reflexivity).
  destruct (INFINITY <=? Z.abs z).
  { now rewrite has_line_terminator_append, Hsign. }
  destruct (Z.abs z <=? 2 ^ 53); [apply numeral_value_line|].
  rewrite has_line_terminator_append, Hsign. cbn [orb].
  unfold print_double. cbv zeta.
  destruct (shortest_from _ _ _ _ _) as [v p].
  destruct (_ <=? 21); [apply numeral_value_line|].
  unfold exponent_form.
  pose proof (numeral_value_line (v / p)) as Hs.
  destruct (of_Z (v / p)) as [|c [|c' rest]]; [reflexivity| |].
  - cbn [has_line_terminator] in *. apply orb_false_iff in Hs as [-> _].
    change (String "e" (String "+" "") +++ of_Z (Z.of_nat (String.length (of_Z v)) - 1))
      with ("e+" +++ of_Z (Z.of_nat (String.length (of_Z v)) - 1)).
    now rewrite has_line_terminator_append, numeral_value_line.
  - cbn [has_line_terminator] in Hs.
    apply orb_false_iff in Hs as [Hc Hrest].
    cbn [has_line_terminator]. rewrite Hc. cbn [orb].
    rewrite !has_line_terminator_append, numeral_value_line.
    change (has_line_terminator (String c' rest))
      with (is_line_terminator c' || has_line_terminator rest).
    now rewrite Hrest.
Qed.

(** What the post writer returns has a front-matter block, which the
    reader splits into the sixteen lines between the dashes. *)
Lemma written_block (P : Platform) (d : PostData) (content : string) :
  generatePostMarkdown P d = Done content ->
  single_line_fields P d = true ->
  exists title description developer block,
    quote_field (p_title d) (quoted "") = Done title
    /\ quote_field (p_description d) (quoted "Virtual Photography")
       = Done description
    /\ quote_field (p_developer d) (quoted "") = Done developer
    /\ has_line_terminator title = false
    /\ has_line_terminator description = false
    /\ has_line_terminator developer = false
    /\ front_matter_block content = Some block
    /\ parse_front_matter block
       = fold_left fm_line
           (removelast (tl (post_lines P d title description developer))) [].
Proof.
  unfold generatePostMarkdown, single_line_fields.
  destruct (quote_field (p_title d) _) as [title|] eqn:Qt; [|discriminate].
  destruct (quote_field (p_description d) _) as [description|] eqn:Qd;
    [|discriminate].
  destruct (quote_field (p_developer d) _) as [developer|] eqn:Qv;
    [|discriminate].
  intros H Hone.
  assert (E : content = join nl (post_lines P d title description developer))
    by congruence.
  clear H.
  repeat (apply andb_true_iff in Hone as [Hone ?]).
  repeat match goal with
         | H : negb _ = true |- _ => apply negb_true_iff in H
         end.
  assert (Ht : has_line_terminator title = false)
    by (eapply quote_field_one_line; eauto).
  assert (Hd : has_line_terminator description = false)
    by (eapply quote_field_one_line; eauto).
  assert (Hv : has_line_terminator developer = false)
    by (eapply quote_field_one_line; eauto).
  exists title, description, developer.
  set (middle := removelast (tl (post_lines P d title description developer))).
  exists (join nl middle).
  assert (Hplain : Forall (fun x => plain_line x = true) middle).
  { subst middle. unfold post_lines. cbv beta iota delta [removelast tl].
    repeat constructor;
      first [ reflexivity
            | now apply tags_line_plain
            | apply plain_field; [reflexivity|];
              first [ assumption | apply print_number_one_line ] ]. }
  assert (Hlines : Forall (fun x => has_line_terminator x = false) middle).
  { eapply Forall_impl; [|exact Hplain].
    intros x. apply plain_line_no_terminator. }
  assert (Hcontent : content = "---" +++ nl +++ join nl middle +++ nl +++ "---").
  { subst content middle. unfold post_lines.
    cbv beta iota delta [removelast tl].
    match goal with
    | |- _ = _ +++ _ +++ join nl (?x :: ?l) +++ _ =>
        rewrite <- (join_snoc nl l x "---")
    end.
    reflexivity. }
  repeat split; auto.
  - rewrite Hcontent, front_matter_block_open.
    subst middle. unfold post_lines in *.
    cbv beta iota delta [removelast tl] in *.
    match goal with
    | |- context [join nl (?x :: ?l)] =>
        replace (join nl (x :: l) +++ nl +++ "---")
          with (join nl (x :: l) +++ nl +++ "---" +++ "")
          by (now rewrite ?append_assoc);
        apply (until_close_lines x l "" Hplain)
    end.
  - unfold parse_front_matter. f_equal.
    subst middle. unfold post_lines in *.
    cbv beta iota delta [removelast tl] in *.
    match goal with
    | |- context [join nl (?x :: ?l)] => apply (split_lines_join x l Hlines)
    end.
Qed.

Ltac skip_line :=
  erewrite fm_get_line_other; [| reflexivity | reflexivity].

Ltac read_numeral :=
  repeat skip_line;
  erewrite fm_get_line_same;
    [| reflexivity | reflexivity | apply numeral_value];
  match goal with
  | |- context [parse_value (trimStart ?r)] =>
      match r with
      | context [of_Z ?z] =>
          change (parse_value (trimStart r))
            with (parse_value (trimStart (of_Z z)));
          rewrite (proj2 (numeral_value z))
      end
  end;
  now apply or_num_again.

(** The layout numbers that are printed are safe integers when the ones
    given are. *)
Lemma safe_numbers_printed (d : PostData) :
  safe_numbers d = true ->
  safe_integer (or_num (p_cardImage d) 0) = true
  /\ safe_integer (or_num (p_cardOffset d) 50) = true
  /\ safe_integer (or_num (p_cardOffsetX d) 50) = true
  /\ safe_integer (or_num (p_cardZoom d) 100) = true
  /\ safe_integer (or_num (p_bannerImage d) 0) = true
  /\ safe_integer (or_num (p_bannerOffset d) 50) = true
  /\ safe_integer (or_num (p_bannerOffsetX d) 50) = true
  /\ safe_integer (or_num (p_bannerZoom d) 100) = true.
Proof.
  unfold safe_numbers. intros H.
  repeat (apply andb_true_iff in H as [H ?]).
  repeat split; now apply or_num_safe.
Qed.

(** [X15] The eight layout numbers survive the post file when they are
    safe integers. When no text field of the post data holds a line
    terminator and every layout number given is an integer of magnitude
    below 2^53, the text the post writer returns has a front-matter block,
    and an album made from that block has for each number what was
    written: the number given, or the default of its field when none, or
    zero, was given. *)
Theorem written_layout_reads_back (P : Platform) (d : PostData)
    (content : string) :
  generatePostMarkdown P d = Done content ->
  single_line_fields P d = true ->
  safe_numbers d = true ->
  exists block,
    front_matter_block content = Some block
    /\ forall (s : string) (imgs : list Image) (pf jf : string),
         let a := make_album s (parse_front_matter block) imgs pf jf in
         cardImage a = or_num (p_cardImage d) 0
         /\ cardOffset a = or_num (p_cardOffset d) 50
         /\ cardOffsetX a = or_num (p_cardOffsetX d) 50
         /\ cardZoom a = or_num (p_cardZoom d) 100
         /\ bannerImage a = or_num (p_bannerImage d) 0
         /\ bannerOffset a = or_num (p_bannerOffset d) 50
         /\ bannerOffsetX a = or_num (p_bannerOffsetX d) 50
         /\ bannerZoom a = or_num (p_bannerZoom d) 100.
Proof.
  intros Hgen Hone Hsafe.
  destruct (written_block P d content Hgen Hone)
    as (t & de & dv & block & _ & _ & _ & _ & _ & _ & Hblock & Hparse).
  destruct (safe_numbers_printed d Hsafe)
    as (S1 & S2 & S3 & S4 & S5 & S6 & S7 & S8).
  exists block. split; [exact Hblock|].
  intros s imgs pf jf a. subst a.
  cbn [make_album cardImage cardOffset cardOffsetX cardZoom bannerImage
       bannerOffset bannerOffsetX bannerZoom].
  rewrite Hparse. unfold post_lines.
  cbv beta iota delta [removelast tl]. cbn [fold_left].
  rewrite !print_number_safe by assumption.
  repeat split; read_numeral.
Qed.

Lemma written_layout_reads_back_witness :
  let d := {| p_title := Some (VStr "Night City");
              p_description := None;
              p_developer := Some (VStr "CD Projekt");
              p_date := Some (VStr "2024-05-01");
              p_tags := Some ["rpg"; "open world"];
              p_slug := "night-city";
              p_cardImage := Some 3;
              p_cardOffset := Some 0;
              p_cardOffsetX := None;
              p_cardZoom := Some 120;
              p_bannerImage := Some 0;
              p_bannerOffset := Some (-5);
              p_bannerOffsetX := Some 50;
              p_bannerZoom := Some 9007199254740991 |} in
  exists content,
    generatePostMarkdown Demo.platform d = Done content
    /\ exists block,
         front_matter_block content = Some block
         /\ forall (s : string) (imgs : list Image) (pf jf : string),
              let a := make_album s (parse_front_matter block) imgs pf jf in
              cardImage a = 3
              /\ cardOffset a = 50
              /\ cardOffsetX a = 50
              /\ cardZoom a = 120
              /\ bannerImage a = 0
              /\ bannerOffset a = -5
              /\ bannerOffsetX a = 50
              /\ bannerZoom a = 9007199254740991.
Proof.
  intros d. eexists. split; [reflexivity|].
  exact (written_layout_reads_back Demo.platform d _ eq_refl eq_refl eq_refl).
Defined.

(** Beyond the safe integers a number is not read back as it was written:
    a zoom of 10^21 is printed in exponent form and read back as 1, and a
    zoom of 2^60 is printed with the shortest digits that denote it. *)
Example large_number_not_read_back :
  let d z := {| p_title := Some (VStr "Night City");
                p_description := None;
                p_developer := None;
                p_date := Some (VStr "2024-05-01");
                p_tags := None;
                p_slug := "night-city";
                p_cardImage := None;
                p_cardOffset := None;
                p_cardOffsetX := None;
                p_cardZoom := Some z;
                p_bannerImage := None;
                p_bannerOffset := None;
                p_bannerOffsetX := None;
                p_bannerZoom := None |} in
  let zoom_line z :=
    nth 12 (post_lines Demo.platform (d z) "" "" "") ""%string in
  let zoom_back z :=
    match generatePostMarkdown Demo.platform (d z) with
    | Done content =>
        match front_matter_block content with
        | Some block =>
            Some (cardZoom (make_album "night-city" (parse_front_matter block)
                              [] "" ""))
        | None => None
        end
    | Throws _ => None
    end in
  zoom_line (10 ^ 21) = "card-zoom: 1e+21"%string
  /\ zoom_back (10 ^ 21) = Some 1
  /\ zoom_line (2 ^ 60) = "card-zoom: 1152921504606847000"%string
  /\ zoom_back (2 ^ 60) = Some 1152921504606846976
  /\ parseInt "9007199254740993" = Some 9007199254740992.
Proof. vm_compute. repeat split. Qed.

(** ** Text fields *)

Lemma trimStart_idem (s : string) : trimStart (trimStart s) = trimStart s.
Proof.
  induction s as [|c s IH]; simpl; [reflexivity|].
  destruct (is_space c) eqn:E; [exact IH|]. simpl. now rewrite E.
Qed.

Lemma parse_value_trimStart (s : string) :
  parse_value (trimStart s) = parse_value s.
Proof. unfold parse_value, trim. now rewrite trimStart_idem. Qed.

Lemma unquote_quoted (e : string) : unquote (quoted e) = e.
Proof.
  unfold unquote, quoted.
  assert (Hs : startsWith (String DQ "") (String DQ (e +++ String DQ ""))
               = true).
  { unfold startsWith. cbn [String.prefix].
    destruct (Ascii.ascii_dec DQ DQ) as [_|N]; [|congruence].
    apply prefix_empty. }
  assert (He : endsWith (String DQ "") (String DQ (e +++ String DQ ""))
               = true)
    by apply (endsWith_append (String DQ e) (String DQ "")).
  rewrite Hs, He. cbn [andb orb].
  unfold slice_1_m1. apply drop_last_snoc.
Qed.

(** A value between double quotes is read without them, and then as a list
    when what is left stands between brackets. *)
Lemma parse_value_quoted (e : string) :
  parse_value (quoted e)
  = if bracketed e then VArr (map trim (split "," (slice_1_m1 e)))
    else VStr e.
Proof.
  unfold parse_value.
  assert (Htrim : trim (quoted e) = quoted e).
  { unfold trim, quoted.
    assert (Hsp : is_space DQ = false) by reflexivity.
    cbn [trimStart]. rewrite Hsp.
    apply (trimEnd_snoc (String DQ e) DQ Hsp). }
  rewrite Htrim, unquote_quoted. reflexivity.
Qed.

Lemma escape_quotes_none (t : string) :
  has_char DQ t = false -> escape_quotes t = t.
Proof.
  induction t as [|c t IH]; simpl; [reflexivity|].
  intros H. apply orb_false_iff in H as [Hc Ht]. now rewrite Hc, (IH Ht).
Qed.

(** The three quoted lines, as the reader takes them. *)
Lemma written_text_fields (P : Platform) (d : PostData) (content : string) :
  generatePostMarkdown P d = Done content ->
  single_line_fields P d = true ->
  exists title description developer block,
    quote_field (p_title d) (quoted "") = Done title
    /\ quote_field (p_description d) (quoted "Virtual Photography")
       = Done description
    /\ quote_field (p_developer d) (quoted "") = Done developer
    /\ front_matter_block content = Some block
    /\ fm_get "title" (parse_front_matter block) = Some (parse_value title)
    /\ fm_get "description" (parse_front_matter block)
       = Some (parse_value description)
    /\ fm_get "developer" (parse_front_matter block)
       = Some (parse_value developer).
Proof.
  intros Hgen Hone.
  destruct (written_block P d content Hgen Hone)
    as (t & de & dv & block & Qt & Qd & Qv & Ht & Hd & Hv & Hblock & Hparse).
  exists t, de, dv, block. repeat (split; [assumption|]).
  rewrite Hparse. unfold post_lines.
  cbv beta iota delta [removelast tl]. cbn [fold_left].
  destruct (tags_line_field (p_tags d)) as [tail ->].
  repeat split; repeat skip_line;
    (erewrite fm_get_line_same;
     [| reflexivity | reflexivity
      | apply trimStart_no_terminator;
        first [exact Ht | exact Hd | exact Hv] ]);
    f_equal;
    match goal with
    | |- parse_value (trimStart ?r) = parse_value ?x =>
        change (parse_value (trimStart r))
          with (parse_value (trimStart x))
    end;
    apply parse_value_trimStart.
Qed.

Lemma plain_text_back (x : option jsval) (dflt q t : string) (fallback : jsval) :
  quote_field x dflt = Done q ->
  x = Some (VStr t) ->
  t <> ""%string -> has_char DQ t = false -> bracketed t = false ->
  or_val (Some (parse_value q)) fallback = VStr t.
Proof.
  intros Hq -> Ht Hdq Hbr. unfold quote_field in Hq.
  destruct (t =? "")%string eqn:E; [now apply String.eqb_eq in E|].
  injection Hq as <-.
  rewrite parse_value_quoted, (escape_quotes_none t Hdq), Hbr.
  cbn [or_val truthy]. now rewrite E.
Qed.

Lemma missing_text_back (dflt q : string) (fallback : jsval) :
  quote_field None (quoted dflt) = Done q ->
  bracketed dflt = false ->
  or_val (Some (parse_value q)) fallback = or_val (Some (VStr dflt)) fallback.
Proof.
  intros Hq Hbr. injection Hq as <-. now rewrite parse_value_quoted, Hbr.
Qed.

(** [X16] Plain text survives the post file. When no text field of the post
    data holds a line terminator, an album made from the front-matter block
    of what the post writer returns has the title, the description and the
    developer that were given, for each of them that is a non-empty string
    without double quote which does not stand between brackets. A title
    that was not given is read as the slug of the album, a description as
    the words Virtual Photography, a developer as the empty string. *)
Theorem written_text_reads_back (P : Platform) (d : PostData)
    (content : string) :
  generatePostMarkdown P d = Done content ->
  single_line_fields P d = true ->
  exists block,
    front_matter_block content = Some block
    /\ forall (s : string) (imgs : list Image) (pf jf : string),
         let a := make_album s (parse_front_matter block) imgs pf jf in
         (forall t, p_title d = Some (VStr t) -> t <> ""%string ->
                    has_char DQ t = false -> bracketed t = false ->
                    title a = VStr t)
         /\ (forall t, p_description d = Some (VStr t) -> t <> ""%string ->
                       has_char DQ t = false -> bracketed t = false ->
                       description a = VStr t)
         /\ (forall t, p_developer d = Some (VStr t) -> t <> ""%string ->
                       has_char DQ t = false -> bracketed t = false ->
                       developer a = VStr t)
         /\ (p_title d = None -> title a = VStr s)
         /\ (p_description d = None ->
             description a = VStr "Virtual Photography")
         /\ (p_developer d = None -> developer a = VStr "").
Proof.
  intros Hgen Hone.
  destruct (written_text_fields P d content Hgen Hone)
    as (t & de & dv & block & Qt & Qd & Qv & Hblock & Ft & Fd & Fv).
  exists block. split; [exact Hblock|].
  intros s imgs pf jf a. subst a.
  cbn [make_album title description developer].
  rewrite Ft, Fd, Fv.
  repeat split.
  - intros x Hx. now apply (plain_text_back _ _ _ _ _ Qt).
  - intros x Hx. now apply (plain_text_back _ _ _ _ _ Qd).
  - intros x Hx. now apply (plain_text_back _ _ _ _ _ Qv).
  - intros Hx. rewrite Hx in Qt.
    now rewrite (missing_text_back _ _ _ Qt).
  - intros Hx. rewrite Hx in Qd.
    now rewrite (missing_text_back _ _ _ Qd).
  - intros Hx. rewrite Hx in Qv.
    now rewrite (missing_text_back _ _ _ Qv).
Qed.

Lemma written_text_reads_back_witness :
  let d := {| p_title := Some (VStr "Night City");
              p_description := None;
              p_developer := Some (VStr "CD Projekt");
              p_date := Some (VStr "2024-05-01");
              p_tags := Some ["rpg"; "open world"];
              p_slug := "night-city";
              p_cardImage := Some 3;
              p_cardOffset := Some 0;
              p_cardOffsetX := None;
              p_cardZoom := Some 120;
              p_bannerImage := Some 0;
              p_bannerOffset := Some (-5);
              p_bannerOffsetX := Some 50;
              p_bannerZoom := None |} in
  exists content,
    generatePostMarkdown Demo.platform d = Done content
    /\ exists block,
         front_matter_block content = Some block
         /\ forall (s : string) (imgs : list Image) (pf jf : string),
              let a := make_album s (parse_front_matter block) imgs pf jf in
              title a = VStr "Night City"
              /\ description a = VStr "Virtual Photography"
              /\ developer a = VStr "CD Projekt".
Proof.
  intros d. eexists. split; [reflexivity|].
  destruct (written_text_reads_back Demo.platform d _ eq_refl eq_refl)
    as (block & Hblock & H).
  exists block. split; [exact Hblock|].
  intros s imgs pf jf a.
  destruct (H s imgs pf jf) as (Ht & _ & Hv & _ & Hd & _).
  repeat split.
  - apply Ht; [reflexivity | discriminate | reflexivity | reflexivity].
  - apply Hd. reflexivity.
  - apply Hv; [reflexivity | discriminate | reflexivity | reflexivity].
Defined.

(** ** Tags *)

Lemma tags_line_value (t : option (list string)) :
  tags_line t
  = "tags: " +++ "[" +++ join ", " (match t with Some l => l | None => [] end)
    +++ "]".
Proof. destruct t as [[|x l]|]; reflexivity. Qed.

(** A value between brackets is read as the list of its pieces. *)
Lemma parse_value_bracketed (j : string) :
  parse_value ("[" +++ j +++ "]") = VArr (map trim (split "," j)).
Proof.
  unfold parse_value.
  assert (Htrim : trim ("[" +++ j +++ "]") = "[" +++ j +++ "]").
  { unfold trim.
    change ("[" +++ j +++ "]") with (String "[" (j +++ "]")).
    cbn [trimStart]. change (is_space "[") with false. cbv iota.
    apply (trimEnd_snoc (String "[" j) "]"). reflexivity. }
  rewrite Htrim.
  assert (Hun : unquote ("[" +++ j +++ "]") = "[" +++ j +++ "]").
  { unfold unquote, startsWith.
    change ("[" +++ j +++ "]") with (String "[" (j +++ "]")).
    cbn [String.prefix].
    destruct (Ascii.ascii_dec DQ "[") as [E|_]; [discriminate|].
    destruct (Ascii.ascii_dec SQ "[") as [E|_]; [discriminate|].
    reflexivity. }
  rewrite Hun.
  assert (Hs : startsWith "[" ("[" +++ j +++ "]") = true).
  { unfold startsWith.
    change ("[" +++ j +++ "]") with (String "[" (j +++ "]")).
    cbn [String.prefix].
    destruct (Ascii.ascii_dec "[" "[") as [_|N]; [|congruence].
    apply prefix_empty. }
  assert (He : endsWith "]" ("[" +++ j +++ "]") = true)
    by apply (endsWith_append (String "[" j) "]").
  rewrite Hs, He. cbn [andb].
  change ("[" +++ j +++ "]") with (String "[" (j +++ "]")).
  unfold slice_1_m1. now rewrite drop_last_snoc.
Qed.

Lemma split_join_comma (x : string) (l : list string) :
  Forall (fun t => has_char "," t = false) (x :: l) ->
  split "," (join ", " (x :: l)) = x :: map (String " ") l.
Proof.
  revert x. induction l as [|y l IH]; intros x H.
  - inversion H; subst. cbn [join map]. now apply split_no_sep.
  - inversion H as [|? ? Hx Hl]; subst.
    change (join ", " (x :: y :: l))
      with (x +++ String "," (String " " (join ", " (y :: l)))).
    rewrite split_append, (split_no_sep _ _ Hx).
    cbn [split]. change (Ascii.eqb " " ",") with false. cbv iota.
    rewrite (IH y Hl). reflexivity.
Qed.

Lemma map_trim_spaced (l : list string) :
  map trim (map (String " ") l) = map trim l.
Proof.
  induction l as [|y l IH]; [reflexivity|].
  cbn [map]. now rewrite IH.
Qed.

(** [X17] Tags survive the post file up to trimming, and an album without
    tags gets one empty tag. When no text field of the post data holds a
    line terminator, an album made from the front-matter block of what the
    post writer returns has, for a non-empty list of tags none of which
    holds a comma, those tags, each without the white space around it. When
    no tag, or an empty list, was given, the tags of the album are a list
    that holds one empty string. *)
Theorem written_tags_read_back (P : Platform) (d : PostData)
    (content : string) :
  generatePostMarkdown P d = Done content ->
  single_line_fields P d = true ->
  exists block,
    front_matter_block content = Some block
    /\ forall (s : string) (imgs : list Image) (pf jf : string),
         let a := make_album s (parse_front_matter block) imgs pf jf in
         (forall x l, p_tags d = Some (x :: l) ->
                      Forall (fun t => has_char "," t = false) (x :: l) ->
                      tags a = map trim (x :: l))
         /\ (p_tags d = None \/ p_tags d = Some [] -> tags a = [""%string]).
Proof.
  intros Hgen Hone.
  destruct (written_block P d content Hgen Hone)
    as (t & de & dv & block & _ & _ & _ & _ & _ & _ & Hblock & Hparse).
  exists block. split; [exact Hblock|].
  intros s imgs pf jf a. subst a.
  cbn [make_album tags]. unfold parse_tags.
  assert (Hline : has_line_terminator (tags_line (p_tags d)) = false).
  { unfold single_line_fields in Hone.
    repeat (apply andb_true_iff in Hone as [Hone ?]).
    now apply negb_true_iff. }
  rewrite Hparse. unfold post_lines.
  cbv beta iota delta [removelast tl]. cbn [fold_left].
  rewrite tags_line_value in *.
  set (j := join ", " (match p_tags d with Some l => l | None => [] end)) in *.
  repeat skip_line.
  erewrite fm_get_line_same; [| reflexivity | reflexivity | ].
  - match goal with
    | |- context [parse_value (trimStart ?r)] =>
        change (parse_value (trimStart r))
          with (parse_value (trimStart ("[" +++ j +++ "]")))
    end.
    rewrite parse_value_trimStart, parse_value_bracketed.
    subst j. split.
    + intros x l -> Hcomma.
      rewrite (split_join_comma x l Hcomma).
      cbn [map]. now rewrite map_trim_spaced.
    + intros [-> | ->]; reflexivity.
  - apply trimStart_no_terminator.
    rewrite has_line_terminator_append in Hline.
    apply orb_false_iff in Hline as [_ Hline].
    apply trimStart_no_terminator in Hline. exact Hline.
Qed.

Lemma written_tags_read_back_witness :
  let d := {| p_title := Some (VStr "Night City");
              p_description := None;
              p_developer := Some (VStr "CD Projekt");
              p_date := Some (VStr "2024-05-01");
              p_tags := Some ["rpg"; " open world "];
              p_slug := "night-city";
              p_cardImage := Some 3;
              p_cardOffset := Some 0;
              p_cardOffsetX := None;
              p_cardZoom := Some 120;
              p_bannerImage := Some 0;
              p_bannerOffset := Some (-5);
              p_bannerOffsetX := Some 50;
              p_bannerZoom := None |} in
  exists content,
    generatePostMarkdown Demo.platform d = Done content
    /\ exists block,
         front_matter_block content = Some block
         /\ forall (s : string) (imgs : list Image) (pf jf : string),
              tags (make_album s (parse_front_matter block) imgs pf jf)
              = ["rpg"; "open world"]%string.
Proof.
  intros d. eexists. split; [reflexivity|].
  destruct (written_tags_read_back Demo.platform d _ eq_refl eq_refl)
    as (block & Hblock & H).
  exists block. split; [exact Hblock|].
  intros s imgs pf jf.
  destruct (H s imgs pf jf) as (Ht & _).
  apply (Ht "rpg"%string [" open world "%string]); [reflexivity|].
  repeat constructor.
Defined.

(** ** Updating, then listing *)

Lemma or_num_idem (x : option Z) (dflt : Z) :
  or_num (Some (or_num x dflt)) dflt = or_num x dflt.
Proof.
  destruct x as [z|]; cbn [or_num].
  - destruct (z =? 0) eqn:E; [|now rewrite E].
    destruct (dflt =? 0) eqn:E'; [|reflexivity]. lia.
  - destruct (dflt =? 0) eqn:E'; [|reflexivity]. lia.
Qed.

(** Reading a descriptor after its post was rewritten in place. *)
Lemma load_album_rewritten (P : Platform) (st : Store) (jf : string)
    (album : Album) (content block : string) :
  load_album P st jf = Some album ->
  front_matter_block content = Some block ->
  load_album P
    (with_posts st (dir_write (postFile album) content (posts st))) jf
  = Some (make_album (slug album) (parse_front_matter block) (images album)
            (postFile album) jf).
Proof.
  unfold load_album. cbn [posts data with_posts].
  destruct (filter _ (readdir (posts st))) as [|pf rest] eqn:Hfilter;
    [discriminate|].
  destruct (dir_read pf (posts st)) as [c0|] eqn:Hread; [|discriminate].
  destruct (front_matter_block c0) as [b0|]; [|discriminate].
  intros H Hblock. injection H as <-. cbn [make_album postFile slug images].
  rewrite readdir_write. unfold dir_exists. rewrite Hread, Hfilter.
  now rewrite dir_read_write_same, Hblock.
Qed.

(** [X18] An update that leaves the date alone sets the layout numbers it
    names and keeps the others, as long as they are safe integers. After a
    successful update of an album whose merged text fields hold no line
    terminator and whose merged layout numbers (the ones read from the
    request, and the ones of the album for the fields the request does not
    name) are integers of magnitude below 2^53, the descriptor of the album
    is still listed, and every listed album backed by it has the slug, the
    post file and the images it had; each layout number the request does
    not name has the value it had before; each one it names has the integer
    read from the request, or the default of its field when that is zero or
    no integer. *)
Theorem updateAlbum_layout_persists (P : Platform) (s : string)
    (req : UpdateRequest) (w w' : World) (msg : string) (album : Album) :
  getAlbum P (store w) s = Some album ->
  updateAlbum P s req w = (w', Success msg) ->
  single_line_fields P (merged_fields album req) = true ->
  safe_numbers (merged_fields album req) = true ->
  date_changed album req = false ->
  (exists a, In a (getAlbums P (store w')) /\ jsonFile a = jsonFile album)
  /\ forall a,
       In a (getAlbums P (store w')) -> jsonFile a = jsonFile album ->
       slug a = slug album /\ postFile a = postFile album
       /\ images a = images album
       /\ cardImage a = or_num (int_field (u_cardImage req) (cardImage album)) 0
       /\ cardOffset a
          = or_num (int_field (u_cardOffset req) (cardOffset album)) 50
       /\ cardOffsetX a
          = or_num (int_field (u_cardOffsetX req) (cardOffsetX album)) 50
       /\ cardZoom a = or_num (int_field (u_cardZoom req) (cardZoom album)) 100
       /\ bannerImage a
          = or_num (int_field (u_bannerImage req) (bannerImage album)) 0
       /\ bannerOffset a
          = or_num (int_field (u_bannerOffset req) (bannerOffset album)) 50
       /\ bannerOffsetX a
          = or_num (int_field (u_bannerOffsetX req) (bannerOffsetX album)) 50
       /\ bannerZoom a
          = or_num (int_field (u_bannerZoom req) (bannerZoom album)) 100
       /\ (u_cardImage req = None -> cardImage a = cardImage album)
       /\ (u_cardOffset req = None -> cardOffset a = cardOffset album)
       /\ (u_cardOffsetX req = None -> cardOffsetX a = cardOffsetX album)
       /\ (u_cardZoom req = None -> cardZoom a = cardZoom album)
       /\ (u_bannerImage req = None -> bannerImage a = bannerImage album)
       /\ (u_bannerOffset req = None -> bannerOffset a = bannerOffset album)
       /\ (u_bannerOffsetX req = None ->
           bannerOffsetX a = bannerOffsetX album)
       /\ (u_bannerZoom req = None -> bannerZoom a = bannerZoom album).
Proof.
  intros Hget Hupd Hone Hsafe Hdate.
  assert (Hin : In album (getAlbums P (store w)))
    by (apply find_some in Hget; tauto).
  destruct (getAlbums_In P _ _ Hin) as (jf & Hjf & Hload).
  destruct (load_album_fields P _ _ _ Hload) as (Ejf & _).
  destruct (load_album_made P _ _ _ Hload) as (c0 & b0 & _ & _ & Hmade).
  unfold updateAlbum in Hupd. rewrite Hget in Hupd.
  unfold new_post_path in Hupd. rewrite Hdate in Hupd.
  destruct (generatePostMarkdown P (merged_fields album req))
    as [content|] eqn:Hgen; [|discriminate].
  assert (Ew : w' = {| store := with_posts (store w)
                                  (dir_write (postFile album) content
                                     (posts (store w)));
                       remote := remote w |}) by congruence.
  clear Hupd.
  destruct (written_block P _ content Hgen Hone)
    as (t & de & dv & block & _ & _ & _ & _ & _ & _ & Hblock & Hparse).
  pose proof (load_album_rewritten P _ _ _ _ _ Hload Hblock) as Hnew.
  subst w'. cbn [store].
  set (st' := with_posts (store w) _) in *.
  assert (Hfiles : json_files st' = json_files (store w)) by reflexivity.
  split.
  - eexists. split.
    + apply (Permutation_in _ (getAlbums_perm P st')).
      apply collect_In. exists jf. rewrite Hfiles. split; eassumption.
    + cbn [jsonFile make_album]. now rewrite Ejf.
  - intros a Ha Eja.
    destruct (getAlbums_In P _ _ Ha) as (jf' & _ & Hload').
    destruct (load_album_fields P _ _ _ Hload') as (Ejf' & _).
    assert (E : jf' = jf) by congruence.
    rewrite E, Hnew in Hload'. injection Hload' as <-.
    cbn [make_album slug postFile images cardImage cardOffset cardOffsetX
         cardZoom bannerImage bannerOffset bannerOffsetX bannerZoom].
    assert (Hnum :
      or_num (parseInt_val (fm_get "card-image" (parse_front_matter block))) 0
      = or_num (int_field (u_cardImage req) (cardImage album)) 0
      /\ or_num (parseInt_val (fm_get "card-offset" (parse_front_matter block))) 50
         = or_num (int_field (u_cardOffset req) (cardOffset album)) 50
      /\ or_num (parseInt_val (fm_get "card-offset-x" (parse_front_matter block))) 50
         = or_num (int_field (u_cardOffsetX req) (cardOffsetX album)) 50
      /\ or_num (parseInt_val (fm_get "card-zoom" (parse_front_matter block))) 100
         = or_num (int_field (u_cardZoom req) (cardZoom album)) 100
      /\ or_num (parseInt_val (fm_get "banner-image" (parse_front_matter block))) 0
         = or_num (int_field (u_bannerImage req) (bannerImage album)) 0
      /\ or_num (parseInt_val (fm_get "banner-offset" (parse_front_matter block))) 50
         = or_num (int_field (u_bannerOffset req) (bannerOffset album)) 50
      /\ or_num (parseInt_val (fm_get "banner-offset-x" (parse_front_matter block))) 50
         = or_num (int_field (u_bannerOffsetX req) (bannerOffsetX album)) 50
      /\ or_num (parseInt_val (fm_get "banner-zoom" (parse_front_matter block))) 100
         = or_num (int_field (u_bannerZoom req) (bannerZoom album)) 100).
    { destruct (safe_numbers_printed _ Hsafe)
        as (S1 & S2 & S3 & S4 & S5 & S6 & S7 & S8).
      rewrite Hparse. unfold post_lines.
      cbv beta iota delta [removelast tl]. cbn [fold_left].
      rewrite !print_number_safe by assumption.
      cbn [merged_fields p_cardImage p_cardOffset p_cardOffsetX p_cardZoom
           p_bannerImage p_bannerOffset p_bannerOffsetX p_bannerZoom] in *.
      repeat split; read_numeral. }
    destruct Hnum as (N1 & N2 & N3 & N4 & N5 & N6 & N7 & N8).
    rewrite N1, N2, N3, N4, N5, N6, N7, N8.
    repeat (split; [reflexivity|]).
    rewrite Hmade.
    cbn [make_album cardImage cardOffset cardOffsetX cardZoom bannerImage
         bannerOffset bannerOffsetX bannerZoom].
    repeat split; intros ->; cbn [int_field]; apply or_num_idem.
Qed.

Lemma updateAlbum_layout_persists_witness :
  let w := Sample.with_body in
  let req := Sample.card_request "2" "120" in
  let w' := fst (updateAlbum Demo.platform "a" req w) in
  exists a,
    In a (getAlbums Demo.platform (store w'))
    /\ jsonFile a = "a.json"%string
    /\ cardImage a = 2 /\ cardZoom a = 120
    /\ cardOffset a = 50 /\ bannerZoom a = 100.
Proof.
  intros w req w'.
  destruct (updateAlbum_layout_persists Demo.platform "a" req w w'
              "Album updated"
              (make_album "a"
                 (parse_front_matter
                    (join nl ["title: A"; "date: 2024-01-02"]))
                 [] "2024-01-02-a.md" "a.json")
              eq_refl eq_refl eq_refl eq_refl eq_refl)
    as ((a & Ha & Ej) & Hall).
  exists a. split; [exact Ha|]. split; [exact Ej|].
  destruct (Hall a Ha Ej)
    as (_ & _ & _ & H1 & H2 & _ & H4 & _ & _ & _ & H8 & _).
  repeat split; assumption.
Defined.

(** A zoom of 10^21 in the request is written in exponent form, and the
    album is then listed with the zoom 1. *)
Example updateAlbum_large_zoom :
  let req := Sample.card_request "2" "1000000000000000000000" in
  let w' := fst (updateAlbum Demo.platform "a" req Sample.with_body) in
  snd (updateAlbum Demo.platform "a" req Sample.with_body)
  = Success "Album updated"
  /\ safe_numbers
       (merged_fields
          (make_album "a"
             (parse_front_matter (join nl ["title: A"; "date: 2024-01-02"]))
             [] "2024-01-02-a.md" "a.json") req) = false
  /\ map (fun a => (cardImage a, cardZoom a))
       (getAlbums Demo.platform (store w')) = [(2, 1)].
Proof. vm_compute. repeat split. Qed.
